(** * flexcalc: a flexibility score from an MD trajectory

    A shallow embedding of [flexcalc.c] (V1.0, 24.11.25) and the
    properties of its four-pass pipeline: count the frames, average the
    coordinates, find the frame nearest to the average, average the
    RMSDs of all frames to that frame.

    What is embedded, and how:

    - [REAL] is bioplib's floating-point typedef ([MathType.h], not
      among the sources).  The code is written against that name only,
      so the embedding is generic in an arithmetic interface
      [RealType].  The instance [float_RealType] is IEEE-754 binary64,
      the C [double] bioplib defines [REAL] as, with every operation
      rounded on its own; the instance [R_RealType] is exact real
      arithmetic.
    - [ULONG] (bioplib, [unsigned long]) is taken as 64 bits and [int]
      as 32 bits; both wrap around.
    - A [FRAME *] is a singly linked list of coordinate triples, built
      and walked with bioplib's [INIT], [ALLOCNEXT], [NEXT] and
      [FREELIST].  It is embedded as a [list coord], the [NULL] pointer
      being [nil].  Allocation is assumed to succeed: the paths the
      code takes when [malloc] returns [NULL] are not embedded, and
      every statement below is about runs in which no allocation
      fails.
    - A [FILE *] opened for reading is embedded as the sequence of
      records that [fgets(buffer, MAXBUFF-1, in)] delivers, together
      with the records not yet read; [rewind] restores the sequence.
    - The [static] variables of [ReadFrame], and what was written to
      [stderr], are part of the state that is passed around; [exit]
      ends a run with its status.
    - A loop that calls [ReadFrame] until it returns [NULL] is a
      function with fuel; the fuel a pass is given always suffices
      ([main_opened_pipeline], [main_returns]). *)

From Stdlib Require Import ZArith List String Ascii Bool Lia Permutation.
From Stdlib Require Import DecimalString.
From Stdlib Require Import Floats Uint63.
From Stdlib Require Import Reals Lra.
Import ListNotations.

(** ** The arithmetic the code needs from [REAL] *)

Class RealType (REAL : Type) : Type := {
  r_zero : REAL;                       (* the literal 0.0  *)
  r_mone : REAL;                       (* the literal -1.0 *)
  r_add  : REAL -> REAL -> REAL;
  r_sub  : REAL -> REAL -> REAL;
  r_mul  : REAL -> REAL -> REAL;
  r_div  : REAL -> REAL -> REAL;
  r_sqrt : REAL -> REAL;
  r_ltb  : REAL -> REAL -> bool;       (* the C comparison <            *)
  r_of_Z : Z -> REAL                   (* integer to REAL conversion    *)
}.

Declare Scope REAL_scope.
Delimit Scope REAL_scope with REAL.
Infix "+" := r_add : REAL_scope.
Infix "-" := r_sub : REAL_scope.
Infix "*" := r_mul : REAL_scope.
Infix "/" := r_div : REAL_scope.
Infix "<?" := r_ltb : REAL_scope.

(** *** Machine integers *)

(** [int]: 32 bits, two's complement wrap-around written out. *)
Definition int_wrap (v : Z) : Z := ((v + 2 ^ 31) mod 2 ^ 32 - 2 ^ 31)%Z.

(** [ULONG]: unsigned 64 bits. *)
Definition ulong_wrap (v : Z) : Z := (v mod 2 ^ 64)%Z.

(** *** binary64 *)

(** Conversion of an integer to [double], correctly rounded (to nearest,
    ties to even).  Below [2^63] it is the primitive conversion. *)
Definition Z2double (v : Z) : float :=
  if ((0 <=? v) && (v <? 2 ^ 63))%Z then PrimFloat.of_uint63 (Uint63.of_Z v)
  else if ((v <? 0) && (- 2 ^ 63 <? v))%Z
       then PrimFloat.opp (PrimFloat.of_uint63 (Uint63.of_Z (- v)))
       else SF2Prim (binary_normalize prec emax v 0 false).

#[export] Instance float_RealType : RealType float := {
  r_zero := 0%float;
  r_mone := (-1)%float;
  r_add  := PrimFloat.add;
  r_sub  := PrimFloat.sub;
  r_mul  := PrimFloat.mul;
  r_div  := PrimFloat.div;
  r_sqrt := PrimFloat.sqrt;
  r_ltb  := PrimFloat.ltb;
  r_of_Z := Z2double
}.

(** *** Exact real arithmetic *)

Definition Rltb (a b : R) : bool := if Rlt_dec a b then true else false.

#[export] Instance R_RealType : RealType R := {
  r_zero := 0%R;
  r_mone := (-1)%R;
  r_add  := Rplus;
  r_sub  := Rminus;
  r_mul  := Rmult;
  r_div  := Rdiv;
  r_sqrt := R_sqrt.sqrt;
  r_ltb  := Rltb;
  r_of_Z := IZR
}.

(** ** Frames *)

Section Frames.

Context {REAL : Type} {RT : RealType REAL}.

(** The payload of one [FRAME] node. *)
Record coord : Type := mkCoord { x : REAL; y : REAL; z : REAL }.

(** A [FRAME *]: the list of nodes reached through [next]; [NULL] is
    [nil]. *)
Definition FRAME : Type := list coord.

(** The summand of [RMSFrame]'s loop body, in C's evaluation order. *)
Definition sqdev (p q : coord) : REAL :=
  ((x p - x q) * (x p - x q) +
   (y p - y q) * (y p - y q) +
   (z p - z q) * (z p - z q))%REAL.

(** The [while((p!=NULL) && (q!=NULL))] loop of [RMSFrame] and the code
    after it, on the loop variables [p], [q], [rmsd], [nCoor]. *)
Fixpoint RMSFrame_loop (p q : FRAME) (rmsd : REAL) (nCoor : Z) : REAL :=
  match p, q with
  | a :: p', b :: q' =>
      RMSFrame_loop p' q' (rmsd + sqdev a b)%REAL (int_wrap (nCoor + 1))
  | [], [] => r_sqrt (rmsd / r_of_Z nCoor)%REAL
  | _, _ => r_mone
  end.

Definition RMSFrame (frame1 frame2 : FRAME) : REAL :=
  RMSFrame_loop frame1 frame2 r_zero 0%Z.

(** [CopyFrame]: a fresh list with the same coordinates. *)
Fixpoint CopyFrame (frame : FRAME) : FRAME :=
  match frame with
  | [] => []
  | f :: frame' => mkCoord (x f) (y f) (z f) :: CopyFrame frame'
  end.

(** [AddFrame] updates [meanFrame] in place; the embedding returns the
    updated list with the [BOOL] result. *)
Fixpoint AddFrame (meanFrame frame : FRAME) (frameCount : Z)
  : FRAME * bool :=
  match meanFrame, frame with
  | f :: meanFrame', g :: frame' =>
      let f' := mkCoord (x f + x g / r_of_Z frameCount)%REAL
                        (y f + y g / r_of_Z frameCount)%REAL
                        (z f + z g / r_of_Z frameCount)%REAL in
      let '(rest, ok) := AddFrame meanFrame' frame' frameCount in
      (f' :: rest, ok)
  | [], [] => ([], true)
  | _, _ => (meanFrame, false)
  end.

End Frames.

Arguments coord REAL : clear implicits.
Arguments FRAME REAL : clear implicits.


(** ** Text records *)

Local Open Scope string_scope.

Definition MAXBUFF : nat := 512.
Definition PROGNAME : string := "flexcalc".
Definition MSG_ATOMMISMATCH : string :=
  "Number of coordinates in frame doesn't match first frame." ++
  String "010"%char "  Frame Header: ".
Definition MSG_NOMEM : string := "No memory".

Definition newline : ascii := "010"%char.

(** The records that successive calls [fgets(buffer, MAXBUFF-1, fp)]
    deliver over a whole file: each call stores at most [MAXBUFF-2]
    characters and stops after a newline.  [room] is the number of
    characters the current call may still store, [cur] what it has
    stored. *)
Fixpoint fgets_records_aux (room : nat) (cur : string) (s : string)
  : list string :=
  match s with
  | EmptyString => match cur with EmptyString => [] | _ => [cur] end
  | String c s' =>
      let cur' := cur ++ String c EmptyString in
      if Ascii.eqb c newline
      then cur' :: fgets_records_aux (MAXBUFF - 2) EmptyString s'
      else match room with
           | S (S r) => fgets_records_aux (S r) cur' s'
           | _ => cur' :: fgets_records_aux (MAXBUFF - 2) EmptyString s'
           end
  end.

Definition fgets_records (text : string) : list string :=
  fgets_records_aux (MAXBUFF - 2) EmptyString text.

(** bioplib's macro [TERMINATE] ([macros.h], not among the sources):
    the first newline becomes the end of the string. *)
Fixpoint TERMINATE (s : string) : string :=
  match s with
  | EmptyString => EmptyString
  | String c s' =>
      if Ascii.eqb c newline then EmptyString else String c (TERMINATE s')
  end.

(** The test [buffer[0] == '>']. *)
Definition is_header (buffer : string) : bool :=
  match buffer with
  | String c _ => Ascii.eqb c ">"%char
  | EmptyString => false
  end.

(** ** Program state *)

(** An open [FILE *]: all its records and those not read yet. *)
Record FILE : Type := mkFILE {
  f_records : list string;
  f_unread  : list string
}.

Definition rewind (fp : FILE) : FILE :=
  mkFILE (f_records fp) (f_records fp).

(** A [char] array used for a frame header: [None] while nothing has
    been written to it. *)
Definition hdr : Type := option string.

(** One call of [Msg(msg, submsg)]. *)
Record message : Type := mkMsg { m_msg : string; m_submsg : hdr }.

(** The line [Msg] writes to [stderr]; undetermined when [submsg] was
    never written. *)
Definition message_text (m : message) : option string :=
  match m_submsg m with
  | Some sub =>
      Some (PROGNAME ++ " error: " ++ m_msg m ++ sub ++ String newline EmptyString)
  | None => None
  end.

(** The stream being read, the [static] variables of [ReadFrame], and
    what has been written to [stderr] so far. *)
Record world : Type := mkWorld {
  w_in         : FILE;
  w_buffer     : string;
  w_firstEntry : bool;
  w_stderr     : list message
}.

Definition w_rewind (w : world) : world :=
  mkWorld (rewind (w_in w)) (w_buffer w) (w_firstEntry w) (w_stderr w).

Definition Msg (w : world) (msg : string) (submsg : hdr) : world :=
  mkWorld (w_in w) (w_buffer w) (w_firstEntry w)
          (w_stderr w ++ [mkMsg msg submsg])%list.

(** [CountFrames]: the loop on the records still unread, then the
    function. *)
Fixpoint CountFrames_loop (unread : list string) (frameCount : Z) : Z :=
  match unread with
  | [] => frameCount
  | buffer :: unread' =>
      CountFrames_loop unread'
        (if is_header buffer then ulong_wrap (frameCount + 1) else frameCount)
  end.

Definition CountFrames (w : world) : Z * world :=
  (CountFrames_loop (f_unread (w_in w)) 0, w_rewind w).

Section Pipeline.

Context {REAL : Type} {RT : RealType REAL}.

(** What [sscanf(buffer, "%lf %lf %lf", &x, &y, &z)] leaves in a freshly
    allocated node.  The conversion is the C library's.  The code does
    not look at what [sscanf] returns: where the conversion stops early
    the fields keep what the allocation held, which can differ from one
    pass to the next.  A function of the buffer stands for the code on
    buffers where all three fields are converted; the statements about
    files ask for such lines ([three_decimals] below). *)
Variable sscanf3 : string -> coord REAL.

(** [ReadFrame(NULL, NULL)]. *)
Definition ReadFrame_NULL (w : world) : world :=
  mkWorld (w_in w) (w_buffer w) true (w_stderr w).

(** The [while(fgets(...))] loop of [ReadFrame] on the records still
    unread; [frame] grows at its tail.  At end of file [fgets] leaves
    [buffer] as it is. *)
Fixpoint ReadFrame_loop (unread : list string) (buffer : string)
    (firstEntry : bool) (frame : FRAME REAL)
  : list string * string * bool * FRAME REAL :=
  match unread with
  | [] => ([], buffer, firstEntry, frame)
  | record :: unread' =>
      let buffer := TERMINATE record in
      if is_header buffer then
        if negb firstEntry then (unread', buffer, firstEntry, frame)
        else ReadFrame_loop unread' buffer false frame
      else ReadFrame_loop unread' buffer firstEntry (frame ++ [sscanf3 buffer])%list
  end.

(** [ReadFrame(in, header)] with [in != NULL]: the frame, the header
    array afterwards, and the state.  A record has fewer than
    [MAXBUFF-1] characters, so [strncpy] copies all of [buffer]. *)
Definition ReadFrame (w : world) (header : hdr)
  : FRAME REAL * hdr * world :=
  let buffer0 := if w_firstEntry w then EmptyString else w_buffer w in
  let header' := if w_firstEntry w then header else Some (w_buffer w) in
  let '(unread', buffer', firstEntry', frame) :=
    ReadFrame_loop (f_unread (w_in w)) buffer0 (w_firstEntry w) [] in
  (frame, header',
   mkWorld (mkFILE (f_records (w_in w)) unread') buffer' firstEntry'
           (w_stderr w)).

(** The reading loop of [CalculateMeanCoords] with the code after it.
    [None]: [fuel] was too small. *)
Fixpoint MeanCoords_loop (fuel : nat) (w : world) (header : hdr)
    (meanFrame : FRAME REAL) (frameCount : Z) : option (FRAME REAL * world) :=
  match fuel with
  | O => None
  | S fuel' =>
      let '(frame, header, w) := ReadFrame w header in
      match frame with
      | [] => Some (meanFrame, w_rewind w)
      | _ :: _ =>
          let '(meanFrame, ok) := AddFrame meanFrame frame frameCount in
          if ok then MeanCoords_loop fuel' w header meanFrame frameCount
          else Some ([], w_rewind (Msg w MSG_ATOMMISMATCH header))
      end
  end.

Definition zero_coord : coord REAL := mkCoord r_zero r_zero r_zero.

(** Every pass reads at most one frame per record, and once more to see
    the end. *)
Definition pass_fuel (w : world) : nat := S (List.length (f_records (w_in w))).

Definition CalculateMeanCoords (w : world) (frameCount : Z)
  : option (FRAME REAL * world) :=
  let w := ReadFrame_NULL w in
  let '(meanFrame, header, w) := ReadFrame w None in
  let meanFrame := map (fun _ => zero_coord) meanFrame in
  let w := w_rewind w in
  let w := ReadFrame_NULL w in
  MeanCoords_loop (pass_fuel w) w header meanFrame frameCount.

(** The reading loop of [FindClosestToMean] with the [rewind] and
    [return] after it.  [header] is the caller's array, [thisHeader] the
    local one.  [lowestRMSD] is not initialised in the code and is not
    read while [firstFrame] holds. *)
Fixpoint ClosestToMean_loop (fuel : nat) (w : world) (thisHeader header : hdr)
    (meanFrame closestFrame : FRAME REAL) (firstFrame : bool)
    (lowestRMSD : REAL) : option (FRAME REAL * world) :=
  match fuel with
  | O => None
  | S fuel' =>
      let '(frame, thisHeader, w) := ReadFrame w thisHeader in
      match frame with
      | [] => Some (closestFrame, w_rewind w)
      | _ :: _ =>
          let rmsd := RMSFrame meanFrame frame in
          if (rmsd <? r_zero)%REAL
          then Some ([], Msg w MSG_ATOMMISMATCH header)
          else if firstFrame then
            match CopyFrame frame with
            | [] => Some ([], Msg w MSG_NOMEM header)
            | closestFrame =>
                ClosestToMean_loop fuel' w thisHeader header meanFrame
                  closestFrame false rmsd
            end
          else if (rmsd <? lowestRMSD)%REAL then
            match CopyFrame frame with
            | [] => Some ([], w)
            | closestFrame =>
                ClosestToMean_loop fuel' w thisHeader header meanFrame
                  closestFrame false rmsd
            end
          else
            ClosestToMean_loop fuel' w thisHeader header meanFrame
              closestFrame false lowestRMSD
      end
  end.

Definition FindClosestToMean (w : world) (meanFrame : FRAME REAL)
    (header : hdr) : option (FRAME REAL * world) :=
  let w := ReadFrame_NULL w in
  ClosestToMean_loop (pass_fuel w) w None header meanFrame [] true r_zero.

(** The reading loop of [CalculateMeanRMSD] with the code after it. *)
Fixpoint MeanRMSD_loop (fuel : nat) (w : world) (header : hdr)
    (closestFrame : FRAME REAL) (frameCount : Z) (meanRMSD : REAL)
  : option (REAL * world) :=
  match fuel with
  | O => None
  | S fuel' =>
      let '(frame, header, w) := ReadFrame w header in
      match frame with
      | [] => Some ((meanRMSD / r_of_Z frameCount)%REAL, w_rewind w)
      | _ :: _ =>
          let rmsd := RMSFrame closestFrame frame in
          if (rmsd <? r_zero)%REAL
          then Some (r_mone, Msg w MSG_ATOMMISMATCH header)
          else MeanRMSD_loop fuel' w header closestFrame frameCount
                 (meanRMSD + rmsd)%REAL
      end
  end.

Definition CalculateMeanRMSD (w : world) (closestFrame : FRAME REAL)
    (frameCount : Z) : option (REAL * world) :=
  let w := ReadFrame_NULL w in
  MeanRMSD_loop (pass_fuel w) w None closestFrame frameCount r_zero.

(** *** The program *)

(** What the program writes to [stdout]: the usage text, or one value
    through [printf("%.4f\n", ...)]. *)
Inductive out_item : Type :=
| Out_usage
| Out_score (meanRMSD : REAL).

(** How a run ends: the exit status and both output streams. *)
Record outcome : Type := mkOutcome {
  exit_status : Z;
  out_stdout  : list out_item;
  out_stderr  : list message
}.

(** [Die(msg, submsg)]: [Msg], then [exit(1)]. *)
Definition Die (w : world) (msg : string) (submsg : hdr) : outcome :=
  mkOutcome 1 [] (w_stderr (Msg w msg submsg)).

(** [ParseCmdLine]: the [BOOL] result and [inFile] afterwards.  The
    code copies the argument with [strcpy] into the 1024 characters of
    [inFile]: the embedding stands for arguments of fewer than 1024
    characters ([MAXFNM] below). *)
Definition ParseCmdLine (argv : list string) (inFile : string)
  : bool * string :=
  match argv with
  | _ :: arg :: _ => (true, arg)
  | _ => (true, inFile)
  end.

(** [fopen(inFile, "r")] over a file system that maps a name to the
    text of the file; the empty name opens nothing. *)
Definition fopen (fs : string -> option string) (inFile : string)
  : option FILE :=
  match inFile with
  | EmptyString => None
  | _ =>
      match fs inFile with
      | Some text => Some (mkFILE (fgets_records text) (fgets_records text))
      | None => None
      end
  end.

(** The state at program start: [firstEntry] is [TRUE], the [static]
    buffer is zeroed, nothing has been written. *)
Definition initial_world (fp : FILE) : world :=
  mkWorld fp EmptyString true [].

(** The body of [main] once the file is open. *)
Definition main_opened (fp : FILE) : option outcome :=
  let w := initial_world fp in
  let header : hdr := None in
  let '(frameCount, w) := CountFrames w in
  if (frameCount <? 1)%Z then Some (Die w "No frames in trajectory" (Some EmptyString))
  else
    match CalculateMeanCoords w frameCount with
    | None => None
    | Some ([], w) =>
        Some (Die w "Unable to calculate mean coordinates" (Some EmptyString))
    | Some (meanFrame, w) =>
        match FindClosestToMean w meanFrame header with
        | None => None
        | Some ([], w) => Some (Die w "Couldn't find closest frame" header)
        | Some (closestFrame, w) =>
            match CalculateMeanRMSD w closestFrame frameCount with
            | None => None
            | Some (meanRMSD, w) =>
                if (meanRMSD <? r_zero)%REAL
                then Some (Die w "Unable to calculate mean RMSD" (Some EmptyString))
                else Some (mkOutcome 0 [Out_score meanRMSD] (w_stderr w))
            end
        end
    end.

Definition main (fs : string -> option string) (argv : list string)
  : option outcome :=
  let '(ok, inFile) := ParseCmdLine argv EmptyString in
  if ok then
    match fopen fs inFile with
    | Some fp => main_opened fp
    | None => Some (mkOutcome 0 [] [])
    end
  else Some (mkOutcome 0 [Out_usage] []).

End Pipeline.

Arguments out_item REAL : clear implicits.
Arguments outcome REAL : clear implicits.
Arguments Out_usage {REAL}.
Arguments mkOutcome {REAL} _ _ _.

(** ** The C library at binary64 *)

(** *** [printf("%.4f\n", v)] *)

Definition digits_of_N (n : N) : string :=
  DecimalString.NilZero.string_of_uint (N.to_uint n).

(** [k] decimal digits of [n], zero padded on the left. *)
Fixpoint pad_digits (k : nat) (n : N) : string :=
  match k with
  | O => EmptyString
  | S k' =>
      pad_digits k' (n / 10)
      ++ String (ascii_of_N (48 + n mod 10)) EmptyString
  end.

(** The integer nearest to [m * 2^e * 10^4], ties to even. *)
Definition scaled_4 (m : positive) (e : Z) : N :=
  match e with
  | Zneg p =>
      let num := (Npos m * 10000)%N in
      let den := (2 ^ Npos p)%N in
      let q := (num / den)%N in
      let r := (num mod den)%N in
      match (2 * r ?= den)%N with
      | Lt => q
      | Gt => (q + 1)%N
      | Eq => if N.even q then q else (q + 1)%N
      end
  | _ => (Npos m * 2 ^ Z.to_N e * 10000)%N
  end.

(** The characters [printf] writes for the conversion [%.4f] followed by
    a newline.  The sign of a NaN is not represented. *)
Definition printf_4f (v : float) : string :=
  let sign (s : bool) := if s then "-" else EmptyString in
  (match Prim2SF v with
   | S754_nan => "nan"
   | S754_infinity s => sign s ++ "inf"
   | S754_zero s => sign s ++ "0.0000"
   | S754_finite s m e =>
       let q := scaled_4 m e in
       sign s ++ digits_of_N (q / 10000) ++ "." ++ pad_digits 4 (q mod 10000)
   end) ++ String newline EmptyString.

(** *** [sscanf(buffer, "%lf %lf %lf", ...)] on decimal numerals *)

Definition is_space (c : ascii) : bool :=
  let n := nat_of_ascii c in
  Nat.eqb n 32 || (Nat.leb 9 n && Nat.leb n 13).

Definition digit_value (c : ascii) : option Z :=
  let n := nat_of_ascii c in
  if Nat.leb 48 n && Nat.leb n 57 then Some (Z.of_nat (n - 48)) else None.

Fixpoint skip_space (s : string) : string :=
  match s with
  | String c s' => if is_space c then skip_space s' else s
  | EmptyString => s
  end.

(** Reads digits: the number read so far, how many digits, the rest. *)
Fixpoint scan_digits (s : string) (acc : Z) (count : nat)
  : Z * nat * string :=
  match s with
  | String c s' =>
      match digit_value c with
      | Some d => scan_digits s' (10 * acc + d)%Z (S count)
      | None => (acc, count, s)
      end
  | EmptyString => (acc, count, s)
  end.

(** The binary64 number nearest to [(-1)^neg * m / 10^k]. *)
Definition decimal_to_double (neg : bool) (m : Z) (k : nat) : float :=
  match m with
  | Zpos _ =>
      let '(q, e, l) :=
        SFdiv_core_binary prec emax m 0 (10 ^ Z.of_nat k) 0 in
      SF2Prim (binary_round_aux prec emax neg q e l)
  | _ => if neg then (-0)%float else 0%float
  end.

(** One [%lf] conversion on a numeral of the form
    [[+-]digits[.digits]]; [None] when no number starts here. *)
Definition scan_lf (s : string) : option (float * string) :=
  let s := skip_space s in
  let '(neg, s) :=
    match s with
    | String "-"%char s' => (true, s')
    | String "+"%char s' => (false, s')
    | _ => (false, s)
    end in
  let '(ip, ni, s1) := scan_digits s 0 0 in
  match s1 with
  | String "."%char s2 =>
      let '(m, nf, s3) := scan_digits s2 ip 0 in
      if Nat.eqb (ni + nf) 0 then None
      else Some (decimal_to_double neg m nf, s3)
  | _ =>
      if Nat.eqb ni 0 then None else Some (decimal_to_double neg ip 0, s1)
  end.

(** The three conversions in turn.  A field that is not converted
    keeps in the code what the allocation left there; here it is zero.
    Exponents, hexadecimal numerals, [inf] and [nan], which the C
    library reads too, are not read here: the scanner stands for
    [sscanf] on lines of three plain decimal numerals
    ([three_decimals] below). *)
Definition sscanf3_decimal (buffer : string) : coord float :=
  match scan_lf buffer with
  | None => mkCoord 0%float 0%float 0%float
  | Some (vx, s1) =>
      match scan_lf s1 with
      | None => mkCoord vx 0%float 0%float
      | Some (vy, s2) =>
          match scan_lf s2 with
          | None => mkCoord vx vy 0%float
          | Some (vz, _) => mkCoord vx vy vz
          end
      end
  end.

(** ** Trajectory files *)

(** The text of a file whose lines are [ls], each ended by a newline. *)
Fixpoint text_of_lines (ls : list string) : string :=
  match ls with
  | [] => EmptyString
  | l :: ls' => l ++ String newline (text_of_lines ls')
  end.

(** A file system that holds one file. *)
Definition one_file (name text : string) : string -> option string :=
  fun n => if String.eqb n name then Some text else None.

(** The two-frame scenario. *)
Definition scenario_text : string :=
  text_of_lines [">f1"; "0 0 0"; "2 0 0"; ">f2"; "0 0 0"; "0 0 0"].

Definition scenario_world : world :=
  initial_world (mkFILE (fgets_records scenario_text)
                        (fgets_records scenario_text)).

Definition c3 (a b c : float) : coord float := mkCoord a b c.


(** ** What the passes compute, as functions on lists *)

Section Specification.

Context {REAL : Type} {RT : RealType REAL}.
Variable sscanf3 : string -> coord REAL.

(** The frames, with the header array as it stands after each call,
    that repeated calls of [ReadFrame] return until the first [NULL]. *)
Fixpoint frames_loop (fuel : nat) (w : world) (header : hdr)
  : list (hdr * FRAME REAL) :=
  match fuel with
  | O => []
  | S fuel' =>
      let '(frame, header, w) := ReadFrame sscanf3 w header in
      match frame with
      | [] => []
      | _ :: _ => (header, frame) :: frames_loop fuel' w header
      end
  end.

(** The frames one pass sees in a file with the records [recs]: the
    reader is reset, the header array not yet written. *)
Definition read_frames (recs : list string) : list (hdr * FRAME REAL) :=
  frames_loop (S (List.length recs))
    (mkWorld (mkFILE recs recs) EmptyString true []) None.

(** The same frames by one scan of the records.  [header] is what the
    header array will hold when the frame in progress is returned,
    [cur] the coordinates gathered for it. *)
Fixpoint scan_frames (recs : list string) (firstEntry : bool) (header : hdr)
    (cur : FRAME REAL) : list (hdr * FRAME REAL) :=
  match recs with
  | [] => match cur with [] => [] | _ :: _ => [(header, cur)] end
  | record :: recs' =>
      let buffer := TERMINATE record in
      if is_header buffer then
        if negb firstEntry then
          match cur with
          | [] => []
          | _ :: _ => (header, cur) :: scan_frames recs' false (Some buffer) []
          end
        else scan_frames recs' false header cur
      else scan_frames recs' firstEntry header (cur ++ [sscanf3 buffer])%list
  end.

(** The number of records that begin with the header marker. *)
Definition count_headers (recs : list string) : nat :=
  List.length (filter is_header recs).

(** The mean pass over the frames read: the mean frame ([nil] after a
    mismatch) and the messages written. *)
Fixpoint mean_fold (frames : list (hdr * FRAME REAL)) (meanFrame : FRAME REAL)
    (frameCount : Z) : FRAME REAL * list message :=
  match frames with
  | [] => (meanFrame, [])
  | (header, frame) :: frames' =>
      let '(meanFrame, ok) := AddFrame meanFrame frame frameCount in
      if ok then mean_fold frames' meanFrame frameCount
      else ([], [mkMsg MSG_ATOMMISMATCH header])
  end.

(** The selection pass over the frames read. *)
Fixpoint closest_fold (frames : list (hdr * FRAME REAL)) (header : hdr)
    (meanFrame closestFrame : FRAME REAL) (firstFrame : bool)
    (lowestRMSD : REAL) : FRAME REAL * list message :=
  match frames with
  | [] => (closestFrame, [])
  | (_, frame) :: frames' =>
      let rmsd := RMSFrame meanFrame frame in
      if (rmsd <? r_zero)%REAL then ([], [mkMsg MSG_ATOMMISMATCH header])
      else if firstFrame then
        match CopyFrame frame with
        | [] => ([], [mkMsg MSG_NOMEM header])
        | closestFrame =>
            closest_fold frames' header meanFrame closestFrame false rmsd
        end
      else if (rmsd <? lowestRMSD)%REAL then
        match CopyFrame frame with
        | [] => ([], [])
        | closestFrame =>
            closest_fold frames' header meanFrame closestFrame false rmsd
        end
      else closest_fold frames' header meanFrame closestFrame false lowestRMSD
  end.

(** The RMSD pass over the frames read. *)
Fixpoint rmsd_fold (frames : list (hdr * FRAME REAL))
    (closestFrame : FRAME REAL) (frameCount : Z) (meanRMSD : REAL)
  : REAL * list message :=
  match frames with
  | [] => ((meanRMSD / r_of_Z frameCount)%REAL, [])
  | (header, frame) :: frames' =>
      let rmsd := RMSFrame closestFrame frame in
      if (rmsd <? r_zero)%REAL then (r_mone, [mkMsg MSG_ATOMMISMATCH header])
      else rmsd_fold frames' closestFrame frameCount (meanRMSD + rmsd)%REAL
  end.

(** The seed of the mean frame: the first frame read, zeroed. *)
Definition mean_seed (frames : list (hdr * FRAME REAL)) : FRAME REAL :=
  match frames with
  | [] => []
  | (_, frame) :: _ => map (fun _ => zero_coord) frame
  end.

(** The whole run, given the frame count and the frames the passes
    read. *)
Definition pipeline_on (frameCount : Z) (frames : list (hdr * FRAME REAL))
  : outcome REAL :=
  let die msgs msg submsg := mkOutcome 1 [] (msgs ++ [mkMsg msg submsg])%list in
  if (frameCount <? 1)%Z then die [] "No frames in trajectory" (Some EmptyString)
  else
    let '(meanFrame, msgs1) := mean_fold frames (mean_seed frames) frameCount in
    match meanFrame with
    | [] => die msgs1 "Unable to calculate mean coordinates" (Some EmptyString)
    | _ :: _ =>
        let '(closestFrame, msgs2) :=
          closest_fold frames None meanFrame [] true r_zero in
        match closestFrame with
        | [] => die (msgs1 ++ msgs2)%list "Couldn't find closest frame" None
        | _ :: _ =>
            let '(meanRMSD, msgs3) :=
              rmsd_fold frames closestFrame frameCount r_zero in
            if (meanRMSD <? r_zero)%REAL
            then die (msgs1 ++ msgs2 ++ msgs3)%list
                     "Unable to calculate mean RMSD" (Some EmptyString)
            else mkOutcome 0 [Out_score meanRMSD] (msgs1 ++ msgs2 ++ msgs3)%list
        end
    end.

(** The whole run on an open file with the records [recs]. *)
Definition pipeline (recs : list string) : outcome REAL :=
  pipeline_on (CountFrames_loop recs 0) (read_frames recs).

End Specification.

(** ** Trajectories *)

(** A trajectory file frame by frame: each frame is its header record
    and its coordinate records. *)
Definition trajectory : Type := list (string * list string).

(** The records of the file, in order. *)
Definition render (tr : trajectory) : list string :=
  flat_map (fun f => fst f :: snd f) tr.

(** A frame as the format has it: the header record begins with the
    marker, at least one coordinate record follows, and no coordinate
    record begins with the marker. *)
Definition frame_ok (f : string * list string) : bool :=
  is_header (fst f)
  && negb (Nat.eqb (List.length (snd f)) 0)
  && forallb (fun c => negb (is_header c)) (snd f).

Definition traj_ok (tr : trajectory) : bool := forallb frame_ok tr.

(** Every frame has [n] coordinate records. *)
Definition uniform (n : nat) (tr : trajectory) : bool :=
  forallb (fun f => Nat.eqb (List.length (snd f)) n) tr.

Section TrajectoryFrames.

Context {REAL : Type} {RT : RealType REAL}.
Variable sscanf3 : string -> coord REAL.

(** The coordinates [ReadFrame] stores for the records of one frame. *)
Definition parse_coords (cs : list string) : FRAME REAL :=
  map (fun c => sscanf3 (TERMINATE c)) cs.

(** The frames of a trajectory. *)
Definition frames_of (tr : trajectory) : list (FRAME REAL) :=
  map (fun f => parse_coords (snd f)) tr.

(** The header array as each frame is returned: untouched for the
    first frame, the frame's own header afterwards. *)
Definition headers_seen (tr : trajectory) : list hdr :=
  match tr with
  | [] => []
  | _ :: tr' => None :: map (fun f => Some (TERMINATE (fst f))) tr'
  end.

(** *** The quantities the passes are said to compute *)

(** The running sum one coordinate of atom [i] goes through. *)
Definition running_from (frameCount : Z) (start : REAL) (vals : list REAL)
  : REAL :=
  fold_left (fun acc v => acc + v / r_of_Z frameCount)%REAL vals start.

(** The running mean of the code: each value divided by the count is
    added in turn, starting from zero. *)
Definition running_mean (frameCount : Z) (vals : list REAL) : REAL :=
  running_from frameCount r_zero vals.

(** The values one coordinate of atom [i] takes across the frames. *)
Definition column (sel : coord REAL -> REAL) (i : nat)
    (frames : list (FRAME REAL)) : list REAL :=
  map (fun f => sel (nth i f zero_coord)) frames.

(** The accumulation step of [RMSFrame]. *)
Definition sqdev_step (acc : REAL) (pq : coord REAL * coord REAL) : REAL :=
  (acc + sqdev (fst pq) (snd pq))%REAL.

(** The sum over the atoms of the squared distance between
    corresponding triples, accumulated from zero in list order. *)
Definition sum_sqdev (frame1 frame2 : FRAME REAL) : REAL :=
  fold_left sqdev_step (combine frame1 frame2) r_zero.

(** One node of the mean after a frame's node is added. *)
Definition add_coord (frameCount : Z) (f g : coord REAL) : coord REAL :=
  mkCoord (x f + x g / r_of_Z frameCount)%REAL
          (y f + y g / r_of_Z frameCount)%REAL
          (z f + z g / r_of_Z frameCount)%REAL.

(** The mean frame after the frames [frames] were added to [seed]. *)
Definition mean_of (frameCount : Z) (frames : list (FRAME REAL))
    (seed : FRAME REAL) : FRAME REAL :=
  fold_left (fun m f => fst (AddFrame m f frameCount)) frames seed.

(** The RMSD of two frames of the same length as the formula states
    it. *)
Definition rmsd_formula (frame1 frame2 : FRAME REAL) : REAL :=
  r_sqrt (sum_sqdev frame1 frame2 / r_of_Z (Z.of_nat (List.length frame1)))%REAL.

(** The sum of the RMSDs of the frames to a reference frame, from zero
    in list order. *)
Definition rmsd_sum (ref : FRAME REAL) (frames : list (FRAME REAL)) : REAL :=
  fold_left (fun acc f => acc + RMSFrame ref f)%REAL frames r_zero.

(** The frame kept by a scan that replaces its candidate only for a
    strictly smaller RMSD to [ref]; [best] is the candidate so far. *)
Fixpoint keep_closest (ref : FRAME REAL) (frames : list (FRAME REAL))
    (best : FRAME REAL) : FRAME REAL :=
  match frames with
  | [] => best
  | f :: frames' =>
      if (RMSFrame ref f <? RMSFrame ref best)%REAL
      then keep_closest ref frames' f
      else keep_closest ref frames' best
  end.

(** The mean frame, the frame kept as nearest to it, and the score of
    a trajectory of frames of one shape. *)
Definition trajectory_mean (tr : trajectory) : FRAME REAL :=
  let frames := frames_of tr in
  mean_of (Z.of_nat (List.length tr)) frames
          (map (fun _ => zero_coord) (hd [] frames)).

Definition trajectory_closest (tr : trajectory) : FRAME REAL :=
  let frames := frames_of tr in
  keep_closest (trajectory_mean tr) (tl frames) (hd [] frames).

Definition trajectory_score (tr : trajectory) : REAL :=
  (rmsd_sum (trajectory_closest tr) (frames_of tr)
   / r_of_Z (Z.of_nat (List.length tr)))%REAL.

End TrajectoryFrames.

(** ** Laws of the comparison *)

(** The facts about [REAL] the error signalling of the code rests on:
    [-1.0] is below zero, a square root never is, and neither is a sum
    of such values divided by a count. *)
Class RealLaws {REAL : Type} (RT : RealType REAL) : Prop := {
  r_mone_negative : (r_mone <? r_zero)%REAL = true;
  r_sqrt_not_negative : forall v : REAL, (r_sqrt v <? r_zero)%REAL = false;
  r_zero_not_negative : (r_zero <? r_zero)%REAL = false;
  r_add_not_negative : forall a b : REAL,
    (a <? r_zero)%REAL = false -> (b <? r_zero)%REAL = false ->
    (a + b <? r_zero)%REAL = false;
  r_div_not_negative : forall (a : REAL) (n : Z),
    (a <? r_zero)%REAL = false -> (0 <= n < 2 ^ 63)%Z ->
    (a / r_of_Z n <? r_zero)%REAL = false
}.

(** [r_ltb] orders the values [vals] as a strict weak order: it is
    irreflexive and transitive, and incomparability is transitive. *)
Definition orders {REAL : Type} {RT : RealType REAL} (vals : list REAL)
  : Prop :=
  (forall a, In a vals -> (a <? a)%REAL = false) /\
  (forall a b c, In a vals -> In b vals -> In c vals ->
     (a <? b)%REAL = true -> (b <? c)%REAL = true -> (a <? c)%REAL = true) /\
  (forall a b c, In a vals -> In b vals -> In c vals ->
     (a <? b)%REAL = false -> (b <? c)%REAL = false -> (a <? c)%REAL = false).

(** ** Auxiliary notions *)

(** The header array a frame in progress will be returned with. *)
Definition pending_header (w : world) (header : hdr) : hdr :=
  if w_firstEntry w then header else Some (w_buffer w).

(** How a pass leaves the state: same file, [msgs] added to [stderr]. *)
Definition pass_end (w w' : world) (msgs : list message) : Prop :=
  f_records (w_in w') = f_records (w_in w) /\
  w_stderr w' = (w_stderr w ++ msgs)%list.

(** The file is positioned at its start. *)
Definition rewound (w : world) : Prop :=
  f_unread (w_in w) = f_records (w_in w).

(** The first frame of a list of frames read. *)
Definition first_frame {REAL : Type} (frames : list (hdr * FRAME REAL))
  : FRAME REAL :=
  match frames with
  | [] => []
  | (_, frame) :: _ => frame
  end.

(** A binary64 value that does not compare below zero: a zero, a NaN,
    or a value with a clear sign. *)
Definition sf_not_negative (s : spec_float) : Prop :=
  match s with
  | S754_zero _ | S754_nan => True
  | S754_infinity s | S754_finite s _ _ => s = false
  end.

(** A binary64 value whose sign bit is clear, or a NaN. *)
Definition sf_sign_clear (s : spec_float) : Prop :=
  match s with
  | S754_zero s | S754_infinity s | S754_finite s _ _ => s = false
  | S754_nan => True
  end.

(** Neither a NaN nor an infinity. *)
Definition finite_double (v : float) : bool :=
  match Prim2SF v with
  | S754_zero _ | S754_finite _ _ _ => true
  | _ => false
  end.

(** No coordinate of the frame is a NaN or an infinity. *)
Definition finite_frame (frame : FRAME float) : bool :=
  forallb (fun c => finite_double (x c) && finite_double (y c)
                    && finite_double (z c)) frame.

Definition not_nan (v : float) : bool :=
  match Prim2SF v with
  | S754_nan => false
  | _ => true
  end.

(** A binary64 number that does not compare below zero: a zero, or a
    finite number or an infinity with a clear sign. *)
Definition sf_amount (s : spec_float) : Prop :=
  match s with
  | S754_zero _ => True
  | S754_infinity s | S754_finite s _ _ => s = false
  | S754_nan => False
  end.

Definition sf_finite (s : spec_float) : Prop :=
  match s with
  | S754_zero _ | S754_finite _ _ _ => True
  | _ => False
  end.

(** No coordinate of the frame is a NaN. *)
Definition number_frame (frame : FRAME float) : bool :=
  forallb (fun c => not_nan (x c) && not_nan (y c) && not_nan (z c)) frame.

(** A key that orders the values as [SFcompare] does: the class of the
    value first, then exponent and mantissa. *)
Definition sf_key (s : spec_float) : Z * Z * Z :=
  match s with
  | S754_infinity true => (-2, 0, 0)
  | S754_finite true m e => (-1, - e, - Z.pos m)
  | S754_zero _ => (0, 0, 0)
  | S754_nan => (0, 0, 0)
  | S754_finite false m e => (1, e, Z.pos m)
  | S754_infinity false => (2, 0, 0)
  end%Z.

Definition key_lt (a b : Z * Z * Z) : Prop :=
  (fst (fst a) < fst (fst b)
   \/ (fst (fst a) = fst (fst b)
       /\ (snd (fst a) < snd (fst b)
           \/ (snd (fst a) = snd (fst b) /\ snd a < snd b))))%Z.

(** The sum of a list of reals. *)
Definition Rsum (vals : list R) : R := fold_right Rplus 0%R vals.

(** Every frame of the trajectory is parsed to [frame]. *)
Definition all_frames_are {REAL : Type} (sscanf3 : string -> coord REAL)
    (frame : FRAME REAL) (tr : trajectory) : Prop :=
  Forall (fun f => parse_coords sscanf3 (snd f) = frame) tr.

(** At most one frame is nearest to [ref]: two frames that no frame is
    strictly closer than are the same frame. *)
Definition nearest_unique {REAL : Type} {RT : RealType REAL}
    (ref : FRAME REAL) (frames : list (FRAME REAL)) : Prop :=
  forall f g, In f frames -> In g frames ->
    (forall h, In h frames -> (RMSFrame ref h <? RMSFrame ref f)%REAL = false) ->
    (forall h, In h frames -> (RMSFrame ref h <? RMSFrame ref g)%REAL = false) ->
    f = g.

(** A line as [fgets] delivers it whole: no newline inside and, with
    the newline that ends it, at most [MAXBUFF-2] characters. *)
Fixpoint has_newline (s : string) : bool :=
  match s with
  | EmptyString => false
  | String c s' => Ascii.eqb c newline || has_newline s'
  end.

Definition line_ok (l : string) : bool :=
  negb (has_newline l) && Nat.ltb (String.length l) (MAXBUFF - 2).

(** A line with the newline that ends it. *)
Definition with_newline (l : string) : string :=
  (l ++ String newline EmptyString)%string.

(** The trajectory whose records are the lines of [tr], each with its
    newline. *)
Definition with_newlines (tr : trajectory) : trajectory :=
  map (fun f => (with_newline (fst f), map with_newline (snd f))) tr.

(** ** Example trajectories *)

Definition three_frames : trajectory :=
  [(">a", ["1 2 3"; "4 5 6"]); (">b", ["3 2 1"; "6 5 4"]);
   (">c", ["2 2 2"; "5 5 5"])].

(** Three frames of one atom; the first two are equally near to the
    mean frame used below. *)
Definition tie_frames : trajectory :=
  [(">a", ["1 0 0"]); (">b", ["-1 0 0"]); (">c", ["3 0 0"])].

(** Six frames with the one atom (0.1, 0, 0). *)
Definition six_frames : trajectory :=
  map (fun h => (h, ["0.1 0 0"])) [">1"; ">2"; ">3"; ">4"; ">5"; ">6"].

(** Four frames of one atom with mean frame (0,0,0); the first two are
    equally near to it. *)
Definition order_ab : trajectory :=
  [(">a", ["1 0 0"]); (">b", ["0 1 0"]); (">c", ["-3 0 0"]); (">d", ["2 -1 0"])].

Definition order_ba : trajectory :=
  [(">b", ["0 1 0"]); (">a", ["1 0 0"]); (">c", ["-3 0 0"]); (">d", ["2 -1 0"])].

(** Three frames of one atom on the x axis, read by a scanner over the
    reals. *)
Definition scan_axis (buffer : string) : coord R :=
  mkCoord (if String.eqb buffer "1" then 1
           else if String.eqb buffer "5" then 5 else 0)%R 0%R 0%R.

Definition axis_frames : trajectory :=
  [(">a", ["0"]); (">b", ["1"]); (">c", ["5"])].

Definition axis_frames_reordered : trajectory :=
  [(">c", ["5"]); (">a", ["0"]); (">b", ["1"])].
(** ** Further notions *)

(** The value with its sign cleared. *)
Definition sf_abs (s : spec_float) : spec_float :=
  match s with
  | S754_zero _ => S754_zero false
  | S754_infinity _ => S754_infinity false
  | S754_finite _ m e => S754_finite false m e
  | S754_nan => S754_nan
  end.

(** A binary64 number with a clear sign bit. *)
Definition sf_clear (s : spec_float) : Prop :=
  match s with
  | S754_zero s | S754_infinity s | S754_finite s _ _ => s = false
  | S754_nan => False
  end.

(** ** The debugging output *)

Section Debug.

Context {REAL : Type}.

(** The conversion [%.3f] of one value. *)
Variable printf_3f : REAL -> string.

(** The characters of [printf("%.3f %.3f %.3f\n", f->x, f->y, f->z)]
    before the newline. *)
Definition PrintFrame_coords (f : coord REAL) : string :=
  (printf_3f (x f) ++ " " ++ printf_3f (y f) ++ " " ++ printf_3f (z f))%string.

(** [PrintFrame]: what it writes to [stdout], line by line;
    undetermined when the header array was never written. *)
Definition PrintFrame (header : hdr) (frame : FRAME REAL) : option string :=
  match header with
  | Some h => Some (text_of_lines (h :: map PrintFrame_coords frame))
  | None => None
  end.

End Debug.

(** The integer nearest to [m * 2^e * 10^3], ties to even. *)
Definition scaled_3 (m : positive) (e : Z) : N :=
  match e with
  | Zneg p =>
      let num := (Npos m * 1000)%N in
      let den := (2 ^ Npos p)%N in
      let q := (num / den)%N in
      let r := (num mod den)%N in
      match (2 * r ?= den)%N with
      | Lt => q
      | Gt => (q + 1)%N
      | Eq => if N.even q then q else (q + 1)%N
      end
  | _ => (Npos m * 2 ^ Z.to_N e * 1000)%N
  end.

(** The characters [printf] writes for the conversion [%.3f] of a
    binary64 value.  The sign of a NaN is not represented. *)
Definition printf_3f_double (v : float) : string :=
  let sign (s : bool) := if s then "-" else EmptyString in
  (match Prim2SF v with
   | S754_nan => "nan"
   | S754_infinity s => sign s ++ "inf"
   | S754_zero s => sign s ++ "0.000"
   | S754_finite s m e =>
       let q := scaled_3 m e in
       sign s ++ digits_of_N (q / 1000) ++ "." ++ pad_digits 3 (q mod 1000)
   end)%string.

(** A scanner that reads the line [nan nan nan] as three NaNs, as the
    C library reads the word, and decimal numerals otherwise. *)
Definition sscanf3_nan (buffer : string) : coord float :=
  if String.eqb buffer "nan nan nan"
  then mkCoord nan nan nan
  else sscanf3_decimal buffer.

(** ** Lines, file names and unique minima *)

(** The size of [inFile] in [main]: [ParseCmdLine] copies its argument
    there with [strcpy], so the embedding stands for arguments of fewer
    than [MAXFNM] characters. *)
Definition MAXFNM : nat := 1024.

(** The lines of a text, without their newlines; a last line that no
    newline ends is a line too. *)
Fixpoint file_lines_aux (cur : string) (s : string) : list string :=
  match s with
  | EmptyString => match cur with EmptyString => [] | _ => [cur] end
  | String c s' =>
      if Ascii.eqb c newline
      then cur :: file_lines_aux EmptyString s'
      else file_lines_aux (cur ++ String c EmptyString) s'
  end.

Definition file_lines (text : string) : list string :=
  file_lines_aux EmptyString text.

(** A numeral ends at white space or at the end of the buffer. *)
Definition at_boundary (s : string) : bool :=
  match s with
  | EmptyString => true
  | String c _ => is_space c
  end.

(** The buffer holds three decimal numerals of the form
    [[+-]digits[.digits]], each ended by white space or by the end of
    the buffer: [sscanf] then converts and stores all three fields, and
    they are the values [sscanf3_decimal] gives. *)
Definition three_decimals (buffer : string) : bool :=
  match scan_lf buffer with
  | Some (_, s1) =>
      at_boundary s1 &&
      match scan_lf s1 with
      | Some (_, s2) =>
          at_boundary s2 &&
          match scan_lf s2 with
          | Some (_, s3) => at_boundary s3
          | None => false
          end
      | None => false
      end
  | None => false
  end.

(** Exactly one frame of the list has no frame strictly nearer to
    [ref] than itself. *)
Definition one_nearest {REAL : Type} {RT : RealType REAL}
    (ref : FRAME REAL) (frames : list (FRAME REAL)) : bool :=
  Nat.eqb
    (List.length
       (filter (fun f =>
                  forallb (fun h => negb (RMSFrame ref h <? RMSFrame ref f)%REAL)
                          frames)
               frames)) 1.


(** * The frame reader *)

Local Open Scope list_scope.

Section ReaderFacts.

Context {REAL : Type} {RT : RealType REAL}.
Variable sscanf3 : string -> coord REAL.

Lemma is_header_TERMINATE (s : string) :
  is_header (TERMINATE s) = is_header s.
Proof.
  destruct s as [|c s]; simpl; [reflexivity|].
  destruct (Ascii.eqb c newline) eqn:E; simpl; [|reflexivity].
  apply Ascii.eqb_eq in E. subst c. reflexivity.
Qed.

(** What one run of the reading loop leaves behind: it never gives
    records back, a frame that grew means a record was consumed, and
    [firstEntry] can only survive up to the end of the file. *)
Lemma ReadFrame_loop_facts (recs : list string) :
  forall buffer firstEntry frame,
    let '(unread', _, firstEntry', frame') :=
      ReadFrame_loop sscanf3 recs buffer firstEntry frame in
    List.length unread' <= List.length recs /\
    (frame = [] -> frame' <> [] -> List.length unread' < List.length recs) /\
    (firstEntry' = true -> unread' = []) /\
    (firstEntry = false -> firstEntry' = false).
Proof.
  induction recs as [|r recs IH]; intros buffer firstEntry frame; simpl.
  - split; [lia|]. split; [congruence|]. split; [reflexivity|congruence].
  - destruct (is_header (TERMINATE r)) eqn:Hh.
    + destruct firstEntry; simpl.
      * specialize (IH (TERMINATE r) false frame).
        destruct (ReadFrame_loop sscanf3 recs (TERMINATE r) false frame)
          as [[[u b] fe] fr].
        destruct IH as (H1 & H2 & H3 & H4).
        split; [lia|]. split; [intros Ha Hb; specialize (H2 Ha Hb); lia|].
        split; [exact H3|]. intros _. apply H4. reflexivity.
      * split; [lia|]. split; [congruence|]. split; [discriminate|reflexivity].
    + specialize (IH (TERMINATE r) firstEntry
                     (frame ++ [sscanf3 (TERMINATE r)])%list).
      destruct (ReadFrame_loop sscanf3 recs (TERMINATE r) firstEntry
                  (frame ++ [sscanf3 (TERMINATE r)])%list)
        as [[[u b] fe] fr].
      destruct IH as (H1 & H2 & H3 & H4).
      split; [lia|]. split; [intros; lia|]. split; assumption.
Qed.

(** One run of the reading loop is one step of the scan. *)
Lemma ReadFrame_loop_scan (recs : list string) :
  forall buffer firstEntry frame header,
    scan_frames sscanf3 recs firstEntry header frame =
    let '(unread', buffer', firstEntry', frame') :=
      ReadFrame_loop sscanf3 recs buffer firstEntry frame in
    match frame' with
    | [] => []
    | _ :: _ =>
        (header, frame') :: scan_frames sscanf3 unread' firstEntry' (Some buffer') []
    end.
Proof.
  induction recs as [|r recs IH]; intros buffer firstEntry frame header; simpl.
  - destruct frame; reflexivity.
  - destruct (is_header (TERMINATE r)) eqn:Hh.
    + destruct firstEntry; simpl.
      * apply IH.
      * destruct frame; reflexivity.
    + apply IH.
Qed.

(** [ReadFrame] keeps the file and the messages. *)
Lemma ReadFrame_keeps (w : world) (header : hdr) :
  let '(_, _, w') := ReadFrame sscanf3 w header in
  f_records (w_in w') = f_records (w_in w) /\ w_stderr w' = w_stderr w.
Proof.
  unfold ReadFrame.
  destruct (ReadFrame_loop sscanf3 (f_unread (w_in w))
              (if w_firstEntry w then EmptyString else w_buffer w)
              (w_firstEntry w) []) as [[[u b] fe] fr].
  simpl. auto.
Qed.

(** A frame that is returned has consumed a record. *)
Lemma ReadFrame_progress (w : world) (header : hdr) :
  let '(frame, _, w') := ReadFrame sscanf3 w header in
  frame <> [] ->
  List.length (f_unread (w_in w')) < List.length (f_unread (w_in w)).
Proof.
  unfold ReadFrame.
  pose proof (ReadFrame_loop_facts (f_unread (w_in w))
                (if w_firstEntry w then EmptyString else w_buffer w)
                (w_firstEntry w) []) as H.
  destruct (ReadFrame_loop sscanf3 (f_unread (w_in w))
              (if w_firstEntry w then EmptyString else w_buffer w)
              (w_firstEntry w) []) as [[[u b] fe] fr].
  simpl. destruct H as (_ & H2 & _). intros Hne. apply H2; auto.
Qed.

(** Repeated calls of [ReadFrame] deliver what the scan computes,
    provided the fuel exceeds the number of unread records. *)
Lemma frames_loop_scan (fuel : nat) :
  forall w header,
    List.length (f_unread (w_in w)) < fuel ->
    frames_loop sscanf3 fuel w header =
    scan_frames sscanf3 (f_unread (w_in w)) (w_firstEntry w)
                (pending_header w header) [].
Proof.
  induction fuel as [|fuel IH]; intros w header Hlen; [lia|].
  simpl. unfold ReadFrame, pending_header.
  rewrite (ReadFrame_loop_scan (f_unread (w_in w))
             (if w_firstEntry w then EmptyString else w_buffer w)).
  pose proof (ReadFrame_loop_facts (f_unread (w_in w))
                (if w_firstEntry w then EmptyString else w_buffer w)
                (w_firstEntry w) []) as H.
  destruct (ReadFrame_loop sscanf3 (f_unread (w_in w))
              (if w_firstEntry w then EmptyString else w_buffer w)
              (w_firstEntry w) []) as [[[u b] fe] fr].
  destruct H as (H1 & H2 & H3 & H4).
  destruct fr as [|c fr]; [reflexivity|].
  f_equal. rewrite IH.
  - simpl. unfold pending_header. simpl.
    destruct fe; [|reflexivity].
    rewrite (H3 eq_refl). reflexivity.
  - simpl. assert (List.length u < List.length (f_unread (w_in w))).
    { apply H2; [reflexivity|discriminate]. }
    lia.
Qed.

Lemma read_frames_scan (recs : list string) :
  read_frames sscanf3 recs = scan_frames sscanf3 recs true None [].
Proof.
  unfold read_frames. rewrite frames_loop_scan; simpl; [reflexivity|lia].
Qed.

(** The frames a pass sees from a rewound file after a reset. *)
Lemma frames_loop_rewound (w : world) (fuel : nat) :
  f_unread (w_in w) = f_records (w_in w) ->
  w_firstEntry w = true ->
  List.length (f_records (w_in w)) < fuel ->
  frames_loop sscanf3 fuel w None = read_frames sscanf3 (f_records (w_in w)).
Proof.
  intros Hu Hf Hlen. rewrite read_frames_scan, frames_loop_scan by (rewrite Hu; exact Hlen).
  unfold pending_header. rewrite Hu, Hf. reflexivity.
Qed.

End ReaderFacts.

(** * Lines and records *)

Lemma string_append_assoc (a b c : string) :
  ((a ++ b) ++ c)%string = (a ++ (b ++ c))%string.
Proof. induction a as [|ch a IH]; simpl; [reflexivity|]. rewrite IH. reflexivity. Qed.

(** One call of [fgets] takes a whole line when it fits. *)
Lemma fgets_records_aux_line (l : string) :
  forall (room : nat) (cur rest : string),
    has_newline l = false ->
    String.length l < room ->
    fgets_records_aux room cur (l ++ String newline rest)%string
      = (cur ++ with_newline l)%string
        :: fgets_records_aux (MAXBUFF - 2) EmptyString rest.
Proof.
  induction l as [|c l IH]; intros room cur rest Hnl Hlen.
  - cbn [append fgets_records_aux]. rewrite Ascii.eqb_refl. reflexivity.
  - cbn [has_newline] in Hnl. apply orb_false_elim in Hnl.
    destruct Hnl as [Hc Hl].
    cbn [append fgets_records_aux]. rewrite Hc.
    cbn [String.length] in Hlen.
    destruct room as [|[|room]]; try lia.
    rewrite IH by (auto; lia).
    rewrite string_append_assoc. reflexivity.
Qed.

(** For a text of lines that fit, the records are the lines. *)
Lemma fgets_records_lines (ls : list string) :
  forallb line_ok ls = true ->
  fgets_records (text_of_lines ls) = map with_newline ls.
Proof.
  unfold fgets_records.
  induction ls as [|l ls IH]; intros Hok; [reflexivity|].
  cbn [forallb] in Hok. apply andb_prop in Hok. destruct Hok as [Hl Hls].
  unfold line_ok in Hl. apply andb_prop in Hl. destruct Hl as [Hnl Hlen].
  apply negb_true_iff in Hnl. apply Nat.ltb_lt in Hlen.
  cbn [text_of_lines map].
  rewrite fgets_records_aux_line by assumption.
  rewrite IH by exact Hls. reflexivity.
Qed.

Lemma is_header_with_newline (l : string) :
  is_header (with_newline l) = is_header l.
Proof. destruct l; reflexivity. Qed.

(** * The comparison laws at both instances *)

(** Rounding keeps the sign it is given. *)
Lemma binary_round_aux_sign (s : bool) (m e : Z) (l : location) :
  match binary_round_aux prec emax s m e l with
  | S754_zero s' | S754_infinity s' | S754_finite s' _ _ => s' = s
  | S754_nan => True
  end.
Proof.
  unfold binary_round_aux.
  destruct (shr_fexp prec emax m e l) as [mrs' e'].
  destruct (shr_fexp prec emax _ e' loc_Exact) as [mrs'' e''].
  destruct (shr_m mrs''); [reflexivity| |exact I].
  destruct (Z.leb e'' (emax - prec)); reflexivity.
Qed.

Lemma Prim2SF_zero : Prim2SF 0%float = S754_zero false.
Proof. reflexivity. Qed.

Lemma float_sqrt_not_negative (v : float) :
  PrimFloat.ltb (PrimFloat.sqrt v) 0%float = false.
Proof.
  rewrite FloatAxioms.ltb_spec, FloatAxioms.sqrt_spec, Prim2SF_zero.
  unfold SF64sqrt, SFsqrt.
  destruct (Prim2SF v) as [s|s| |s m e];
    [destruct s; reflexivity|destruct s; reflexivity|reflexivity|].
  destruct s; [reflexivity|].
  destruct (SFsqrt_core_binary prec emax (Z.pos m) e) as [[mz ez] lz].
  pose proof (binary_round_aux_sign false mz ez lz) as H.
  destruct (binary_round_aux prec emax false mz ez lz); try subst s;
    reflexivity.
Qed.

Lemma ltb_zero_not_negative (v : float) :
  PrimFloat.ltb v 0%float = false <-> sf_not_negative (Prim2SF v).
Proof.
  rewrite FloatAxioms.ltb_spec, Prim2SF_zero.
  destruct (Prim2SF v) as [[|]|[|]| |[|] m e]; split; intros H;
    try reflexivity; try exact I; discriminate H.
Qed.

Lemma sf_sign_clear_not_negative (s : spec_float) :
  sf_sign_clear s -> sf_not_negative s.
Proof. destruct s; simpl; auto. Qed.

Lemma binary_round_aux_sign_clear (m e : Z) (l : location) :
  sf_sign_clear (binary_round_aux prec emax false m e l).
Proof.
  pose proof (binary_round_aux_sign false m e l) as H.
  destruct (binary_round_aux prec emax false m e l); simpl; auto.
Qed.

Lemma binary_normalize_sign_clear (m e : Z) :
  (0 <= m)%Z -> sf_sign_clear (binary_normalize prec emax m e false).
Proof.
  intros Hm. destruct m as [|p|p]; simpl; [reflexivity| |lia].
  unfold binary_round.
  destruct (shl_align p e (fexp prec emax (Z.pos (digits2_pos p) + e)))
    as [mz ez].
  apply binary_round_aux_sign_clear.
Qed.

Lemma SFadd_not_negative (a b : spec_float) :
  sf_not_negative a -> sf_not_negative b ->
  sf_not_negative (SFadd prec emax a b).
Proof.
  destruct a as [sa|sa| |sa ma ea]; destruct b as [sb|sb| |sb mb eb];
    simpl; intros Ha Hb; subst; try exact I; try reflexivity.
  - destruct sa, sb; exact I.
  - apply sf_sign_clear_not_negative, binary_normalize_sign_clear.
    simpl. lia.
Qed.

Lemma SFdiv_not_negative (a b : spec_float) :
  sf_not_negative a -> sf_sign_clear b ->
  sf_not_negative (SFdiv prec emax a b).
Proof.
  destruct a as [sa|sa| |sa ma ea]; destruct b as [sb|sb| |sb mb eb];
    simpl; intros Ha Hb; subst; try exact I; try reflexivity.
  destruct (SFdiv_core_binary prec emax (Z.pos ma) ea (Z.pos mb) eb)
    as [[mz ez] lz].
  apply sf_sign_clear_not_negative, binary_round_aux_sign_clear.
Qed.

(** The conversion of a count below [2^63]. *)
Lemma Prim2SF_Z2double (n : Z) :
  (0 <= n < 2 ^ 63)%Z ->
  Prim2SF (Z2double n) = binary_normalize prec emax n 0 false.
Proof.
  intros Hn. unfold Z2double.
  replace ((0 <=? n)%Z && (n <? 2 ^ 63)%Z) with true
    by (symmetry; apply andb_true_intro; split;
        [apply Z.leb_le|apply Z.ltb_lt]; lia).
  rewrite of_uint63_spec, Uint63.of_Z_spec.
  rewrite Z.mod_small; [reflexivity|].
  change wB with (2 ^ 63)%Z. lia.
Qed.

Lemma Z2double_sign_clear (n : Z) :
  (0 <= n < 2 ^ 63)%Z -> sf_sign_clear (Prim2SF (Z2double n)).
Proof.
  intros Hn. rewrite Prim2SF_Z2double by assumption.
  apply binary_normalize_sign_clear. lia.
Qed.

#[export] Instance float_RealLaws : RealLaws float_RealType.
Proof.
  split.
  - reflexivity.
  - exact float_sqrt_not_negative.
  - reflexivity.
  - intros a b Ha Hb. simpl in *.
    apply ltb_zero_not_negative in Ha, Hb. apply ltb_zero_not_negative.
    rewrite FloatAxioms.add_spec. apply SFadd_not_negative; assumption.
  - intros a n Ha Hn. simpl in *.
    apply ltb_zero_not_negative in Ha. apply ltb_zero_not_negative.
    rewrite FloatAxioms.div_spec. apply SFdiv_not_negative; [assumption|].
    apply Z2double_sign_clear. exact Hn.
Qed.

Lemma Rltb_false (a b : R) : Rltb a b = false <-> (b <= a)%R.
Proof.
  unfold Rltb. destruct (Rlt_dec a b); split; intros; try lra; congruence.
Qed.

#[export] Instance R_RealLaws : RealLaws R_RealType.
Proof.
  split; simpl.
  - unfold Rltb. destruct (Rlt_dec (-1) 0); [reflexivity|lra].
  - intros v. apply Rltb_false. apply sqrt_pos.
  - apply Rltb_false. lra.
  - intros a b Ha Hb. apply Rltb_false in Ha, Hb. apply Rltb_false. lra.
  - intros a n Ha Hn. apply Rltb_false in Ha. apply Rltb_false.
    unfold Rdiv. apply Rmult_le_pos; [exact Ha|].
    destruct (Z.eq_dec n 0) as [->|Hne].
    + rewrite Rinv_0. lra.
    + left. apply Rinv_0_lt_compat. apply IZR_lt. lia.
Qed.

(** * Exact results in binary64 *)

(** ** A rounded positive number is not zero *)

Lemma shr_1_m (mrs : shr_record) :
  (0 <= shr_m mrs)%Z -> shr_m (shr_1 mrs) = (shr_m mrs / 2)%Z.
Proof.
  destruct mrs as [m r s]. simpl. intros Hm.
  destruct m as [|p|p]; [reflexivity| |lia].
  rewrite <- Z.div2_div. destruct p; reflexivity.
Qed.

Lemma iter_shr_1_m (n : positive) :
  forall mrs : shr_record,
    (0 <= shr_m mrs)%Z ->
    shr_m (SpecFloat.iter_pos shr_1 n mrs) = (shr_m mrs / 2 ^ Z.pos n)%Z.
Proof.
  assert (Hpow : forall k : positive, (0 < 2 ^ Z.pos k)%Z)
    by (intros k; apply Z.pow_pos_nonneg; lia).
  induction n as [n IH|n IH|]; intros mrs Hm; cbn [SpecFloat.iter_pos].
  - rewrite IH, IH, shr_1_m by
      (try rewrite IH; try rewrite shr_1_m;
       try apply Z.div_pos; try apply Z.div_pos; try apply Hpow; lia).
    rewrite !Z.div_div by (try apply Hpow; lia).
    f_equal. change (Z.pos n~1) with (2 * Z.pos n + 1)%Z.
    replace (2 * Z.pos n + 1)%Z with (1 + Z.pos n + Z.pos n)%Z by lia.
    rewrite !Z.pow_add_r by lia. rewrite Z.pow_1_r. ring.
  - rewrite IH, IH by
      (try rewrite IH; try apply Z.div_pos; try apply Hpow; lia).
    rewrite !Z.div_div by (try apply Hpow; lia).
    f_equal. change (Z.pos n~0) with (2 * Z.pos n)%Z.
    replace (2 * Z.pos n)%Z with (Z.pos n + Z.pos n)%Z by lia.
    rewrite Z.pow_add_r by lia. reflexivity.
  - rewrite shr_1_m by assumption. rewrite Z.pow_1_r. reflexivity.
Qed.

Lemma digits2_pos_size (p : positive) : digits2_pos p = Pos.size p.
Proof. induction p; simpl; congruence. Qed.

Lemma digits2_pos_bound (p : positive) :
  (2 ^ (Z.pos (digits2_pos p) - 1) <= Z.pos p)%Z.
Proof.
  rewrite digits2_pos_size.
  pose proof (Pos.size_le p) as H.
  apply Pos2Z.pos_le_pos in H. rewrite Pos2Z.inj_pow in H.
  change (Z.pos p~0) with (2 * Z.pos p)%Z in H.
  replace (Z.pos (Pos.size p)) with (Z.succ (Z.pos (Pos.size p) - 1)) in H
    by lia.
  rewrite Z.pow_succ_r in H by lia.
  replace (Z.succ (Z.pos (Pos.size p) - 1) - 1)%Z
    with (Z.pos (Pos.size p) - 1)%Z by lia.
  lia.
Qed.

Lemma shr_record_of_loc_m (m : Z) (l : location) :
  shr_m (shr_record_of_loc m l) = m.
Proof. destruct l as [|[| |]]; reflexivity. Qed.

(** Shifting to the format's exponent keeps a positive mantissa
    positive when the exponent is not below the smallest one. *)
Lemma shr_fexp_positive (m e : Z) (l : location) :
  (0 < m)%Z -> (-1074 <= e)%Z ->
  (0 < shr_m (fst (shr_fexp prec emax m e l)))%Z /\
  (e <= snd (shr_fexp prec emax m e l))%Z.
Proof.
  intros Hm He. unfold shr_fexp, shr.
  destruct m as [|p|p]; try lia. cbn [Zdigits2].
  pose proof (digits2_pos_bound p) as Hd.
  destruct (fexp prec emax (Z.pos (digits2_pos p) + e) - e)%Z as [|q|q] eqn:E;
    cbn [fst snd]; try (rewrite shr_record_of_loc_m; lia).
  rewrite iter_shr_1_m by (rewrite shr_record_of_loc_m; lia).
  rewrite shr_record_of_loc_m. split; [|lia].
  apply Z.div_str_pos. split; [apply Z.pow_pos_nonneg; lia|].
  apply Z.le_trans with (2 := Hd).
  apply Z.pow_le_mono_r; [lia|].
  unfold fexp, emin in E. change prec with 53%Z in E.
  change emax with 1024%Z in E. lia.
Qed.

Lemma round_nearest_even_positive (m : Z) (l : location) :
  (0 < m)%Z -> (0 < round_nearest_even m l)%Z.
Proof.
  intros Hm. destruct l as [|[| |]]; simpl; try lia.
  destruct (Z.even m); lia.
Qed.

Lemma binary_round_aux_positive (s : bool) (m e : Z) (l : location) :
  (0 < m)%Z -> (-1074 <= e)%Z ->
  match binary_round_aux prec emax s m e l with
  | S754_finite s' _ _ | S754_infinity s' => s' = s
  | _ => False
  end.
Proof.
  intros Hm He. unfold binary_round_aux.
  pose proof (shr_fexp_positive m e l Hm He) as [H1 H2].
  destruct (shr_fexp prec emax m e l) as [mrs' e']. cbn [fst snd] in H1, H2.
  pose proof (round_nearest_even_positive (shr_m mrs')
                (loc_of_shr_record mrs') H1) as H3.
  pose proof (shr_fexp_positive _ e' loc_Exact H3 ltac:(lia)) as [H4 _].
  destruct (shr_fexp prec emax
              (round_nearest_even (shr_m mrs') (loc_of_shr_record mrs'))
              e' loc_Exact) as [mrs'' e''].
  cbn [fst] in H4.
  destruct (shr_m mrs''); try lia.
  destruct (Z.leb e'' (emax - prec)); reflexivity.
Qed.

Lemma binary_round_positive (s : bool) (p : positive) (e : Z) :
  (-1074 <= e)%Z ->
  match binary_round prec emax s p e with
  | S754_finite s' _ _ | S754_infinity s' => s' = s
  | _ => False
  end.
Proof.
  intros He. unfold binary_round, shl_align.
  destruct (fexp prec emax (Z.pos (digits2_pos p) + e) - e)%Z eqn:E;
    apply binary_round_aux_positive; try lia.
  unfold fexp, emin in *. change prec with 53%Z in *.
  change emax with 1024%Z in *. lia.
Qed.

(** The conversion of a positive count is positive. *)
Lemma Z2double_positive (n : Z) :
  (1 <= n < 2 ^ 63)%Z ->
  match Prim2SF (Z2double n) with
  | S754_finite s _ _ | S754_infinity s => s = false
  | _ => False
  end.
Proof.
  intros Hn. rewrite Prim2SF_Z2double by lia.
  destruct n as [|p|p]; try lia. simpl.
  apply binary_round_positive. lia.
Qed.

Lemma zero_div_Z2double (n : Z) :
  (1 <= n < 2 ^ 63)%Z -> (0 / Z2double n)%float = 0%float.
Proof.
  intros Hn. apply Prim2SF_inj.
  rewrite FloatAxioms.div_spec, Prim2SF_zero.
  pose proof (Z2double_positive n Hn) as H.
  destruct (Prim2SF (Z2double n)) as [s|s| |s m e]; try contradiction;
    subst s; reflexivity.
Qed.

(** ** A finite number minus itself *)

Lemma sub_self (v : float) :
  finite_double v = true -> (v - v)%float = 0%float.
Proof.
  unfold finite_double. intros Hv. apply Prim2SF_inj.
  rewrite FloatAxioms.sub_spec, Prim2SF_zero.
  destruct (Prim2SF v) as [s|s| |s m e]; try discriminate.
  - destruct s; reflexivity.
  - unfold SF64sub, SFsub. rewrite Z.sub_diag. reflexivity.
Qed.

(** * Exact real arithmetic *)

Lemma R_orders (vals : list R) : orders (RT := R_RealType) vals.
Proof.
  unfold orders. simpl. unfold Rltb. repeat split.
  - intros a _. destruct (Rlt_dec a a); [lra|reflexivity].
  - intros a b c _ _ _.
    destruct (Rlt_dec a b), (Rlt_dec b c), (Rlt_dec a c);
      intros; try reflexivity; try discriminate; lra.
  - intros a b c _ _ _.
    destruct (Rlt_dec a b), (Rlt_dec b c), (Rlt_dec a c);
      intros; try reflexivity; try discriminate; lra.
Qed.

Lemma Rsum_fold_left {A : Type} (g : A -> R) (l : list A) :
  forall a : R,
    fold_left (fun acc v => acc + g v)%R l a = (a + Rsum (map g l))%R.
Proof.
  induction l as [|v l IH]; intros a; simpl.
  - unfold Rsum. simpl. lra.
  - rewrite IH. unfold Rsum. simpl. lra.
Qed.

Lemma Rsum_Permutation (l l' : list R) :
  Permutation l l' -> Rsum l = Rsum l'.
Proof.
  unfold Rsum.
  induction 1 as [|a l l' Hp IH|a b l|l l' l'' H1 IH1 H2 IH2]; simpl; lra.
Qed.

Lemma Rsum_scale (c : R) (l : list R) :
  Rsum (map (fun v => v / c)%R l) = (Rsum l / c)%R.
Proof.
  unfold Rsum. induction l as [|v l IH]; simpl.
  - unfold Rdiv. lra.
  - rewrite IH. unfold Rdiv. lra.
Qed.

(** In exact arithmetic the running mean is the arithmetic mean. *)
Lemma R_running_from (frameCount : Z) (start : R) (vals : list R) :
  running_from (RT := R_RealType) frameCount start vals
    = (start + Rsum vals / IZR frameCount)%R.
Proof.
  unfold running_from. simpl.
  rewrite (Rsum_fold_left (fun v => v / IZR frameCount)%R).
  rewrite Rsum_scale. reflexivity.
Qed.

Lemma R_running_mean (frameCount : Z) (vals : list R) :
  running_mean (RT := R_RealType) frameCount vals
    = (Rsum vals / IZR frameCount)%R.
Proof.
  unfold running_mean. rewrite R_running_from. simpl. lra.
Qed.

Lemma R_rmsd_sum_Permutation (ref : FRAME R) (frames frames' : list (FRAME R)) :
  Permutation frames frames' ->
  rmsd_sum (RT := R_RealType) ref frames = rmsd_sum ref frames'.
Proof.
  intros Hp. unfold rmsd_sum. simpl.
  rewrite !(Rsum_fold_left (RMSFrame ref)).
  f_equal. apply Rsum_Permutation. apply Permutation_map. exact Hp.
Qed.

Lemma R_sqdev_self (c : coord R) : sqdev (RT := R_RealType) c c = 0%R.
Proof. unfold sqdev. simpl. ring. Qed.

(** A frame has RMSD 0 to itself. *)
Lemma R_RMSFrame_self (frame : FRAME R) :
  RMSFrame (RT := R_RealType) frame frame = 0%R.
Proof.
  unfold RMSFrame.
  assert (H : forall (p : FRAME R) (n : Z),
             RMSFrame_loop (RT := R_RealType) p p 0%R n = 0%R).
  { induction p as [|c p IH]; intros n; cbn [RMSFrame_loop].
    - simpl. unfold Rdiv. rewrite Rmult_0_l. apply sqrt_0.
    - rewrite R_sqdev_self.
      replace (@r_add R R_RealType 0%R 0%R) with 0%R by (simpl; lra).
      apply IH. }
  apply H.
Qed.

(** * The comparison of binary64 values that are not NaN *)

Lemma SFltb_key (a b : spec_float) :
  a <> S754_nan -> b <> S754_nan ->
  (SFltb a b = true <-> key_lt (sf_key a) (sf_key b)).
Proof.
  intros Ha Hb. unfold SFltb, SFcompare, key_lt.
  destruct a as [sa|sa| |sa ma ea]; try congruence;
    destruct b as [sb|sb| |sb mb eb]; try congruence;
    try destruct sa; try destruct sb; cbn [sf_key fst snd];
    try (split; [discriminate|lia]);
    try (split; [lia|reflexivity]).
  - change (Pos.compare_cont Eq ma mb) with (Pos.compare ma mb).
    destruct (Z.compare_spec ea eb); try destruct (Pos.compare_spec ma mb);
      cbn [CompOpp]; split; intros; try discriminate; try reflexivity; lia.
  - change (Pos.compare_cont Eq ma mb) with (Pos.compare ma mb).
    destruct (Z.compare_spec ea eb); try destruct (Pos.compare_spec ma mb);
      split; intros; try discriminate; try reflexivity; lia.
Qed.

Lemma float_ltb_key (a b : float) :
  not_nan a = true -> not_nan b = true ->
  (PrimFloat.ltb a b = true <-> key_lt (sf_key (Prim2SF a)) (sf_key (Prim2SF b))).
Proof.
  unfold not_nan. intros Ha Hb. rewrite FloatAxioms.ltb_spec.
  apply SFltb_key; intros E; rewrite E in *; discriminate.
Qed.

(** Values that are not NaN are ordered by [<]. *)
Lemma float_orders (vals : list float) :
  forallb not_nan vals = true -> orders (RT := float_RealType) vals.
Proof.
  intros Hall. rewrite forallb_forall in Hall.
  assert (Hdec : forall a b, In a vals -> In b vals ->
            (PrimFloat.ltb a b = false
             <-> ~ key_lt (sf_key (Prim2SF a)) (sf_key (Prim2SF b)))).
  { intros a b Ha Hb.
    pose proof (float_ltb_key a b (Hall a Ha) (Hall b Hb)) as H.
    destruct (PrimFloat.ltb a b); split.
    - discriminate.
    - intros Hn. exfalso. apply Hn. apply H. reflexivity.
    - intros _ Hk. apply H in Hk. discriminate.
    - reflexivity. }
  unfold orders. simpl. repeat split.
  - intros a Ha. apply (Hdec a a Ha Ha). unfold key_lt. lia.
  - intros a b c Ha Hb Hc Hab Hbc.
    apply (float_ltb_key a b (Hall a Ha) (Hall b Hb)) in Hab.
    apply (float_ltb_key b c (Hall b Hb) (Hall c Hc)) in Hbc.
    apply (float_ltb_key a c (Hall a Ha) (Hall c Hc)).
    unfold key_lt in *. lia.
  - intros a b c Ha Hb Hc Hab Hbc.
    apply (Hdec a b Ha Hb) in Hab. apply (Hdec b c Hb Hc) in Hbc.
    apply (Hdec a c Ha Hc). unfold key_lt in *. lia.
Qed.

(** * The passes as folds over the frames read *)

Section PassFacts.

Context {REAL : Type} {RT : RealType REAL}.
Variable sscanf3 : string -> coord REAL.

Lemma rewound_w_rewind (w : world) : rewound (w_rewind w).
Proof. reflexivity. Qed.

Lemma rewound_reset (w : world) : rewound w -> rewound (ReadFrame_NULL w).
Proof. exact (fun H => H). Qed.

Lemma MeanCoords_loop_spec (fuel : nat) :
  forall w header meanFrame frameCount,
    List.length (f_unread (w_in w)) < fuel ->
    let r := mean_fold (frames_loop sscanf3 fuel w header) meanFrame frameCount in
    exists w',
      MeanCoords_loop sscanf3 fuel w header meanFrame frameCount
        = Some (fst r, w') /\
      pass_end w w' (snd r) /\ rewound w'.
Proof.
  induction fuel as [|fuel IH]; intros w header meanFrame frameCount Hlen;
    [lia|].
  simpl.
  pose proof (ReadFrame_keeps sscanf3 w header) as Hk.
  pose proof (ReadFrame_progress sscanf3 w header) as Hp.
  destruct (ReadFrame sscanf3 w header) as [[frame header'] w1].
  destruct Hk as [Hk1 Hk2].
  destruct frame as [|c frame].
  - exists (w_rewind w1). simpl. split; [reflexivity|].
    split; [|reflexivity]. split; [exact Hk1|].
    rewrite app_nil_r. exact Hk2.
  - simpl.
    destruct (AddFrame meanFrame (c :: frame) frameCount) as [mean' ok].
    destruct ok.
    + assert (Hlen' : List.length (f_unread (w_in w1)) < fuel).
      { assert (c :: frame <> []) as Hne by discriminate.
        specialize (Hp Hne). lia. }
      destruct (IH w1 header' mean' frameCount Hlen') as (w' & He & [Hf Hs] & Hr).
      exists w'. split; [exact He|]. split; [|exact Hr].
      split; congruence.
    + exists (w_rewind (Msg w1 MSG_ATOMMISMATCH header')). simpl.
      split; [reflexivity|]. split; [|reflexivity].
      split; [exact Hk1|]. simpl. rewrite Hk2. reflexivity.
Qed.

Lemma ClosestToMean_loop_spec (fuel : nat) :
  forall w thisHeader header meanFrame closestFrame firstFrame lowestRMSD,
    List.length (f_unread (w_in w)) < fuel ->
    let r := closest_fold (frames_loop sscanf3 fuel w thisHeader) header
               meanFrame closestFrame firstFrame lowestRMSD in
    exists w',
      ClosestToMean_loop sscanf3 fuel w thisHeader header meanFrame
        closestFrame firstFrame lowestRMSD = Some (fst r, w') /\
      pass_end w w' (snd r) /\ (fst r <> [] -> rewound w').
Proof.
  induction fuel as [|fuel IH];
    intros w thisHeader header meanFrame closestFrame firstFrame lowestRMSD Hlen;
    [lia|].
  simpl.
  pose proof (ReadFrame_keeps sscanf3 w thisHeader) as Hk.
  pose proof (ReadFrame_progress sscanf3 w thisHeader) as Hp.
  destruct (ReadFrame sscanf3 w thisHeader) as [[frame header'] w1].
  destruct Hk as [Hk1 Hk2].
  destruct frame as [|c frame].
  - exists (w_rewind w1). simpl. split; [reflexivity|].
    split; [|intros _; reflexivity]. split; [exact Hk1|].
    rewrite app_nil_r. exact Hk2.
  - assert (Hlen' : List.length (f_unread (w_in w1)) < fuel).
    { assert (c :: frame <> []) as Hne by discriminate.
      specialize (Hp Hne). lia. }
    assert (Hrec : forall cf low,
      let r := closest_fold (frames_loop sscanf3 fuel w1 header') header
                 meanFrame cf false low in
      exists w',
        ClosestToMean_loop sscanf3 fuel w1 header' header meanFrame cf false low
          = Some (fst r, w') /\
        pass_end w w' (snd r) /\ (fst r <> [] -> rewound w')).
    { intros cf low.
      destruct (IH w1 header' header meanFrame cf false low Hlen')
        as (w' & He & [Hf Hs] & Hr).
      exists w'. split; [exact He|]. split; [|exact Hr]. split; congruence. }
    cbn [closest_fold].
    destruct (RMSFrame meanFrame (c :: frame) <? r_zero)%REAL.
    + exists (Msg w1 MSG_ATOMMISMATCH header). simpl.
      split; [reflexivity|]. split; [|congruence].
      split; [exact Hk1|]. simpl. rewrite Hk2. reflexivity.
    + destruct firstFrame.
      * cbn [CopyFrame]. apply Hrec.
      * destruct (RMSFrame meanFrame (c :: frame) <? lowestRMSD)%REAL.
        -- cbn [CopyFrame]. apply Hrec.
        -- apply Hrec.
Qed.

Lemma MeanRMSD_loop_spec (fuel : nat) :
  forall w header closestFrame frameCount meanRMSD,
    List.length (f_unread (w_in w)) < fuel ->
    let r := rmsd_fold (frames_loop sscanf3 fuel w header) closestFrame
               frameCount meanRMSD in
    exists w',
      MeanRMSD_loop sscanf3 fuel w header closestFrame frameCount meanRMSD
        = Some (fst r, w') /\
      pass_end w w' (snd r).
Proof.
  induction fuel as [|fuel IH];
    intros w header closestFrame frameCount meanRMSD Hlen; [lia|].
  simpl.
  pose proof (ReadFrame_keeps sscanf3 w header) as Hk.
  pose proof (ReadFrame_progress sscanf3 w header) as Hp.
  destruct (ReadFrame sscanf3 w header) as [[frame header'] w1].
  destruct Hk as [Hk1 Hk2].
  destruct frame as [|c frame].
  - exists (w_rewind w1). simpl. split; [reflexivity|].
    split; [exact Hk1|]. rewrite app_nil_r. exact Hk2.
  - cbn [rmsd_fold].
    destruct (RMSFrame closestFrame (c :: frame) <? r_zero)%REAL.
    + exists (Msg w1 MSG_ATOMMISMATCH header'). simpl.
      split; [reflexivity|]. split; [exact Hk1|]. simpl. rewrite Hk2. reflexivity.
    + assert (Hlen' : List.length (f_unread (w_in w1)) < fuel).
      { assert (c :: frame <> []) as Hne by discriminate.
        specialize (Hp Hne). lia. }
      destruct (IH w1 header' closestFrame frameCount (meanRMSD + RMSFrame closestFrame (c :: frame))%REAL Hlen')
        as (w' & He & [Hf Hs]).
      exists w'. split; [exact He|]. split; congruence.
Qed.


Lemma mean_seed_first (frames : list (hdr * FRAME REAL)) :
  mean_seed frames = map (fun _ => zero_coord) (first_frame frames).
Proof. destruct frames as [|[h f] frames]; reflexivity. Qed.

(** The first call after a reset on a rewound file returns the first
    frame of the pass and leaves the header array alone. *)
Lemma ReadFrame_first (w : world) (header : hdr) :
  rewound w -> w_firstEntry w = true ->
  fst (fst (ReadFrame sscanf3 w header))
    = first_frame (read_frames sscanf3 (f_records (w_in w))) /\
  snd (fst (ReadFrame sscanf3 w header)) = header.
Proof.
  intros Hr Hf. unfold read_frames. cbn [frames_loop].
  unfold ReadFrame. rewrite Hr, Hf. cbn [w_in w_firstEntry f_unread w_buffer].
  destruct (ReadFrame_loop sscanf3 (f_records (w_in w)) EmptyString true [])
    as [[[u b] fe] fr].
  cbn [fst snd]. split; [|reflexivity].
  destruct fr; reflexivity.
Qed.

Lemma CalculateMeanCoords_spec (w : world) (frameCount : Z) :
  rewound w ->
  let frames := read_frames sscanf3 (f_records (w_in w)) in
  let r := mean_fold frames (mean_seed frames) frameCount in
  exists w',
    CalculateMeanCoords sscanf3 w frameCount = Some (fst r, w') /\
    pass_end w w' (snd r) /\ rewound w'.
Proof.
  intros Hr frames r. unfold CalculateMeanCoords.
  pose proof (ReadFrame_first (ReadFrame_NULL w) None Hr eq_refl) as [H1 H2].
  pose proof (ReadFrame_keeps sscanf3 (ReadFrame_NULL w) None) as Hk.
  destruct (ReadFrame sscanf3 (ReadFrame_NULL w) None) as [[mf header] w1].
  cbn [fst snd] in H1, H2. destruct Hk as [Hk1 Hk2]. subst header.
  simpl in H1. subst mf. fold frames. rewrite <- mean_seed_first.
  set (w2 := ReadFrame_NULL (w_rewind w1)).
  assert (Hrec : f_records (w_in w2) = f_records (w_in w)) by exact Hk1.
  assert (Hlen : List.length (f_unread (w_in w2)) < pass_fuel w2).
  { unfold pass_fuel. simpl. lia. }
  destruct (MeanCoords_loop_spec (pass_fuel w2) w2 None
              (mean_seed frames) frameCount Hlen)
    as (w' & He & [Hf Hs] & Hrw).
  rewrite frames_loop_rewound in He, Hs;
    [|reflexivity|reflexivity|unfold pass_fuel; simpl; lia
     |reflexivity|reflexivity|unfold pass_fuel; simpl; lia].
  rewrite Hrec in He, Hs. fold frames in He, Hs.
  exists w'. split; [exact He|]. split; [|exact Hrw].
  split; [congruence|]. rewrite Hs. simpl. rewrite Hk2. reflexivity.
Qed.

Lemma FindClosestToMean_spec (w : world) (meanFrame : FRAME REAL)
    (header : hdr) :
  rewound w ->
  let frames := read_frames sscanf3 (f_records (w_in w)) in
  let r := closest_fold frames header meanFrame [] true r_zero in
  exists w',
    FindClosestToMean sscanf3 w meanFrame header = Some (fst r, w') /\
    pass_end w w' (snd r) /\ (fst r <> [] -> rewound w').
Proof.
  intros Hr frames r. unfold FindClosestToMean.
  set (w2 := ReadFrame_NULL w).
  assert (Hlen : List.length (f_unread (w_in w2)) < pass_fuel w2).
  { unfold pass_fuel. simpl. rewrite Hr. lia. }
  destruct (ClosestToMean_loop_spec (pass_fuel w2) w2 None header meanFrame
              [] true r_zero Hlen) as (w' & He & Hp & Hrw).
  rewrite frames_loop_rewound in He, Hp, Hrw;
    try exact Hr; try reflexivity; try (unfold pass_fuel; simpl; lia).
  exists w'. auto.
Qed.

Lemma CalculateMeanRMSD_spec (w : world) (closestFrame : FRAME REAL)
    (frameCount : Z) :
  rewound w ->
  let frames := read_frames sscanf3 (f_records (w_in w)) in
  let r := rmsd_fold frames closestFrame frameCount r_zero in
  exists w',
    CalculateMeanRMSD sscanf3 w closestFrame frameCount = Some (fst r, w') /\
    pass_end w w' (snd r).
Proof.
  intros Hr frames r. unfold CalculateMeanRMSD.
  set (w2 := ReadFrame_NULL w).
  assert (Hlen : List.length (f_unread (w_in w2)) < pass_fuel w2).
  { unfold pass_fuel. simpl. rewrite Hr. lia. }
  destruct (MeanRMSD_loop_spec (pass_fuel w2) w2 None closestFrame
              frameCount r_zero Hlen) as (w' & He & Hp).
  rewrite frames_loop_rewound in He, Hp;
    try exact Hr; try reflexivity; try (unfold pass_fuel; simpl; lia).
  exists w'. auto.
Qed.

End PassFacts.

(** * Frames of equal and of different length *)

Lemma int_wrap_small (v : Z) : (0 <= v < 2 ^ 31)%Z -> int_wrap v = v.
Proof.
  intros H. unfold int_wrap.
  rewrite Z.mod_small by lia. lia.
Qed.

Section FrameFacts.

Context {REAL : Type} {RT : RealType REAL}.

Lemma CopyFrame_id (frame : FRAME REAL) : CopyFrame frame = frame.
Proof.
  induction frame as [|[a b c] frame IH]; simpl; [reflexivity|].
  rewrite IH. reflexivity.
Qed.

Lemma RMSFrame_loop_same_length (p : FRAME REAL) :
  forall (q : FRAME REAL) (rmsd : REAL) (nCoor : Z),
    List.length p = List.length q ->
    (0 <= nCoor)%Z ->
    (nCoor + Z.of_nat (List.length p) < 2 ^ 31)%Z ->
    RMSFrame_loop p q rmsd nCoor =
    r_sqrt (fold_left sqdev_step (combine p q) rmsd
            / r_of_Z (nCoor + Z.of_nat (List.length p)))%REAL.
Proof.
  induction p as [|a p IH]; intros [|b q] rmsd nCoor Hlen Hn Hb;
    try discriminate.
  - simpl. rewrite Z.add_0_r. reflexivity.
  - cbn [RMSFrame_loop combine fold_left].
    cbn [List.length] in Hb, Hlen.
    rewrite int_wrap_small by lia.
    rewrite IH by (try lia; congruence).
    unfold sqdev_step at 2. cbn [fst snd].
    replace (nCoor + 1 + Z.of_nat (List.length p))%Z
      with (nCoor + Z.of_nat (S (List.length p)))%Z by lia.
    reflexivity.
Qed.

(** Equal lengths: the value is a square root, whatever the count. *)
Lemma RMSFrame_loop_is_sqrt (p : FRAME REAL) :
  forall (q : FRAME REAL) (rmsd : REAL) (nCoor : Z),
    List.length p = List.length q ->
    exists v, RMSFrame_loop p q rmsd nCoor = r_sqrt v.
Proof.
  induction p as [|a p IH]; intros [|b q] rmsd nCoor Hlen; try discriminate.
  - simpl. eauto.
  - simpl. apply IH. simpl in Hlen. congruence.
Qed.

(** Different lengths: the value is [-1.0]. *)
Lemma RMSFrame_loop_mismatch (p : FRAME REAL) :
  forall (q : FRAME REAL) (rmsd : REAL) (nCoor : Z),
    List.length p <> List.length q ->
    RMSFrame_loop p q rmsd nCoor = r_mone.
Proof.
  induction p as [|a p IH]; intros [|b q] rmsd nCoor Hlen;
    try reflexivity.
  - congruence.
  - simpl. apply IH. simpl in Hlen. congruence.
Qed.

Lemma RMSFrame_formula (frame1 frame2 : FRAME REAL) :
  List.length frame1 = List.length frame2 ->
  (Z.of_nat (List.length frame1) < 2 ^ 31)%Z ->
  RMSFrame frame1 frame2 = rmsd_formula frame1 frame2.
Proof.
  intros Hlen Hb. unfold RMSFrame, rmsd_formula, sum_sqdev.
  rewrite RMSFrame_loop_same_length by (try lia; assumption).
  reflexivity.
Qed.

Lemma RMSFrame_not_negative {RL : RealLaws RT} (frame1 frame2 : FRAME REAL) :
  List.length frame1 = List.length frame2 ->
  (RMSFrame frame1 frame2 <? r_zero)%REAL = false.
Proof.
  intros Hlen.
  destruct (RMSFrame_loop_is_sqrt frame1 frame2 r_zero 0 Hlen) as [v Hv].
  unfold RMSFrame. rewrite Hv. apply r_sqrt_not_negative.
Qed.

Lemma RMSFrame_mismatch_negative {RL : RealLaws RT}
    (frame1 frame2 : FRAME REAL) :
  List.length frame1 <> List.length frame2 ->
  RMSFrame frame1 frame2 = r_mone /\
  (RMSFrame frame1 frame2 <? r_zero)%REAL = true.
Proof.
  intros Hlen. unfold RMSFrame.
  rewrite RMSFrame_loop_mismatch by assumption.
  split; [reflexivity|apply r_mone_negative].
Qed.

(** *** [AddFrame] *)

Lemma AddFrame_same_length (meanFrame : FRAME REAL) :
  forall (frame : FRAME REAL) (frameCount : Z),
    List.length meanFrame = List.length frame ->
    AddFrame meanFrame frame frameCount =
    (map (fun fg => add_coord frameCount (fst fg) (snd fg))
         (combine meanFrame frame), true).
Proof.
  induction meanFrame as [|f meanFrame IH]; intros [|g frame] frameCount Hlen;
    try discriminate.
  - reflexivity.
  - simpl. rewrite IH by (simpl in Hlen; congruence). reflexivity.
Qed.


Lemma AddFrame_length (meanFrame frame : FRAME REAL) (frameCount : Z) :
  List.length meanFrame = List.length frame ->
  List.length (fst (AddFrame meanFrame frame frameCount))
    = List.length meanFrame.
Proof.
  intros Hlen. rewrite AddFrame_same_length by assumption. simpl.
  rewrite length_map, length_combine. lia.
Qed.

Lemma AddFrame_nth (meanFrame frame : FRAME REAL) (frameCount : Z) (i : nat) :
  List.length meanFrame = List.length frame ->
  i < List.length meanFrame ->
  nth i (fst (AddFrame meanFrame frame frameCount)) zero_coord =
  add_coord frameCount (nth i meanFrame zero_coord) (nth i frame zero_coord).
Proof.
  intros Hlen Hi. rewrite AddFrame_same_length by assumption. simpl.
  rewrite (nth_indep _ zero_coord
             (add_coord frameCount (fst (zero_coord, zero_coord))
                                   (snd (zero_coord, zero_coord)))).
  - rewrite (map_nth (fun fg => add_coord frameCount (fst fg) (snd fg))).
    rewrite combine_nth by assumption. reflexivity.
  - rewrite length_map, length_combine. lia.
Qed.

End FrameFacts.
(** * Results that are numbers in binary64 *)

(** ** Rounding *)

Lemma iter_shr_1_nonneg (n : positive) (mrs : shr_record) :
  (0 <= shr_m mrs)%Z -> (0 <= shr_m (SpecFloat.iter_pos shr_1 n mrs))%Z.
Proof.
  intros H. rewrite iter_shr_1_m by exact H.
  apply Z.div_pos; [exact H|]. apply Z.pow_pos_nonneg; lia.
Qed.

Lemma shr_fexp_nonneg (m e : Z) (l : location) :
  (0 <= m)%Z -> (0 <= shr_m (fst (shr_fexp prec emax m e l)))%Z.
Proof.
  intros Hm. unfold shr_fexp, shr.
  destruct (fexp prec emax (Zdigits2 m + e) - e)%Z; cbn [fst];
    try (rewrite shr_record_of_loc_m; exact Hm).
  apply iter_shr_1_nonneg. rewrite shr_record_of_loc_m. exact Hm.
Qed.

Lemma round_nearest_even_nonneg (m : Z) (l : location) :
  (0 <= m)%Z -> (0 <= round_nearest_even m l)%Z.
Proof.
  intros Hm. destruct l as [|[| |]]; simpl; try lia.
  destruct (Z.even m); lia.
Qed.

(** Rounding a mantissa that is not negative gives a number. *)
Lemma binary_round_aux_number (s : bool) (m e : Z) (l : location) :
  (0 <= m)%Z ->
  match binary_round_aux prec emax s m e l with
  | S754_zero s' | S754_finite s' _ _ | S754_infinity s' => s' = s
  | S754_nan => False
  end.
Proof.
  intros Hm. unfold binary_round_aux.
  pose proof (shr_fexp_nonneg m e l Hm) as H1.
  destruct (shr_fexp prec emax m e l) as [mrs' e']. cbn [fst] in H1.
  pose proof (round_nearest_even_nonneg (shr_m mrs')
                (loc_of_shr_record mrs') H1) as H3.
  pose proof (shr_fexp_nonneg _ e' loc_Exact H3) as H4.
  destruct (shr_fexp prec emax
              (round_nearest_even (shr_m mrs') (loc_of_shr_record mrs'))
              e' loc_Exact) as [mrs'' e''].
  cbn [fst] in H4.
  destruct (shr_m mrs''); try lia; [reflexivity|].
  destruct (Z.leb e'' (emax - prec)); reflexivity.
Qed.

Lemma binary_normalize_number (m e : Z) (sz : bool) :
  binary_normalize prec emax m e sz <> S754_nan.
Proof.
  destruct m as [|p|p]; simpl; [discriminate| |]; unfold binary_round;
    destruct (shl_align p e (fexp prec emax (Z.pos (digits2_pos p) + e)))
      as [mz ez].
  - pose proof (binary_round_aux_number false (Z.pos mz) ez loc_Exact
                  ltac:(lia)) as H.
    intros E. rewrite E in H. exact H.
  - pose proof (binary_round_aux_number true (Z.pos mz) ez loc_Exact
                  ltac:(lia)) as H.
    intros E. rewrite E in H. exact H.
Qed.

(** ** The conversion of a count *)

Lemma digits2_pos_shift (k p : positive) :
  digits2_pos (shift_pos k p) = (digits2_pos p + k)%positive.
Proof.
  rewrite !digits2_pos_size. unfold shift_pos.
  induction k as [|k IH] using Pos.peano_ind.
  - cbn [Pos.iter Pos.size]. rewrite Pos.add_1_r. reflexivity.
  - rewrite Pos.iter_succ. cbn [Pos.size]. rewrite IH.
    rewrite Pos.add_succ_r. reflexivity.
Qed.

(** A mantissa of 53 bits with its exponent in range is not rounded. *)
Lemma binary_round_aux_exact (s : bool) (m : positive) (e : Z) :
  Z.pos (digits2_pos m) = 53%Z -> (-1074 <= e <= 971)%Z ->
  binary_round_aux prec emax s (Z.pos m) e loc_Exact = S754_finite s m e.
Proof.
  intros Hd He. unfold binary_round_aux.
  assert (Hs : shr_fexp prec emax (Z.pos m) e loc_Exact
               = (shr_record_of_loc (Z.pos m) loc_Exact, e)).
  { unfold shr_fexp. cbn [Zdigits2]. rewrite Hd.
    replace (fexp prec emax (53 + e) - e)%Z with 0%Z; [reflexivity|].
    unfold fexp, emin. change prec with 53%Z. change emax with 1024%Z. lia. }
  rewrite Hs. cbn [shr_record_of_loc shr_m loc_of_shr_record
                   round_nearest_even].
  rewrite Hs. cbn [shr_record_of_loc shr_m].
  replace (e <=? emax - prec)%Z with true; [reflexivity|].
  symmetry. apply Z.leb_le. change prec with 53%Z. change emax with 1024%Z. lia.
Qed.

(** The conversion of a positive count below [2^53] is a finite
    positive number. *)
Lemma Z2double_finite (n : Z) :
  (1 <= n < 2 ^ 53)%Z ->
  exists m e, Prim2SF (Z2double n) = S754_finite false m e.
Proof.
  intros Hn. rewrite Prim2SF_Z2double by lia.
  destruct n as [|p|p]; try lia. cbn [binary_normalize].
  unfold binary_round, shl_align.
  pose proof (digits2_pos_bound p) as Hd.
  assert (Hd53 : (Z.pos (digits2_pos p) <= 53)%Z).
  { destruct (Z.le_gt_cases (Z.pos (digits2_pos p)) 53) as [H|H]; [exact H|].
    exfalso.
    assert (2 ^ 53 <= 2 ^ (Z.pos (digits2_pos p) - 1))%Z
      by (apply Z.pow_le_mono_r; lia).
    lia. }
  assert (Hf : fexp prec emax (Z.pos (digits2_pos p) + 0)
               = (Z.pos (digits2_pos p) - 53)%Z).
  { unfold fexp, emin. change prec with 53%Z. change emax with 1024%Z. lia. }
  rewrite Hf.
  destruct (Z.pos (digits2_pos p) - 53 - 0)%Z as [|k|k] eqn:E; try lia.
  - exists p, 0%Z. apply binary_round_aux_exact; lia.
  - exists (shift_pos k p), (Z.pos (digits2_pos p) - 53)%Z.
    apply binary_round_aux_exact; [|lia].
    rewrite digits2_pos_shift. lia.
Qed.

(** ** The operations of [RMSFrame] *)

Lemma binary_round_aux_amount (m e : Z) (l : location) :
  (0 <= m)%Z -> sf_amount (binary_round_aux prec emax false m e l).
Proof.
  intros Hm. pose proof (binary_round_aux_number false m e l Hm) as H.
  destruct (binary_round_aux prec emax false m e l); simpl; auto.
Qed.

Lemma binary_normalize_amount (m e : Z) :
  (0 <= m)%Z -> sf_amount (binary_normalize prec emax m e false).
Proof.
  intros Hm. destruct m as [|p|p]; simpl; [exact I| |lia].
  unfold binary_round.
  destruct (shl_align p e (fexp prec emax (Z.pos (digits2_pos p) + e)))
    as [mz ez].
  apply binary_round_aux_amount. lia.
Qed.

Lemma SFsub_number (a b : spec_float) :
  a <> S754_nan -> sf_finite b -> SFsub prec emax a b <> S754_nan.
Proof.
  destruct a as [sa|sa| |sa ma ea]; destruct b as [sb|sb| |sb mb eb];
    simpl; intros Ha Hb; try contradiction; try discriminate.
  - destruct sa, sb; discriminate.
  - apply binary_normalize_number.
Qed.

Lemma SFmul_square_amount (a : spec_float) :
  a <> S754_nan -> sf_amount (SFmul prec emax a a).
Proof.
  destruct a as [sa|sa| |sa ma ea]; simpl; intros Ha;
    try contradiction; try (destruct sa; reflexivity); try exact I.
  rewrite xorb_nilpotent. apply binary_round_aux_amount. lia.
Qed.

Lemma SFadd_amount (a b : spec_float) :
  sf_amount a -> sf_amount b -> sf_amount (SFadd prec emax a b).
Proof.
  destruct a as [sa|sa| |sa ma ea]; destruct b as [sb|sb| |sb mb eb];
    simpl; intros Ha Hb; subst; try contradiction; try exact I;
    try reflexivity.
  - destruct sa, sb; exact I.
  - apply binary_normalize_amount. simpl. lia.
Qed.

Lemma SFdiv_amount (a : spec_float) (m : positive) (e : Z) :
  sf_amount a -> sf_amount (SFdiv prec emax a (S754_finite false m e)).
Proof.
  destruct a as [sa|sa| |sa ma ea]; simpl; intros Ha; subst;
    try contradiction; try exact I; try reflexivity.
  unfold SFdiv_core_binary.
  set (m' := match (ea - e - _)%Z with
             | 0%Z => Z.pos ma | Z.pos _ => _ | Z.neg _ => 0%Z end).
  assert (Hm' : (0 <= m')%Z).
  { subst m'. destruct (ea - e - _)%Z; try lia.
    apply Z.shiftl_nonneg. lia. }
  pose proof (Z.div_pos m' (Z.pos m) Hm' ltac:(lia)) as Hq.
  unfold Z.div in Hq.
  destruct (Z.div_eucl m' (Z.pos m)) as [q r].
  apply binary_round_aux_amount. exact Hq.
Qed.

Lemma SFsqrt_amount (a : spec_float) :
  sf_amount a -> sf_amount (SFsqrt prec emax a).
Proof.
  destruct a as [sa|sa| |sa ma ea]; simpl; intros Ha; subst;
    try contradiction; try exact I; try reflexivity.
  unfold SFsqrt_core_binary.
  set (m' := match (ea - 2 * _)%Z with
             | 0%Z => Z.pos ma | Z.pos _ => _ | Z.neg _ => 0%Z end).
  pose proof (Z.sqrt_nonneg m') as Hq.
  rewrite <- Z.sqrtrem_sqrt in Hq.
  destruct (Z.sqrtrem m') as [q r]. cbn [fst] in Hq.
  apply binary_round_aux_amount. exact Hq.
Qed.

(** ** The RMSD of two frames *)

Lemma not_nan_number (v : float) :
  not_nan v = true <-> Prim2SF v <> S754_nan.
Proof.
  unfold not_nan. destruct (Prim2SF v); split; intros H;
    try reflexivity; try discriminate; contradiction.
Qed.

Lemma finite_double_finite (v : float) :
  finite_double v = true <-> sf_finite (Prim2SF v).
Proof.
  unfold finite_double. destruct (Prim2SF v); split; simpl; intros H;
    try reflexivity; try exact I; try discriminate; contradiction.
Qed.

Lemma sf_amount_number (s : spec_float) : sf_amount s -> s <> S754_nan.
Proof. destruct s; simpl; intros H; try discriminate; contradiction. Qed.

(** The square of a difference is a number that is not negative. *)
Lemma float_square_amount (a b : float) :
  not_nan a = true -> finite_double b = true ->
  sf_amount (Prim2SF ((a - b) * (a - b))%float).
Proof.
  intros Ha Hb. rewrite FloatAxioms.mul_spec, FloatAxioms.sub_spec.
  apply SFmul_square_amount. apply SFsub_number.
  - apply not_nan_number. exact Ha.
  - apply finite_double_finite. exact Hb.
Qed.

Lemma float_sqdev_amount (a b : coord float) :
  not_nan (x a) && not_nan (y a) && not_nan (z a) = true ->
  finite_double (x b) && finite_double (y b) && finite_double (z b) = true ->
  sf_amount (Prim2SF (sqdev a b)).
Proof.
  intros Ha Hb.
  apply andb_prop in Ha. destruct Ha as [Ha Haz].
  apply andb_prop in Ha. destruct Ha as [Hax Hay].
  apply andb_prop in Hb. destruct Hb as [Hb Hbz].
  apply andb_prop in Hb. destruct Hb as [Hbx Hby].
  unfold sqdev. cbn [r_add r_sub r_mul float_RealType].
  rewrite FloatAxioms.add_spec. apply SFadd_amount.
  - rewrite FloatAxioms.add_spec.
    apply SFadd_amount; apply float_square_amount; assumption.
  - apply float_square_amount; assumption.
Qed.

Lemma float_sum_sqdev_amount (p : FRAME float) :
  forall (q : FRAME float) (acc : float),
    number_frame p = true -> finite_frame q = true ->
    sf_amount (Prim2SF acc) ->
    sf_amount (Prim2SF (fold_left sqdev_step (combine p q) acc)).
Proof.
  induction p as [|a p IH]; intros [|b q] acc Hp Hq Hacc;
    cbn [combine fold_left]; try exact Hacc.
  cbn [number_frame finite_frame forallb] in Hp, Hq.
  apply andb_prop in Hp. destruct Hp as [Ha Hp].
  apply andb_prop in Hq. destruct Hq as [Hb Hq].
  apply IH; try assumption.
  unfold sqdev_step. cbn [fst snd r_add float_RealType].
  rewrite FloatAxioms.add_spec.
  apply SFadd_amount; [exact Hacc|apply float_sqdev_amount; assumption].
Qed.

(** The RMSD between a frame without NaN and a frame of finite
    coordinates, of the same number of atoms, is not a NaN. *)
Lemma float_RMSFrame_number (frame1 frame2 : FRAME float) :
  List.length frame1 = List.length frame2 ->
  (1 <= Z.of_nat (List.length frame1) < 2 ^ 31)%Z ->
  number_frame frame1 = true -> finite_frame frame2 = true ->
  not_nan (RMSFrame frame1 frame2) = true.
Proof.
  intros Hlen Hn H1 H2. unfold RMSFrame.
  rewrite RMSFrame_loop_same_length by (try lia; assumption).
  apply not_nan_number, sf_amount_number.
  cbn [r_sqrt r_div r_of_Z r_zero float_RealType].
  rewrite FloatAxioms.sqrt_spec. apply SFsqrt_amount.
  rewrite FloatAxioms.div_spec.
  destruct (Z2double_finite (0 + Z.of_nat (List.length frame1)))
    as (m & e & Hz); [lia|].
  rewrite Hz. apply SFdiv_amount.
  apply float_sum_sqdev_amount; try assumption. exact I.
Qed.

(** The RMSDs of frames of finite coordinates to a frame without NaN
    are ordered by [<]. *)
Lemma float_RMSFrame_orders (ref : FRAME float) (frames : list (FRAME float)) :
  (1 <= Z.of_nat (List.length ref) < 2 ^ 31)%Z ->
  number_frame ref = true ->
  Forall (fun f => List.length f = List.length ref) frames ->
  forallb finite_frame frames = true ->
  orders (RT := float_RealType) (map (RMSFrame ref) frames).
Proof.
  intros Hn Href Hlen Hfin. apply float_orders.
  rewrite forallb_forall. intros v Hv.
  apply in_map_iff in Hv. destruct Hv as (f & <- & Hf).
  rewrite Forall_forall in Hlen. rewrite forallb_forall in Hfin.
  apply float_RMSFrame_number; auto. symmetry. auto.
Qed.


(** * The folds on frames of one shape *)

Section FoldFacts.

Context {REAL : Type} {RT : RealType REAL}.

Lemma mean_of_length (frameCount : Z) (frames : list (FRAME REAL)) :
  forall seed,
    Forall (fun f => List.length f = List.length seed) frames ->
    List.length (mean_of frameCount frames seed) = List.length seed.
Proof.
  induction frames as [|f frames IH]; intros seed Hall; [reflexivity|].
  inversion Hall as [|? ? Hf Hrest]; subst.
  unfold mean_of in *. cbn [fold_left].
  rewrite IH.
  - apply AddFrame_length. congruence.
  - rewrite AddFrame_length by congruence. exact Hrest.
Qed.

Lemma mean_fold_same_shape (frames : list (hdr * FRAME REAL)) :
  forall meanFrame frameCount,
    Forall (fun hf => List.length (snd hf) = List.length meanFrame) frames ->
    mean_fold frames meanFrame frameCount
      = (mean_of frameCount (map snd frames) meanFrame, []).
Proof.
  induction frames as [|[h f] frames IH]; intros meanFrame frameCount Hall;
    [reflexivity|].
  inversion Hall as [|? ? Hf Hrest]; subst. cbn [snd] in Hf.
  cbn [mean_fold map snd]. unfold mean_of. cbn [fold_left].
  rewrite AddFrame_same_length by congruence. cbn [fst].
  rewrite IH.
  - reflexivity.
  - rewrite length_map, length_combine.
    rewrite Hf, Nat.min_id. exact Hrest.
Qed.

Lemma mean_of_nth (frameCount : Z) (i : nat) (frames : list (FRAME REAL)) :
  forall seed,
    Forall (fun f => List.length f = List.length seed) frames ->
    i < List.length seed ->
    nth i (mean_of frameCount frames seed) zero_coord =
    mkCoord
      (running_from frameCount (x (nth i seed zero_coord)) (column x i frames))
      (running_from frameCount (y (nth i seed zero_coord)) (column y i frames))
      (running_from frameCount (z (nth i seed zero_coord)) (column z i frames)).
Proof.
  induction frames as [|f frames IH]; intros seed Hall Hi.
  - simpl. destruct (nth i seed zero_coord); reflexivity.
  - inversion Hall as [|? ? Hf Hrest]; subst.
    unfold mean_of in *. cbn [fold_left column map running_from].
    rewrite IH.
    + rewrite AddFrame_nth by (auto; congruence). reflexivity.
    + rewrite AddFrame_length by congruence. exact Hrest.
    + rewrite AddFrame_length by congruence. exact Hi.
Qed.

Lemma nth_zero_seed (i : nat) (frame : FRAME REAL) :
  nth i (map (fun _ => zero_coord) frame) zero_coord = (zero_coord : coord REAL).
Proof.
  revert i. induction frame as [|c frame IH]; intros [|i]; simpl; auto.
Qed.

(** *** The selection *)

Lemma keep_closest_In (ref : FRAME REAL) (frames : list (FRAME REAL)) :
  forall best, In (keep_closest ref frames best) (best :: frames).
Proof.
  induction frames as [|f frames IH]; intros best; simpl; [auto|].
  destruct (RMSFrame ref f <? RMSFrame ref best)%REAL.
  - right. apply IH.
  - destruct (IH best) as [H|H]; auto.
Qed.

Lemma closest_fold_same_shape {RL : RealLaws RT}
    (frames : list (hdr * FRAME REAL)) :
  forall header meanFrame best,
    Forall (fun hf => List.length (snd hf) = List.length meanFrame) frames ->
    meanFrame <> [] ->
    closest_fold frames header meanFrame best false (RMSFrame meanFrame best)
      = (keep_closest meanFrame (map snd frames) best, []).
Proof.
  induction frames as [|[h f] frames IH]; intros header meanFrame best Hall Hne;
    [reflexivity|].
  inversion Hall as [|? ? Hf Hrest]; subst. cbn [snd] in Hf.
  cbn [closest_fold map snd keep_closest].
  rewrite RMSFrame_not_negative by congruence.
  rewrite CopyFrame_id.
  destruct (RMSFrame meanFrame f <? RMSFrame meanFrame best)%REAL.
  - destruct f as [|c f].
    + destruct meanFrame; [congruence|discriminate].
    + apply IH; assumption.
  - apply IH; assumption.
Qed.

Lemma closest_fold_first {RL : RealLaws RT}
    (h : hdr) (f : FRAME REAL) (frames : list (hdr * FRAME REAL))
    (header : hdr) (meanFrame : FRAME REAL) (low : REAL) :
  Forall (fun hf => List.length (snd hf) = List.length meanFrame)
         ((h, f) :: frames) ->
  meanFrame <> [] ->
  closest_fold ((h, f) :: frames) header meanFrame [] true low
    = (keep_closest meanFrame (map snd frames) f, []).
Proof.
  intros Hall Hne.
  inversion Hall as [|? ? Hf Hrest]; subst. cbn [snd] in Hf.
  cbn [closest_fold].
  rewrite RMSFrame_not_negative by congruence.
  rewrite CopyFrame_id.
  destruct f as [|c f].
  - destruct meanFrame; [congruence|discriminate].
  - apply closest_fold_same_shape; assumption.
Qed.

(** With the RMSDs ordered, the frame kept is the first of those no
    other frame is strictly closer than: the frames before it are
    strictly farther. *)
Lemma keep_closest_first_minimum (ref : FRAME REAL)
    (frames : list (FRAME REAL)) :
  forall (before after : list (FRAME REAL)) (best : FRAME REAL),
    orders (map (RMSFrame ref) (before ++ best :: after ++ frames)) ->
    (forall f, In f before ->
       (RMSFrame ref best <? RMSFrame ref f)%REAL = true) ->
    (forall f, In f (before ++ best :: after) ->
       (RMSFrame ref f <? RMSFrame ref best)%REAL = false) ->
    exists before' after',
      (before ++ best :: after ++ frames
         = before' ++ keep_closest ref frames best :: after')%list /\
      (forall f, In f before' ->
         (RMSFrame ref (keep_closest ref frames best) <? RMSFrame ref f)%REAL
           = true) /\
      (forall f, In f (before ++ best :: after ++ frames) ->
         (RMSFrame ref f <? RMSFrame ref (keep_closest ref frames best))%REAL
           = false).
Proof.
  induction frames as [|g frames IH]; intros before after best Hord Hb Ha.
  - exists before, after. simpl. rewrite app_nil_r in *. auto.
  - cbn [keep_closest].
    destruct Hord as (Hirr & Htr & Hinc).
    assert (Hin : forall f, In f (before ++ best :: after ++ g :: frames) ->
                     In (RMSFrame ref f)
                        (map (RMSFrame ref)
                             (before ++ best :: after ++ g :: frames))).
    { intros f Hf. apply in_map. exact Hf. }
    assert (Ig : In g (before ++ best :: after ++ g :: frames)).
    { apply in_or_app. right. right. apply in_or_app. right. left. reflexivity. }
    assert (Ibest : In best (before ++ best :: after ++ g :: frames)).
    { apply in_or_app. right. left. reflexivity. }
    assert (Ipre : forall f, In f (before ++ best :: after) ->
                     In f (before ++ best :: after ++ g :: frames)).
    { intros f Hf. apply in_app_or in Hf. apply in_or_app.
      destruct Hf as [Hf|[Hf|Hf]].
      - left. exact Hf.
      - right. left. exact Hf.
      - right. right. apply in_or_app. left. exact Hf. }
    destruct (RMSFrame ref g <? RMSFrame ref best)%REAL eqn:E.
    + destruct (IH (before ++ best :: after)%list [] g) as (b' & a' & H1 & H2 & H3).
      * rewrite <- app_assoc. simpl. repeat split; assumption.
      * intros f Hf.
        destruct (RMSFrame ref g <? RMSFrame ref f)%REAL eqn:E'; [reflexivity|].
        assert ((RMSFrame ref g <? RMSFrame ref best)%REAL = false).
        { apply (Hinc _ (RMSFrame ref f)); auto. }
        congruence.
      * intros f Hf.
        apply in_app_or in Hf. destruct Hf as [Hf|[Hf|[]]].
        -- destruct (RMSFrame ref f <? RMSFrame ref g)%REAL eqn:E'; [|reflexivity].
           assert ((RMSFrame ref f <? RMSFrame ref best)%REAL = true).
           { apply (Htr _ (RMSFrame ref g)); auto. }
           rewrite Ha in H by exact Hf. discriminate.
        -- subst f. apply Hirr. auto.
      * exists b', a'. rewrite <- app_assoc in H1, H3. simpl in H1, H3.
        repeat split; assumption.
    + destruct (IH before (after ++ [g])%list best) as (b' & a' & H1 & H2 & H3).
      * rewrite <- app_assoc. simpl. repeat split; assumption.
      * exact Hb.
      * intros f Hf. rewrite app_comm_cons, app_assoc in Hf.
        apply in_app_or in Hf. destruct Hf as [Hf|[Hf|[]]].
        -- apply Ha. exact Hf.
        -- subst f. exact E.
      * exists b', a'. rewrite <- app_assoc in H1, H3. simpl in H1, H3.
        repeat split; assumption.
Qed.

(** *** The sum of the RMSDs *)

Lemma rmsd_fold_same_shape {RL : RealLaws RT}
    (frames : list (hdr * FRAME REAL)) :
  forall closestFrame frameCount meanRMSD,
    Forall (fun hf => List.length (snd hf) = List.length closestFrame) frames ->
    rmsd_fold frames closestFrame frameCount meanRMSD
      = ((fold_left (fun acc f => acc + RMSFrame closestFrame f)%REAL
                    (map snd frames) meanRMSD / r_of_Z frameCount)%REAL, []).
Proof.
  induction frames as [|[h f] frames IH];
    intros closestFrame frameCount meanRMSD Hall; [reflexivity|].
  inversion Hall as [|? ? Hf Hrest]; subst. cbn [snd] in Hf.
  cbn [rmsd_fold map snd fold_left].
  rewrite RMSFrame_not_negative by congruence.
  apply IH. exact Hrest.
Qed.

End FoldFacts.

(** * Reading a trajectory *)

Lemma CountFrames_loop_count (recs : list string) :
  forall frameCount,
    (0 <= frameCount < 2 ^ 64)%Z ->
    CountFrames_loop recs frameCount
      = ulong_wrap (frameCount + Z.of_nat (count_headers recs)).
Proof.
  unfold count_headers.
  induction recs as [|r recs IH]; intros frameCount Hr; simpl.
  - unfold ulong_wrap. rewrite Z.add_0_r, Z.mod_small; lia.
  - destruct (is_header r).
    + rewrite IH by (unfold ulong_wrap; apply Z.mod_pos_bound; lia).
      unfold ulong_wrap. rewrite Zplus_mod_idemp_l.
      f_equal. cbn [List.length]. lia.
    + apply IH. exact Hr.
Qed.

Lemma count_headers_app (l1 l2 : list string) :
  count_headers (l1 ++ l2) = count_headers l1 + count_headers l2.
Proof. unfold count_headers. rewrite filter_app, length_app. reflexivity. Qed.

Lemma count_headers_coords (cs : list string) :
  forallb (fun c => negb (is_header c)) cs = true -> count_headers cs = 0.
Proof.
  unfold count_headers. induction cs as [|c cs IH]; simpl; [reflexivity|].
  intros H. apply andb_prop in H. destruct H as [Hc Hcs].
  destruct (is_header c); [discriminate|]. apply IH. exact Hcs.
Qed.

Lemma count_headers_render (tr : trajectory) :
  traj_ok tr = true -> count_headers (render tr) = List.length tr.
Proof.
  induction tr as [|[h cs] tr IH]; simpl; intros Hok; [reflexivity|].
  apply andb_prop in Hok. destruct Hok as [Hf Htr].
  unfold frame_ok in Hf. simpl in Hf.
  apply andb_prop in Hf. destruct Hf as [Hf Hcs].
  apply andb_prop in Hf. destruct Hf as [Hh _].
  change (h :: cs ++ render tr)%list with ([h] ++ cs ++ render tr)%list.
  rewrite !count_headers_app.
  rewrite (count_headers_coords cs Hcs), (IH Htr).
  unfold count_headers. simpl. rewrite Hh. reflexivity.
Qed.

Section TrajectoryFacts.

Context {REAL : Type} {RT : RealType REAL}.
Variable sscanf3 : string -> coord REAL.

(** Coordinate records are gathered into the frame in progress. *)
Lemma scan_frames_coords (cs : list string) :
  forall rest firstEntry header cur,
    forallb (fun c => negb (is_header c)) cs = true ->
    scan_frames sscanf3 (cs ++ rest) firstEntry header cur
      = scan_frames sscanf3 rest firstEntry header
          (cur ++ parse_coords sscanf3 cs).
Proof.
  induction cs as [|c cs IH]; intros rest firstEntry header cur Hcs; simpl.
  - rewrite app_nil_r. reflexivity.
  - simpl in Hcs. apply andb_prop in Hcs. destruct Hcs as [Hc Hcs].
    rewrite is_header_TERMINATE.
    destruct (is_header c); [discriminate|].
    rewrite IH by assumption. rewrite <- app_assoc. reflexivity.
Qed.

Lemma parse_coords_nonempty (cs : list string) :
  negb (Nat.eqb (List.length cs) 0) = true -> parse_coords sscanf3 cs <> [].
Proof. destruct cs; simpl; [discriminate|discriminate]. Qed.

(** After the first frame every frame comes with its own header. *)
Lemma scan_frames_later (tr : trajectory) :
  forall header cur,
    traj_ok tr = true -> cur <> [] ->
    scan_frames sscanf3 (render tr) false header cur
      = (header, cur)
        :: combine (map (fun f => Some (TERMINATE (fst f))) tr)
                   (frames_of sscanf3 tr).
Proof.
  induction tr as [|[h cs] tr IH]; intros header cur Hok Hne.
  - simpl. destruct cur; [congruence|reflexivity].
  - simpl in Hok. apply andb_prop in Hok. destruct Hok as [Hf Htr].
    unfold frame_ok in Hf. simpl in Hf.
    apply andb_prop in Hf. destruct Hf as [Hf Hcs].
    apply andb_prop in Hf. destruct Hf as [Hh Hlen].
    cbn [render flat_map fst snd app scan_frames].
    rewrite is_header_TERMINATE, Hh. cbn [negb].
    destruct cur as [|c0 cur]; [congruence|].
    f_equal.
    change (flat_map (fun f => fst f :: snd f) tr) with (render tr).
    rewrite scan_frames_coords by assumption. cbn [app].
    rewrite (IH _ _ Htr (parse_coords_nonempty cs Hlen)).
    reflexivity.
Qed.

(** The frames a pass reads from a trajectory file are its frames. *)
Lemma read_frames_render (tr : trajectory) :
  traj_ok tr = true ->
  read_frames sscanf3 (render tr)
    = combine (headers_seen tr) (frames_of sscanf3 tr).
Proof.
  intros Hok. rewrite read_frames_scan.
  destruct tr as [|[h cs] tr]; [reflexivity|].
  simpl in Hok. apply andb_prop in Hok. destruct Hok as [Hf Htr].
  unfold frame_ok in Hf. simpl in Hf.
  apply andb_prop in Hf. destruct Hf as [Hf Hcs].
  apply andb_prop in Hf. destruct Hf as [Hh Hlen].
  cbn [render flat_map fst snd app scan_frames].
  rewrite is_header_TERMINATE, Hh. cbn [negb].
  change (flat_map (fun f => fst f :: snd f) tr) with (render tr).
  rewrite scan_frames_coords by assumption. cbn [app].
  rewrite (scan_frames_later tr _ _ Htr (parse_coords_nonempty cs Hlen)).
  reflexivity.
Qed.

Lemma headers_seen_length (tr : trajectory) :
  List.length (headers_seen tr) = List.length tr.
Proof. destruct tr; simpl; [reflexivity|]. rewrite length_map. reflexivity. Qed.

Lemma read_frames_render_frames (tr : trajectory) :
  traj_ok tr = true ->
  map snd (read_frames sscanf3 (render tr)) = frames_of sscanf3 tr.
Proof.
  intros Hok. rewrite read_frames_render by assumption.
  assert (H : forall (A B : Type) (l1 : list A) (l2 : list B),
             List.length l1 = List.length l2 -> map snd (combine l1 l2) = l2).
  { intros A B l1. induction l1 as [|a l1 IH]; intros [|b l2] Hl;
      try discriminate; [reflexivity|].
    simpl. rewrite IH by (simpl in Hl; congruence). reflexivity. }
  apply H. rewrite headers_seen_length. unfold frames_of.
  rewrite length_map. reflexivity.
Qed.

Lemma frames_of_shape (n : nat) (tr : trajectory) :
  uniform n tr = true ->
  Forall (fun f => List.length f = n) (frames_of sscanf3 tr).
Proof.
  induction tr as [|[h cs] tr IH]; simpl; intros Hu; constructor.
  - apply andb_prop in Hu. destruct Hu as [Hn _].
    apply Nat.eqb_eq in Hn. unfold parse_coords. rewrite length_map.
    exact Hn.
  - apply IH. apply andb_prop in Hu. tauto.
Qed.

End TrajectoryFacts.

(** * The run on a trajectory of frames of one shape *)

Section UniformFacts.

Context {REAL : Type} {RT : RealType REAL} {RL : RealLaws RT}.
Variable sscanf3 : string -> coord REAL.

Lemma rmsd_sum_from_not_negative (ref : FRAME REAL)
    (frames : list (FRAME REAL)) :
  forall acc,
    Forall (fun f => List.length f = List.length ref) frames ->
    (acc <? r_zero)%REAL = false ->
    (fold_left (fun a f => a + RMSFrame ref f)%REAL frames acc <? r_zero)%REAL
      = false.
Proof.
  induction frames as [|f frames IH]; intros acc Hall Hacc; [exact Hacc|].
  inversion Hall as [|? ? Hf Hrest]; subst. simpl. apply IH; [exact Hrest|].
  apply r_add_not_negative; [exact Hacc|].
  apply RMSFrame_not_negative. congruence.
Qed.

Lemma Forall_snd_length (k : nat) (l : list (hdr * FRAME REAL)) :
  Forall (fun f : FRAME REAL => List.length f = k) (map snd l) ->
  Forall (fun hf : hdr * FRAME REAL => List.length (snd hf) = k) l.
Proof.
  induction l as [|ab l IH]; simpl; intros H; constructor;
    inversion H; subst; auto.
Qed.

(** The shape facts of a well-formed trajectory with frames. *)
Lemma uniform_shape (n : nat) (tr : trajectory) :
  traj_ok tr = true -> uniform n tr = true -> tr <> [] ->
  1 <= n /\
  List.length (hd [] (frames_of sscanf3 tr)) = n /\
  frames_of sscanf3 tr
    = hd [] (frames_of sscanf3 tr) :: tl (frames_of sscanf3 tr).
Proof.
  intros Hok Hu Hne. destruct tr as [|[h cs] tr]; [congruence|].
  simpl in Hok, Hu.
  apply andb_prop in Hok. destruct Hok as [Hf _].
  apply andb_prop in Hu. destruct Hu as [Hn _].
  unfold frame_ok in Hf. simpl in Hf.
  apply andb_prop in Hf. destruct Hf as [Hf _].
  apply andb_prop in Hf. destruct Hf as [_ Hlen].
  apply Nat.eqb_eq in Hn.
  simpl. unfold parse_coords. rewrite length_map.
  split; [|split; [exact Hn|reflexivity]].
  destruct cs; simpl in *; [discriminate|lia].
Qed.

Lemma trajectory_mean_length (n : nat) (tr : trajectory) :
  traj_ok tr = true -> uniform n tr = true -> tr <> [] ->
  List.length (trajectory_mean sscanf3 tr) = n.
Proof.
  intros Hok Hu Hne.
  destruct (uniform_shape n tr Hok Hu Hne) as (Hn & Hhd & _).
  unfold trajectory_mean. rewrite mean_of_length.
  - rewrite length_map. exact Hhd.
  - rewrite length_map, Hhd. apply frames_of_shape. exact Hu.
Qed.

Lemma trajectory_closest_In (tr : trajectory) :
  tr <> [] ->
  In (trajectory_closest sscanf3 tr) (frames_of sscanf3 tr).
Proof.
  intros Hne. unfold trajectory_closest.
  destruct tr as [|f tr]; [congruence|]. simpl.
  apply keep_closest_In.
Qed.

Lemma trajectory_closest_length (n : nat) (tr : trajectory) :
  traj_ok tr = true -> uniform n tr = true -> tr <> [] ->
  List.length (trajectory_closest sscanf3 tr) = n.
Proof.
  intros Hok Hu Hne.
  pose proof (frames_of_shape sscanf3 n tr Hu) as Hall.
  rewrite Forall_forall in Hall. apply Hall.
  apply trajectory_closest_In. exact Hne.
Qed.

(** The three passes on a trajectory file.  The count is the number
    of frames as long as it fits [ULONG]. *)
Lemma CountFrames_render (tr : trajectory) :
  traj_ok tr = true ->
  (Z.of_nat (List.length tr) < 2 ^ 64)%Z ->
  CountFrames_loop (render tr) 0 = Z.of_nat (List.length tr).
Proof.
  intros Hok Hb. rewrite CountFrames_loop_count by lia.
  rewrite count_headers_render by assumption.
  unfold ulong_wrap. rewrite Z.mod_small; lia.
Qed.

Lemma mean_fold_render (n : nat) (tr : trajectory) (frameCount : Z) :
  traj_ok tr = true -> uniform n tr = true -> tr <> [] ->
  let frames := read_frames sscanf3 (render tr) in
  mean_fold frames (mean_seed frames) frameCount
    = (mean_of frameCount (frames_of sscanf3 tr)
         (map (fun _ => zero_coord) (hd [] (frames_of sscanf3 tr))), []).
Proof.
  intros Hok Hu Hne frames.
  destruct (uniform_shape n tr Hok Hu Hne) as (Hn & Hhd & Hcons).
  assert (Hseed : mean_seed frames
                  = map (fun _ => zero_coord) (hd [] (frames_of sscanf3 tr))).
  { unfold frames. rewrite read_frames_render by assumption.
    destruct tr as [|[h cs] tr]; [congruence|]. reflexivity. }
  rewrite Hseed. rewrite mean_fold_same_shape.
  - unfold frames. rewrite read_frames_render_frames by assumption.
    reflexivity.
  - apply Forall_snd_length. unfold frames.
    rewrite read_frames_render_frames by assumption.
    rewrite length_map, Hhd. apply frames_of_shape. exact Hu.
Qed.

Lemma closest_fold_render (n : nat) (tr : trajectory) (header : hdr)
    (meanFrame : FRAME REAL) :
  traj_ok tr = true -> uniform n tr = true -> tr <> [] ->
  List.length meanFrame = n ->
  closest_fold (read_frames sscanf3 (render tr)) header meanFrame [] true r_zero
    = (keep_closest meanFrame (tl (frames_of sscanf3 tr))
         (hd [] (frames_of sscanf3 tr)), []).
Proof.
  intros Hok Hu Hne Hm.
  destruct (uniform_shape n tr Hok Hu Hne) as (Hn & Hhd & Hcons).
  pose proof (read_frames_render_frames sscanf3 tr Hok) as Hfr.
  pose proof (frames_of_shape sscanf3 n tr Hu) as Hall.
  destruct (read_frames sscanf3 (render tr)) as [|[h f] frames].
  - rewrite Hcons in Hfr. discriminate.
  - rewrite <- Hfr in Hall. rewrite <- Hfr. cbn [map snd hd tl].
    apply (closest_fold_first h f frames header meanFrame r_zero).
    + apply Forall_snd_length. rewrite Hm. exact Hall.
    + destruct meanFrame; [simpl in Hm; lia|discriminate].
Qed.

Lemma rmsd_fold_render (n : nat) (tr : trajectory)
    (closestFrame : FRAME REAL) (frameCount : Z) :
  traj_ok tr = true -> uniform n tr = true ->
  List.length closestFrame = n ->
  rmsd_fold (read_frames sscanf3 (render tr)) closestFrame frameCount r_zero
    = ((rmsd_sum closestFrame (frames_of sscanf3 tr) / r_of_Z frameCount)%REAL,
       []).
Proof.
  intros Hok Hu Hc.
  rewrite rmsd_fold_same_shape.
  - rewrite read_frames_render_frames by assumption. reflexivity.
  - apply Forall_snd_length. rewrite read_frames_render_frames by assumption.
    rewrite Hc. apply frames_of_shape. exact Hu.
Qed.

(** The whole run: status 0, nothing on [stderr], the score on
    [stdout]. *)
Lemma pipeline_uniform (n : nat) (tr : trajectory) :
  traj_ok tr = true -> uniform n tr = true -> tr <> [] ->
  (Z.of_nat (List.length tr) < 2 ^ 63)%Z ->
  pipeline sscanf3 (render tr)
    = mkOutcome 0 [Out_score (trajectory_score sscanf3 tr)] [].
Proof.
  intros Hok Hu Hne Hb.
  destruct (uniform_shape n tr Hok Hu Hne) as (Hn & Hhd & Hcons).
  unfold pipeline, pipeline_on.
  rewrite CountFrames_render by (try assumption; lia).
  replace (Z.of_nat (List.length tr) <? 1)%Z with false
    by (symmetry; apply Z.ltb_ge; destruct tr; [congruence|simpl; lia]).
  rewrite (mean_fold_render n) by assumption.
  fold (trajectory_mean sscanf3 tr).
  pose proof (trajectory_mean_length n tr Hok Hu Hne) as Hml.
  destruct (trajectory_mean sscanf3 tr) as [|m0 mean] eqn:Em;
    [simpl in Hml; lia|].
  rewrite (closest_fold_render n) by assumption.
  rewrite <- Em. fold (trajectory_closest sscanf3 tr).
  pose proof (trajectory_closest_length n tr Hok Hu Hne) as Hcl.
  destruct (trajectory_closest sscanf3 tr) as [|c0 closest] eqn:Ec;
    [simpl in Hcl; lia|].
  rewrite (rmsd_fold_render n) by assumption.
  rewrite <- Ec. fold (trajectory_score sscanf3 tr).
  replace (trajectory_score sscanf3 tr <? r_zero)%REAL with false;
    [reflexivity|].
  symmetry. unfold trajectory_score, rmsd_sum.
  apply r_div_not_negative; [|lia].
  apply rmsd_sum_from_not_negative; [|apply r_zero_not_negative].
  rewrite (trajectory_closest_length n tr Hok Hu Hne).
  apply frames_of_shape. exact Hu.
Qed.

End UniformFacts.

(** * The program as a function of the records *)

Section MainFacts.

Context {REAL : Type} {RT : RealType REAL}.
Variable sscanf3 : string -> coord REAL.

(** The run on an open file never runs out of fuel and is the pipeline
    of folds over the frames read. *)
Lemma main_opened_pipeline (recs : list string) :
  main_opened sscanf3 (mkFILE recs recs) = Some (pipeline sscanf3 recs).
Proof.
  unfold main_opened, pipeline, pipeline_on, CountFrames, initial_world.
  cbn [initial_world w_in f_unread].
  set (N := CountFrames_loop recs 0).
  set (w0 := w_rewind (mkWorld (mkFILE recs recs) EmptyString true [])).
  cbv beta iota zeta.
  destruct (N <? 1)%Z; [reflexivity|].
  assert (Hr0 : rewound w0) by reflexivity.
  destruct (CalculateMeanCoords_spec sscanf3 w0 N Hr0)
    as (w1 & He1 & [Hf1 Hs1] & Hr1).
  cbn [w0 w_rewind w_in rewind f_records w_stderr] in He1, Hf1, Hs1.
  rewrite He1. clear He1.
  destruct (mean_fold (read_frames sscanf3 recs)
              (mean_seed (read_frames sscanf3 recs)) N) as [meanFrame msgs1].
  cbn [fst snd] in *. cbn [app] in Hs1.
  destruct meanFrame as [|m meanFrame].
  { unfold Die, Msg. cbn [w_stderr]. rewrite Hs1. reflexivity. }
  destruct (FindClosestToMean_spec sscanf3 w1 (m :: meanFrame) None Hr1)
    as (w2 & He2 & [Hf2 Hs2] & Hr2).
  rewrite Hf1 in He2, Hs2, Hr2. rewrite He2. clear He2.
  destruct (closest_fold (read_frames sscanf3 recs) None (m :: meanFrame) []
              true r_zero) as [closestFrame msgs2].
  cbn [fst snd] in *.
  destruct closestFrame as [|c closestFrame].
  { unfold Die, Msg. cbn [w_stderr]. rewrite Hs2, Hs1. reflexivity. }
  assert (Hr2' : rewound w2) by (apply Hr2; discriminate).
  destruct (CalculateMeanRMSD_spec sscanf3 w2 (c :: closestFrame) N Hr2')
    as (w3 & He3 & [Hf3 Hs3]).
  rewrite Hf2, Hf1 in He3, Hs3. rewrite He3. clear He3.
  destruct (rmsd_fold (read_frames sscanf3 recs) (c :: closestFrame) N r_zero)
    as [meanRMSD msgs3].
  cbn [fst snd] in *.
  assert (Hs : w_stderr w3 = (msgs1 ++ msgs2 ++ msgs3)%list).
  { rewrite Hs3, Hs2, Hs1. rewrite app_assoc. reflexivity. }
  destruct (meanRMSD <? r_zero)%REAL.
  - unfold Die, Msg. cbn [w_stderr]. rewrite Hs. reflexivity.
  - rewrite Hs. reflexivity.
Qed.

(** A run either opens nothing and ends silently, or is the pipeline on
    the records of the file named by the first argument. *)
Lemma main_pipeline (fs : string -> option string) (argv : list string)
    (inFile text : string) :
  snd (ParseCmdLine argv EmptyString) = inFile ->
  inFile <> EmptyString ->
  fs inFile = Some text ->
  main sscanf3 fs argv = Some (pipeline sscanf3 (fgets_records text)).
Proof.
  intros Hp Hne Hfs. unfold main.
  destruct (ParseCmdLine argv EmptyString) as [ok name] eqn:E.
  assert (ok = true).
  { unfold ParseCmdLine in E.
    destruct argv as [|a0 [|a1 argv]]; inversion E; reflexivity. }
  subst ok. simpl in Hp. subst name.
  unfold fopen. destruct inFile as [|c inFile]; [congruence|].
  rewrite Hfs. apply main_opened_pipeline.
Qed.

(** The program terminates on every file system and argument list. *)
Lemma main_returns (fs : string -> option string) (argv : list string) :
  exists o, main sscanf3 fs argv = Some o.
Proof.
  unfold main. destruct (ParseCmdLine argv EmptyString) as [ok name].
  destruct ok; [|eauto].
  destruct (fopen fs name) as [fp|] eqn:E; [|eauto].
  unfold fopen in E. destruct name; [discriminate|].
  destruct (fs (String a name)); inversion E.
  rewrite main_opened_pipeline. eauto.
Qed.

End MainFacts.

(** ** Trajectory files as text *)

Lemma render_with_newlines (tr : trajectory) :
  render (with_newlines tr) = map with_newline (render tr).
Proof.
  unfold render, with_newlines.
  induction tr as [|f tr IH]; simpl; [reflexivity|].
  rewrite map_app, IH. reflexivity.
Qed.

(** The run on the text of a trajectory whose lines fit is the body of
    [main] on the records of the trajectory. *)
Lemma main_on_trajectory_text {REAL : Type} {RT : RealType REAL}
    (sscanf3 : string -> coord REAL) (fs : string -> option string)
    (prog inFile : string) (rest : list string) (tr : trajectory) :
  inFile <> EmptyString ->
  fs inFile = Some (text_of_lines (render tr)) ->
  forallb line_ok (render tr) = true ->
  main sscanf3 fs (prog :: inFile :: rest)
    = main_opened sscanf3
        (mkFILE (render (with_newlines tr)) (render (with_newlines tr))).
Proof.
  intros Hne Hfs Hok. unfold main. cbn [ParseCmdLine].
  unfold fopen. destruct inFile as [|c inFile]; [congruence|].
  rewrite Hfs, fgets_records_lines by exact Hok.
  rewrite render_with_newlines. reflexivity.
Qed.

(** * A header line directly after a header line *)

Section AdjacentHeaders.

Context {REAL : Type} {RT : RealType REAL}.
Variable sscanf3 : string -> coord REAL.

(** Two header records in a row end the scan at the first of them, as
    the end of the file would, unless the reader is still waiting for
    its first header with coordinates already gathered. *)
Lemma scan_frames_adjacent_headers (pre : list string) :
  forall (h1 h2 : string) (post : list string) (firstEntry : bool)
         (header : hdr) (cur : FRAME REAL),
    is_header h1 = true -> is_header h2 = true ->
    firstEntry = false \/ existsb is_header pre = true
      \/ (pre = [] /\ cur = []) ->
    scan_frames sscanf3 (pre ++ h1 :: h2 :: post) firstEntry header cur
      = scan_frames sscanf3 (pre ++ [h1]) firstEntry header cur.
Proof.
  induction pre as [|r pre IH];
    intros h1 h2 post firstEntry header cur H1 H2 Hpre.
  - cbn [app scan_frames]. rewrite !is_header_TERMINATE, H1, ?H2.
    destruct firstEntry; cbn [negb].
    + destruct Hpre as [Hp|[Hp|[_ Hc]]]; try discriminate.
      subst cur. reflexivity.
    + destruct cur as [|c cur]; reflexivity.
  - cbn [app scan_frames]. rewrite is_header_TERMINATE.
    destruct (is_header r) eqn:Hr.
    + destruct firstEntry; cbn [negb].
      * apply IH; auto.
      * destruct cur as [|c cur]; [reflexivity|].
        f_equal. apply IH; auto.
    + apply IH; auto.
      destruct Hpre as [Hp|[Hp|[Hp _]]]; auto; [|discriminate].
      simpl in Hp. rewrite Hr in Hp. auto.
Qed.

Lemma read_frames_adjacent_headers (pre : list string) (h1 h2 : string)
    (post : list string) :
  is_header h1 = true -> is_header h2 = true ->
  pre = [] \/ existsb is_header pre = true ->
  read_frames sscanf3 (pre ++ h1 :: h2 :: post)
    = read_frames sscanf3 (pre ++ [h1]).
Proof.
  intros H1 H2 Hpre. rewrite !read_frames_scan.
  apply scan_frames_adjacent_headers; auto.
  destruct Hpre; auto.
Qed.

(** With a header pending, a header record as the next record makes
    [ReadFrame] return [NULL]. *)
Lemma ReadFrame_empty_frame (w : world) (header : hdr) (h2 : string)
    (post : list string) :
  f_unread (w_in w) = h2 :: post -> w_firstEntry w = false ->
  is_header h2 = true ->
  fst (fst (ReadFrame sscanf3 w header)) = [].
Proof.
  intros Hu Hf H2. unfold ReadFrame. rewrite Hu, Hf.
  cbn [ReadFrame_loop]. rewrite is_header_TERMINATE, H2. reflexivity.
Qed.

End AdjacentHeaders.

(** * A frame of another shape *)

Section ShapeMismatch.

Context {REAL : Type} {RT : RealType REAL}.
Variable sscanf3 : string -> coord REAL.




End ShapeMismatch.

(** * Trajectories of identical frames *)

Section IdenticalFrames.

Context {REAL : Type} {RT : RealType REAL}.
Variable sscanf3 : string -> coord REAL.

Lemma all_frames_are_In (frame : FRAME REAL) (tr : trajectory) :
  all_frames_are sscanf3 frame tr ->
  forall f, In f (frames_of sscanf3 tr) -> f = frame.
Proof.
  unfold all_frames_are, frames_of. intros Hall f Hf.
  apply in_map_iff in Hf. destruct Hf as (fr & <- & Hin).
  rewrite Forall_forall in Hall. apply Hall. exact Hin.
Qed.

(** The frame kept is the one frame there is. *)
Lemma identical_closest (frame : FRAME REAL) (tr : trajectory) :
  all_frames_are sscanf3 frame tr -> tr <> [] ->
  trajectory_closest sscanf3 tr = frame.
Proof.
  intros Hall Hne. apply (all_frames_are_In frame tr Hall).
  apply trajectory_closest_In. exact Hne.
Qed.

Lemma identical_uniform (frame : FRAME REAL) (tr : trajectory) :
  all_frames_are sscanf3 frame tr -> uniform (List.length frame) tr = true.
Proof.
  unfold all_frames_are, uniform. intros Hall.
  apply forallb_forall. intros f Hf.
  rewrite Forall_forall in Hall. specialize (Hall f Hf).
  apply Nat.eqb_eq. rewrite <- Hall. unfold parse_coords.
  rewrite length_map. reflexivity.
Qed.

End IdenticalFrames.

(** ** binary64: the score is exactly zero *)

Lemma float_sqdev_self (c : coord float) :
  finite_double (x c) && finite_double (y c) && finite_double (z c) = true ->
  sqdev c c = 0%float.
Proof.
  intros H. apply andb_prop in H. destruct H as [H Hz].
  apply andb_prop in H. destruct H as [Hx Hy].
  unfold sqdev. simpl. rewrite !sub_self by assumption. reflexivity.
Qed.

Lemma float_sum_sqdev_self (frame : FRAME float) :
  finite_frame frame = true ->
  fold_left sqdev_step (combine frame frame) 0%float = 0%float.
Proof.
  induction frame as [|c frame IH]; intros Hf; [reflexivity|].
  simpl in Hf. apply andb_prop in Hf. destruct Hf as [Hc Hf].
  cbn [combine fold_left]. unfold sqdev_step at 2. cbn [fst snd].
  rewrite float_sqdev_self by exact Hc.
  change (r_add 0%float 0%float) with 0%float. apply IH. exact Hf.
Qed.

Lemma float_RMSFrame_self (frame : FRAME float) :
  finite_frame frame = true ->
  1 <= List.length frame ->
  (Z.of_nat (List.length frame) < 2 ^ 31)%Z ->
  RMSFrame frame frame = 0%float.
Proof.
  intros Hf Hn Hb. rewrite (RMSFrame_formula frame frame eq_refl Hb).
  unfold rmsd_formula, sum_sqdev.
  change (@r_zero float float_RealType) with 0%float.
  rewrite float_sum_sqdev_self by exact Hf.
  simpl. rewrite zero_div_Z2double by lia. reflexivity.
Qed.

Lemma float_rmsd_sum_zero (ref : FRAME float) (frames : list (FRAME float)) :
  (forall f, In f frames -> f = ref) -> RMSFrame ref ref = 0%float ->
  rmsd_sum ref frames = 0%float.
Proof.
  intros Hall H0. unfold rmsd_sum.
  change (@r_zero float float_RealType) with 0%float.
  induction frames as [|f frames IH]; [reflexivity|].
  cbn [fold_left]. rewrite (Hall f) by (left; reflexivity). rewrite H0.
  change (r_add 0%float 0%float) with 0%float.
  apply IH. intros g Hg. apply Hall. right. exact Hg.
Qed.

Lemma float_identical_score (sscanf3 : string -> coord float)
    (frame : FRAME float) (tr : trajectory) :
  all_frames_are sscanf3 frame tr -> tr <> [] ->
  finite_frame frame = true ->
  1 <= List.length frame ->
  (Z.of_nat (List.length frame) < 2 ^ 31)%Z ->
  (Z.of_nat (List.length tr) < 2 ^ 63)%Z ->
  trajectory_score sscanf3 tr = 0%float.
Proof.
  intros Hall Hne Hf Hn Hb HN. unfold trajectory_score.
  rewrite (identical_closest sscanf3 frame tr Hall Hne).
  rewrite float_rmsd_sum_zero.
  - apply (zero_div_Z2double (Z.of_nat (List.length tr))).
    destruct tr; [congruence|cbn [List.length] in *; lia].
  - apply all_frames_are_In. exact Hall.
  - apply float_RMSFrame_self; assumption.
Qed.

(** ** Exact arithmetic: the mean frame is the frame *)

Lemma Rsum_constant {A : Type} (g : A -> R) (v : R) (l : list A) :
  (forall a, In a l -> g a = v) ->
  Rsum (map g l) = (IZR (Z.of_nat (List.length l)) * v)%R.
Proof.
  intros Hall. induction l as [|a l IH].
  - unfold Rsum. simpl. lra.
  - cbn [map List.length]. rewrite Nat2Z.inj_succ, succ_IZR.
    unfold Rsum in *. cbn [fold_right].
    rewrite IH by (intros b Hb; apply Hall; right; exact Hb).
    rewrite (Hall a) by (left; reflexivity). lra.
Qed.

Lemma R_running_mean_constant (sel : coord R -> R) (i : nat) (frame : FRAME R)
    (frames : list (FRAME R)) :
  (forall f, In f frames -> f = frame) -> frames <> [] ->
  running_from (RT := R_RealType) (Z.of_nat (List.length frames)) 0%R
               (column sel i frames)
    = sel (nth i frame zero_coord).
Proof.
  intros Hall Hne. rewrite R_running_from. unfold column.
  rewrite (Rsum_constant _ (sel (nth i frame zero_coord))).
  - assert (IZR (Z.of_nat (List.length frames)) <> 0%R).
    { apply not_0_IZR. destruct frames; [congruence|simpl; lia]. }
    assert (Hx : forall c v : R, c <> 0%R -> (0 + c * v / c)%R = v)
      by (intros; field; assumption).
    apply Hx. exact H.
  - intros f Hf. rewrite (Hall f Hf). reflexivity.
Qed.

Lemma R_identical_mean (sscanf3 : string -> coord R) (frame : FRAME R)
    (tr : trajectory) :
  all_frames_are sscanf3 frame tr -> tr <> [] ->
  trajectory_mean sscanf3 tr = frame.
Proof.
  intros Hall Hne.
  pose proof (all_frames_are_In sscanf3 frame tr Hall) as Hin.
  assert (Hfr : frames_of sscanf3 tr <> []).
  { destruct tr; [congruence|discriminate]. }
  assert (Hhd : hd [] (frames_of sscanf3 tr) = frame).
  { apply Hin. destruct (frames_of sscanf3 tr); [congruence|left; reflexivity]. }
  assert (Hshape : Forall (fun f => List.length f
                    = List.length (map (fun _ : coord R => zero_coord)
                                       (hd [] (frames_of sscanf3 tr))))
                          (frames_of sscanf3 tr)).
  { apply Forall_forall. intros f Hf. rewrite length_map, Hhd, (Hin f Hf).
    reflexivity. }
  unfold trajectory_mean.
  apply (nth_ext _ _ zero_coord zero_coord).
  - rewrite mean_of_length by exact Hshape. rewrite length_map, Hhd.
    reflexivity.
  - intros i Hi. rewrite mean_of_length in Hi by exact Hshape.
    rewrite mean_of_nth by assumption.
    rewrite nth_zero_seed.
    replace (List.length tr) with (List.length (frames_of sscanf3 tr))
      by (unfold frames_of; apply length_map).
    change (x (zero_coord (RT := R_RealType))) with 0%R.
    change (y (zero_coord (RT := R_RealType))) with 0%R.
    change (z (zero_coord (RT := R_RealType))) with 0%R.
    rewrite !(R_running_mean_constant _ i frame) by assumption.
    destruct (nth i frame zero_coord); reflexivity.
Qed.

Lemma R_identical_score (sscanf3 : string -> coord R) (frame : FRAME R)
    (tr : trajectory) :
  all_frames_are sscanf3 frame tr -> tr <> [] ->
  trajectory_score sscanf3 tr = 0%R.
Proof.
  intros Hall Hne. unfold trajectory_score.
  rewrite (identical_closest sscanf3 frame tr Hall Hne).
  unfold rmsd_sum. simpl.
  rewrite (Rsum_fold_left (RMSFrame frame)).
  rewrite (Rsum_constant _ 0%R).
  - unfold Rdiv. ring.
  - intros f Hf.
    rewrite (all_frames_are_In sscanf3 frame tr Hall f Hf).
    apply R_RMSFrame_self.
Qed.

(** * Reordering the frames *)

Lemma forallb_Permutation {A : Type} (p : A -> bool) (l l' : list A) :
  Permutation l l' -> forallb p l = forallb p l'.
Proof.
  induction 1 as [|a l l' Hp IH|a b l|l l' l'' H1 IH1 H2 IH2]; simpl.
  - reflexivity.
  - rewrite IH. reflexivity.
  - destruct (p a), (p b); reflexivity.
  - congruence.
Qed.

Lemma zero_seed_shape {REAL : Type} {RT : RealType REAL}
    (f g : FRAME REAL) :
  List.length f = List.length g ->
  map (fun _ => zero_coord) f = map (fun _ : coord REAL => zero_coord) g.
Proof.
  revert g. induction f as [|a f IH]; intros [|b g] H; try discriminate;
    [reflexivity|].
  simpl. rewrite (IH g) by (simpl in H; congruence). reflexivity.
Qed.

Section Reordering.

Variable sscanf3 : string -> coord R.

Lemma frames_of_Permutation (tr tr' : trajectory) :
  Permutation tr tr' ->
  Permutation (frames_of sscanf3 tr) (frames_of sscanf3 tr').
Proof. intros H. unfold frames_of. apply Permutation_map. exact H. Qed.

Lemma Permutation_nonempty {A : Type} (l l' : list A) :
  Permutation l l' -> l <> [] -> l' <> [].
Proof.
  intros Hp Hne Hl'. subst l'. apply Permutation_sym in Hp.
  apply Permutation_nil in Hp. contradiction.
Qed.

(** In exact arithmetic the mean frame does not depend on the order of
    the frames. *)
Lemma R_mean_Permutation (n : nat) (tr tr' : trajectory) :
  Permutation tr tr' ->
  traj_ok tr = true -> uniform n tr = true -> tr <> [] ->
  trajectory_mean sscanf3 tr' = trajectory_mean sscanf3 tr.
Proof.
  intros Hp Hok Hu Hne.
  assert (Hok' : traj_ok tr' = true)
    by (unfold traj_ok; rewrite <- (forallb_Permutation _ tr tr' Hp); exact Hok).
  assert (Hu' : uniform n tr' = true)
    by (unfold uniform; rewrite <- (forallb_Permutation _ tr tr' Hp); exact Hu).
  pose proof (Permutation_nonempty tr tr' Hp Hne) as Hne'.
  destruct (uniform_shape sscanf3 n tr Hok Hu Hne) as (Hn & Hhd & _).
  destruct (uniform_shape sscanf3 n tr' Hok' Hu' Hne') as (_ & Hhd' & _).
  pose proof (trajectory_mean_length sscanf3 n tr Hok Hu Hne) as Hl.
  pose proof (trajectory_mean_length sscanf3 n tr' Hok' Hu' Hne') as Hl'.
  apply (nth_ext _ _ zero_coord zero_coord); [congruence|].
  intros i Hi. rewrite Hl' in Hi.
  unfold trajectory_mean.
  rewrite !mean_of_nth;
    try (rewrite length_map; lia);
    try (rewrite length_map; first [rewrite Hhd|rewrite Hhd'];
         apply frames_of_shape; assumption).
  rewrite !nth_zero_seed.
  rewrite <- (Permutation_length Hp).
  rewrite !R_running_from.
  pose proof (frames_of_Permutation tr tr' Hp) as Hpf.
  rewrite (Rsum_Permutation (column x i (frames_of sscanf3 tr'))
             (column x i (frames_of sscanf3 tr)))
    by (apply Permutation_sym, Permutation_map; exact Hpf).
  rewrite (Rsum_Permutation (column y i (frames_of sscanf3 tr'))
             (column y i (frames_of sscanf3 tr)))
    by (apply Permutation_sym, Permutation_map; exact Hpf).
  rewrite (Rsum_Permutation (column z i (frames_of sscanf3 tr'))
             (column z i (frames_of sscanf3 tr)))
    by (apply Permutation_sym, Permutation_map; exact Hpf).
  reflexivity.
Qed.

(** The frame kept is one that no frame is strictly closer than. *)
Lemma R_closest_minimal (tr : trajectory) (ref : FRAME R) :
  tr <> [] ->
  let closest := keep_closest ref (tl (frames_of sscanf3 tr))
                   (hd [] (frames_of sscanf3 tr)) in
  In closest (frames_of sscanf3 tr) /\
  forall h, In h (frames_of sscanf3 tr) ->
    (RMSFrame ref h <? RMSFrame ref closest)%REAL = false.
Proof.
  intros Hne closest. unfold closest.
  destruct tr as [|f0 tr]; [congruence|].
  cbn [frames_of map hd tl].
  fold (frames_of sscanf3 tr).
  split; [apply keep_closest_In|].
  destruct (keep_closest_first_minimum ref (frames_of sscanf3 tr) [] []
              (parse_coords sscanf3 (snd f0))) as (b & a & _ & _ & H3).
  - apply R_orders.
  - intros f [].
  - intros f [Hf|[]]. subst f.
    destruct (R_orders [RMSFrame ref (parse_coords sscanf3 (snd f0))])
      as (Hirr & _).
    apply Hirr. left. reflexivity.
  - exact H3.
Qed.

Lemma R_closest_Permutation (n : nat) (tr tr' : trajectory) :
  Permutation tr tr' ->
  traj_ok tr = true -> uniform n tr = true -> tr <> [] ->
  nearest_unique (trajectory_mean sscanf3 tr) (frames_of sscanf3 tr) ->
  trajectory_closest sscanf3 tr' = trajectory_closest sscanf3 tr.
Proof.
  intros Hp Hok Hu Hne Huniq.
  pose proof (Permutation_nonempty tr tr' Hp Hne) as Hne'.
  pose proof (frames_of_Permutation tr tr' Hp) as Hpf.
  unfold trajectory_closest.
  rewrite (R_mean_Permutation n tr tr' Hp Hok Hu Hne).
  destruct (R_closest_minimal tr (trajectory_mean sscanf3 tr) Hne) as [Hi Hm].
  destruct (R_closest_minimal tr' (trajectory_mean sscanf3 tr) Hne')
    as [Hi' Hm'].
  apply Huniq.
  - apply (Permutation_in _ (Permutation_sym Hpf)). exact Hi'.
  - exact Hi.
  - intros h Hh. apply Hm'. apply (Permutation_in _ Hpf). exact Hh.
  - exact Hm.
Qed.

Lemma R_score_Permutation (n : nat) (tr tr' : trajectory) :
  Permutation tr tr' ->
  traj_ok tr = true -> uniform n tr = true -> tr <> [] ->
  nearest_unique (trajectory_mean sscanf3 tr) (frames_of sscanf3 tr) ->
  trajectory_score sscanf3 tr' = trajectory_score sscanf3 tr.
Proof.
  intros Hp Hok Hu Hne Huniq. unfold trajectory_score.
  rewrite (R_closest_Permutation n tr tr' Hp Hok Hu Hne Huniq).
  rewrite <- (Permutation_length Hp).
  rewrite (R_rmsd_sum_Permutation _ (frames_of sscanf3 tr')
             (frames_of sscanf3 tr))
    by (apply Permutation_sym, frames_of_Permutation; exact Hp).
  reflexivity.
Qed.

End Reordering.
(** * Text, lines and records *)

Lemma TERMINATE_no_newline (l : string) :
  has_newline l = false -> TERMINATE l = l.
Proof.
  induction l as [|c l IH]; simpl; [reflexivity|].
  destruct (Ascii.eqb c newline); simpl; [discriminate|].
  intros H. rewrite IH by exact H. reflexivity.
Qed.

Lemma TERMINATE_with_newline (l : string) :
  has_newline l = false -> TERMINATE (with_newline l) = l.
Proof.
  unfold with_newline.
  induction l as [|c l IH]; simpl.
  - intros _. reflexivity.
  - destruct (Ascii.eqb c newline); simpl; [discriminate|].
    intros H. rewrite IH by exact H. reflexivity.
Qed.

Lemma line_ok_no_newline (l : string) :
  line_ok l = true -> has_newline l = false.
Proof.
  unfold line_ok. intros H. apply andb_prop in H. destruct H as [H _].
  apply negb_true_iff in H. exact H.
Qed.

Lemma forallb_render (p : string -> bool) (tr : trajectory) :
  forallb p (render tr) = true ->
  Forall (fun f => p (fst f) = true /\ forallb p (snd f) = true) tr.
Proof.
  induction tr as [|[h cs] tr IH]; simpl; intros H; constructor.
  - apply andb_prop in H. destruct H as [Hh H].
    rewrite forallb_app in H. apply andb_prop in H. tauto.
  - apply IH. apply andb_prop in H. destruct H as [_ H].
    rewrite forallb_app in H. apply andb_prop in H. tauto.
Qed.


Lemma traj_ok_with_newlines (tr : trajectory) :
  traj_ok (with_newlines tr) = traj_ok tr.
Proof.
  unfold traj_ok, with_newlines.
  induction tr as [|[h cs] tr IH]; simpl; [reflexivity|].
  rewrite IH. f_equal. unfold frame_ok. simpl.
  rewrite is_header_with_newline, length_map. f_equal.
  clear. induction cs as [|c cs IH]; simpl; [reflexivity|].
  rewrite is_header_with_newline, IH. reflexivity.
Qed.


Lemma uniform_with_newlines (n : nat) (tr : trajectory) :
  uniform n (with_newlines tr) = uniform n tr.
Proof.
  unfold uniform, with_newlines.
  induction tr as [|[h cs] tr IH]; simpl; [reflexivity|].
  rewrite IH, length_map. reflexivity.
Qed.

Section TextFacts.

Context {REAL : Type} {RT : RealType REAL}.
Variable sscanf3 : string -> coord REAL.

Lemma parse_coords_with_newline (cs : list string) :
  forallb line_ok cs = true ->
  parse_coords sscanf3 (map with_newline cs) = parse_coords sscanf3 cs.
Proof.
  unfold parse_coords. induction cs as [|c cs IH]; simpl; [reflexivity|].
  intros H. apply andb_prop in H. destruct H as [Hc Hcs].
  rewrite IH by exact Hcs.
  rewrite TERMINATE_with_newline, TERMINATE_no_newline
    by (apply line_ok_no_newline; exact Hc).
  reflexivity.
Qed.

Lemma frames_of_with_newlines (tr : trajectory) :
  forallb line_ok (render tr) = true ->
  frames_of sscanf3 (with_newlines tr) = frames_of sscanf3 tr.
Proof.
  intros H. apply forallb_render in H.
  unfold frames_of, with_newlines. rewrite map_map.
  induction H as [|[h cs] tr [_ Hcs] _ IH]; cbn [map fst snd]; [reflexivity|].
  f_equal; [apply parse_coords_with_newline; exact Hcs|exact IH].
Qed.

Lemma trajectory_score_with_newlines (tr : trajectory) :
  forallb line_ok (render tr) = true ->
  trajectory_score sscanf3 (with_newlines tr) = trajectory_score sscanf3 tr.
Proof.
  intros H. unfold trajectory_score, trajectory_closest, trajectory_mean.
  rewrite frames_of_with_newlines by exact H.
  unfold with_newlines. rewrite length_map. reflexivity.
Qed.

End TextFacts.


Lemma map_snd_combine_length {A B : Type} (l1 : list A) :
  forall l2 : list B,
    List.length l1 = List.length l2 -> map snd (combine l1 l2) = l2.
Proof.
  induction l1 as [|a l1 IH]; intros [|b l2] Hl; try discriminate;
    [reflexivity|].
  simpl. rewrite IH by (simpl in Hl; congruence). reflexivity.
Qed.

Lemma string_length_append (a b : string) :
  String.length (a ++ b)%string = String.length a + String.length b.
Proof. induction a as [|c a IH]; simpl; [reflexivity|]. rewrite IH. reflexivity. Qed.

Lemma string_append_nil_r (a : string) : (a ++ EmptyString)%string = a.
Proof. induction a as [|c a IH]; simpl; [reflexivity|]. rewrite IH. reflexivity. Qed.

Lemma has_newline_append (a b : string) :
  has_newline (a ++ b)%string = has_newline a || has_newline b.
Proof.
  induction a as [|c a IH]; simpl; [reflexivity|].
  rewrite IH. apply orb_assoc.
Qed.

Lemma fgets_records_aux_partition (s : string) :
  forall (room : nat) (cur : string),
    has_newline cur = false ->
    String.length cur + room = MAXBUFF - 2 -> 1 <= room ->
    fold_right String.append EmptyString (fgets_records_aux room cur s)
      = (cur ++ s)%string /\
    Forall (fun r => 1 <= String.length r <= MAXBUFF - 2 /\
                     (r = TERMINATE r \/ r = with_newline (TERMINATE r)))
           (fgets_records_aux room cur s).
Proof.
  induction s as [|c s IH]; intros room cur Hcur Hlen Hroom;
    cbn [fgets_records_aux].
  - destruct cur as [|c0 cur].
    + split; [reflexivity|constructor].
    + split; [cbn [fold_right]; rewrite !string_append_nil_r; reflexivity|].
      constructor; [|constructor]. split.
      * simpl in *. lia.
      * left. symmetry. apply TERMINATE_no_newline. exact Hcur.
  - assert (Hstep : ((cur ++ String c EmptyString) ++ s)%string
                    = (cur ++ String c s)%string)
      by (rewrite string_append_assoc; reflexivity).
    assert (Hl : String.length (cur ++ String c EmptyString)%string
                 = S (String.length cur))
      by (rewrite string_length_append; simpl; lia).
    assert (Hfresh : fold_right String.append EmptyString
                       (fgets_records_aux (MAXBUFF - 2) EmptyString s) = s /\
                     Forall (fun r => 1 <= String.length r <= MAXBUFF - 2 /\
                               (r = TERMINATE r \/ r = with_newline (TERMINATE r)))
                            (fgets_records_aux (MAXBUFF - 2) EmptyString s)).
    { apply (IH (MAXBUFF - 2) EmptyString); [reflexivity|reflexivity|].
      unfold MAXBUFF. lia. }
    destruct Hfresh as [Hf1 Hf2].
    destruct (Ascii.eqb c newline) eqn:Hc.
    + split.
      * cbn [fold_right]. rewrite Hf1. exact Hstep.
      * constructor; [|exact Hf2]. split; [lia|].
        right. apply Ascii.eqb_eq in Hc. subst c.
        fold (with_newline cur). rewrite TERMINATE_with_newline by exact Hcur.
        reflexivity.
    + assert (Hcur' : has_newline (cur ++ String c EmptyString)%string = false).
      { rewrite has_newline_append, Hcur. simpl. rewrite Hc. reflexivity. }
      destruct room as [|[|r]]; [lia| |].
      * split.
        -- cbn [fold_right]. rewrite Hf1. exact Hstep.
        -- constructor; [|exact Hf2]. split; [lia|].
           left. symmetry. apply TERMINATE_no_newline. exact Hcur'.
      * destruct (IH (S r) (cur ++ String c EmptyString)%string Hcur')
          as [H1 H2]; [lia|lia|].
        split; [rewrite H1; exact Hstep|exact H2].
Qed.


Lemma fgets_records_aux_full (a : string) :
  forall (room : nat) (cur rest : string),
    has_newline a = false -> String.length a = room -> 1 <= room ->
    fgets_records_aux room cur (a ++ rest)%string
      = (cur ++ a)%string :: fgets_records_aux (MAXBUFF - 2) EmptyString rest.
Proof.
  induction a as [|c a IH]; intros room cur rest Ha Hlen Hroom.
  - simpl in Hlen. lia.
  - cbn [String.append fgets_records_aux].
    cbn [has_newline] in Ha. apply orb_false_elim in Ha.
    destruct Ha as [Hc Ha]. rewrite Hc.
    cbn [String.length] in Hlen.
    destruct room as [|[|r]]; [lia| |].
    + destruct a; [|simpl in Hlen; lia]. reflexivity.
    + rewrite (IH (S r)) by (try assumption; lia).
      rewrite string_append_assoc. reflexivity.
Qed.

(** * How a run can end *)

Section OutcomeFacts.

Context {REAL : Type} {RT : RealType REAL} {RL : RealLaws RT}.
Variable sscanf3 : string -> coord REAL.




End OutcomeFacts.

Section ReaderEdges.

Context {REAL : Type} {RT : RealType REAL}.
Variable sscanf3 : string -> coord REAL.

Lemma scan_frames_count (recs : list string) :
  forall firstEntry header cur,
    List.length (scan_frames sscanf3 recs firstEntry header cur)
      <= if firstEntry then Nat.max 1 (count_headers recs)
         else 1 + count_headers recs.
Proof.
  induction recs as [|record recs IH]; intros firstEntry header cur;
    cbn [scan_frames].
  - destruct cur, firstEntry; simpl; lia.
  - assert (Hc : count_headers (record :: recs)
                 = (if is_header (TERMINATE record) then 1 else 0)
                   + count_headers recs).
    { unfold count_headers. cbn [filter]. rewrite is_header_TERMINATE.
      destruct (is_header record); reflexivity. }
    rewrite Hc. clear Hc.
    destruct (is_header (TERMINATE record)) eqn:Hh.
    + destruct firstEntry; cbn [negb].
      * pose proof (IH false header cur) as H. cbv iota in H. lia.
      * destruct cur as [|c cur]; [cbn [List.length]; lia|].
        cbn [List.length].
        pose proof (IH false (Some (TERMINATE record)) []) as H.
        cbv iota in H. lia.
    + apply IH.
Qed.



End ReaderEdges.

Section EmptyFirstFrame.

Context {REAL : Type} {RT : RealType REAL}.
Variable sscanf3 : string -> coord REAL.

Lemma read_frames_empty_first (h : string) (post : list string) :
  is_header h = true ->
  post = [] \/ is_header (hd EmptyString post) = true ->
  read_frames sscanf3 (h :: post) = [].
Proof.
  intros Hh [->|Hp].
  - rewrite read_frames_scan. cbn [scan_frames].
    rewrite is_header_TERMINATE, Hh. reflexivity.
  - destruct post as [|h2 post]; [discriminate Hp|]. cbn [hd] in Hp.
    change (h :: h2 :: post) with ([] ++ h :: h2 :: post).
    rewrite (read_frames_adjacent_headers sscanf3 [] h h2 post Hh Hp
               (or_introl eq_refl)).
    rewrite read_frames_scan. cbn [app scan_frames].
    rewrite is_header_TERMINATE, Hh. reflexivity.
Qed.


End EmptyFirstFrame.

(** * The lines of a file and the records read from it *)

(** A line in progress is part of the next line delivered. *)
Lemma file_lines_aux_first (s : string) :
  forall cur, cur <> EmptyString ->
    exists l rest, file_lines_aux cur s = l :: rest /\
                   String.length cur <= String.length l.
Proof.
  induction s as [|c s IH]; intros cur Hcur; cbn [file_lines_aux].
  - destruct cur; [congruence|]. eexists. eexists. split; [reflexivity|lia].
  - destruct (Ascii.eqb c newline).
    + eexists. eexists. split; [reflexivity|lia].
    + destruct (IH (cur ++ String c EmptyString)%string) as (l & rest & E & Hl).
      { destruct cur; discriminate. }
      exists l, rest. split; [exact E|].
      rewrite string_length_append in Hl. lia.
Qed.

(** When every line fits the buffer, the records [fgets] delivers are
    the lines of the file. *)
Lemma fgets_records_aux_file_lines (s : string) :
  forall (room : nat) (cur : string),
    has_newline cur = false ->
    String.length cur + room = MAXBUFF - 2 -> 1 <= room ->
    forallb line_ok (file_lines_aux cur s) = true ->
    map TERMINATE (fgets_records_aux room cur s) = file_lines_aux cur s.
Proof.
  induction s as [|c s IH]; intros room cur Hcur Hlen Hroom Hok;
    cbn [fgets_records_aux file_lines_aux] in *.
  - destruct cur; [reflexivity|]. cbn [map].
    rewrite TERMINATE_no_newline by exact Hcur. reflexivity.
  - destruct (Ascii.eqb c newline) eqn:Hc.
    + cbn [map]. apply Ascii.eqb_eq in Hc. subst c.
      fold (with_newline cur). rewrite TERMINATE_with_newline by exact Hcur.
      f_equal. cbn [forallb] in Hok. apply andb_prop in Hok.
      apply IH; [reflexivity|reflexivity|unfold MAXBUFF; lia|tauto].
    + assert (Hcur' : has_newline (cur ++ String c EmptyString)%string = false).
      { rewrite has_newline_append, Hcur. simpl. rewrite Hc. reflexivity. }
      assert (Hl : String.length (cur ++ String c EmptyString)%string
                   = S (String.length cur))
        by (rewrite string_length_append; simpl; lia).
      destruct room as [|[|r]]; [lia| |].
      * exfalso.
        destruct (file_lines_aux_first s (cur ++ String c EmptyString)%string)
          as (l & rest & E & Hle); [destruct cur; discriminate|].
        rewrite E in Hok. cbn [forallb] in Hok. apply andb_prop in Hok.
        destruct Hok as [Hok _]. unfold line_ok in Hok.
        apply andb_prop in Hok. destruct Hok as [_ Hok].
        apply Nat.ltb_lt in Hok. lia.
      * apply IH; try assumption; lia.
Qed.

Lemma fgets_records_file_lines (text : string) :
  forallb line_ok (file_lines text) = true ->
  map TERMINATE (fgets_records text) = file_lines text.
Proof.
  apply fgets_records_aux_file_lines;
    [reflexivity|reflexivity|unfold MAXBUFF; lia].
Qed.

Lemma count_headers_TERMINATE (recs : list string) :
  count_headers (map TERMINATE recs) = count_headers recs.
Proof.
  unfold count_headers. induction recs as [|r recs IH]; [reflexivity|].
  cbn [map filter]. rewrite is_header_TERMINATE.
  destruct (is_header r); cbn [List.length]; rewrite IH; reflexivity.
Qed.

Lemma count_headers_file_lines (text : string) :
  forallb line_ok (file_lines text) = true ->
  count_headers (fgets_records text) = count_headers (file_lines text).
Proof.
  intros H. rewrite <- (fgets_records_file_lines text H).
  symmetry. apply count_headers_TERMINATE.
Qed.

(** * A header line at the end of what the passes read *)

Section TrailingHeader.

Context {REAL : Type} {RT : RealType REAL}.
Variable sscanf3 : string -> coord REAL.

(** A header record that ends the file adds no frame, once the reader
    has met a header. *)
Lemma scan_frames_trailing_header (recs : list string) :
  forall (h : string) (firstEntry : bool) (header : hdr) (cur : FRAME REAL),
    is_header h = true ->
    firstEntry = false \/ existsb is_header recs = true ->
    scan_frames sscanf3 (recs ++ [h]) firstEntry header cur
      = scan_frames sscanf3 recs firstEntry header cur.
Proof.
  induction recs as [|r recs IH]; intros h firstEntry header cur Hh Hfe.
  - destruct Hfe as [-> | Hfe]; [|discriminate Hfe].
    cbn [app scan_frames]. rewrite is_header_TERMINATE, Hh. cbn [negb].
    destruct cur; reflexivity.
  - cbn [app scan_frames]. rewrite is_header_TERMINATE.
    destruct (is_header r) eqn:Hr.
    + destruct firstEntry; cbn [negb].
      * apply IH; auto.
      * destruct cur as [|c cur]; [reflexivity|].
        f_equal. apply IH; auto.
    + apply IH; [exact Hh|].
      destruct Hfe as [Hfe|Hfe]; [left; exact Hfe|right].
      cbn [existsb] in Hfe. rewrite Hr in Hfe. exact Hfe.
Qed.

Lemma existsb_is_header_render (tr : trajectory) :
  traj_ok tr = true -> tr <> [] -> existsb is_header (render tr) = true.
Proof.
  intros Hok Hne. destruct tr as [|[h cs] tr]; [congruence|].
  cbn [traj_ok forallb] in Hok. apply andb_prop in Hok. destruct Hok as [Hf _].
  unfold frame_ok in Hf. cbn [fst snd] in Hf.
  apply andb_prop in Hf. destruct Hf as [Hf _].
  apply andb_prop in Hf. destruct Hf as [Hh _].
  cbn [render flat_map fst snd app existsb]. rewrite Hh. reflexivity.
Qed.

(** A well-formed trajectory followed by two header records in a row:
    the passes read the frames of the trajectory and no more. *)
Lemma read_frames_render_then_headers (tr : trajectory) (h1 h2 : string)
    (post : list string) :
  traj_ok tr = true -> tr <> [] ->
  is_header h1 = true -> is_header h2 = true ->
  read_frames sscanf3 (render tr ++ h1 :: h2 :: post)
    = read_frames sscanf3 (render tr).
Proof.
  intros Hok Hne H1 H2.
  pose proof (existsb_is_header_render tr Hok Hne) as Hex.
  rewrite read_frames_adjacent_headers by auto.
  rewrite !read_frames_scan.
  apply scan_frames_trailing_header; auto.
Qed.

End TrailingHeader.

Section UniformCount.

Context {REAL : Type} {RT : RealType REAL} {RL : RealLaws RT}.
Variable sscanf3 : string -> coord REAL.

(** The run on the frames of a trajectory of one shape, whatever the
    count it is given: status 0 and the RMSD sum divided by the
    count. *)
Lemma pipeline_on_uniform (n : nat) (tr : trajectory) (frameCount : Z) :
  traj_ok tr = true -> uniform n tr = true -> tr <> [] ->
  (1 <= frameCount < 2 ^ 63)%Z ->
  let frames := frames_of sscanf3 tr in
  let meanFrame :=
    mean_of frameCount frames (map (fun _ => zero_coord) (hd [] frames)) in
  let closestFrame := keep_closest meanFrame (tl frames) (hd [] frames) in
  pipeline_on frameCount (read_frames sscanf3 (render tr))
    = mkOutcome 0
        [Out_score (rmsd_sum closestFrame frames / r_of_Z frameCount)%REAL] [].
Proof.
  intros Hok Hu Hne Hb. cbv zeta.
  destruct (uniform_shape sscanf3 n tr Hok Hu Hne) as (Hn & Hhd & Hcons).
  pose proof (frames_of_shape sscanf3 n tr Hu) as Hshape.
  remember (mean_of frameCount (frames_of sscanf3 tr)
              (map (fun _ => zero_coord) (hd [] (frames_of sscanf3 tr))))
    as meanFrame eqn:Em.
  assert (Hml : List.length meanFrame = n).
  { rewrite Em, mean_of_length.
    - rewrite length_map. exact Hhd.
    - rewrite length_map, Hhd. exact Hshape. }
  remember (keep_closest meanFrame (tl (frames_of sscanf3 tr))
              (hd [] (frames_of sscanf3 tr))) as closestFrame eqn:Ec.
  assert (Hcl : List.length closestFrame = n).
  { assert (Hin : In closestFrame (frames_of sscanf3 tr)).
    { rewrite Hcons, Ec. apply keep_closest_In. }
    rewrite Forall_forall in Hshape. apply Hshape. exact Hin. }
  unfold pipeline_on.
  replace (frameCount <? 1)%Z with false by (symmetry; apply Z.ltb_ge; lia).
  rewrite (mean_fold_render sscanf3 n) by assumption.
  rewrite <- Em.
  destruct meanFrame as [|m0 mean]; [simpl in Hml; lia|].
  rewrite (closest_fold_render sscanf3 n) by assumption.
  rewrite <- Ec.
  destruct closestFrame as [|c0 closest]; [simpl in Hcl; lia|].
  rewrite (rmsd_fold_render sscanf3 n) by assumption.
  replace (rmsd_sum (c0 :: closest) (frames_of sscanf3 tr)
             / r_of_Z frameCount <? r_zero)%REAL
    with false; [reflexivity|].
  symmetry. unfold rmsd_sum.
  apply r_div_not_negative; [|lia].
  apply rmsd_sum_from_not_negative; [|apply r_zero_not_negative].
  rewrite Hcl. exact Hshape.
Qed.

End UniformCount.

(** The lines of a text written line by line. *)
Lemma file_lines_aux_append (l : string) :
  forall (cur rest : string),
    has_newline l = false ->
    file_lines_aux cur (l ++ String newline rest)
      = (cur ++ l)%string :: file_lines_aux EmptyString rest.
Proof.
  induction l as [|c l IH]; intros cur rest Hl.
  - cbn [String.append file_lines_aux]. rewrite Ascii.eqb_refl.
    rewrite string_append_nil_r. reflexivity.
  - cbn [has_newline] in Hl. apply orb_false_elim in Hl. destruct Hl as [Hc Hl].
    cbn [String.append file_lines_aux]. rewrite Hc.
    rewrite IH by exact Hl. rewrite string_append_assoc. reflexivity.
Qed.

Lemma file_lines_text_of_lines (ls : list string) :
  forallb line_ok ls = true -> file_lines (text_of_lines ls) = ls.
Proof.
  unfold file_lines. induction ls as [|l ls IH]; intros H; [reflexivity|].
  cbn [forallb] in H. apply andb_prop in H. destruct H as [Hl Hls].
  cbn [text_of_lines].
  rewrite file_lines_aux_append by (apply line_ok_no_newline; exact Hl).
  rewrite IH by exact Hls. reflexivity.
Qed.

Lemma count_headers_with_newline (ls : list string) :
  count_headers (map with_newline ls) = count_headers ls.
Proof.
  unfold count_headers. induction ls as [|l ls IH]; [reflexivity|].
  cbn [map filter]. rewrite is_header_with_newline.
  destruct (is_header l); cbn [List.length]; rewrite IH; reflexivity.
Qed.

(** The run on a text of lines that fit the buffer is the pipeline on
    the lines, each with its newline. *)
Lemma main_on_lines {REAL : Type} {RT : RealType REAL}
    (sscanf3 : string -> coord REAL) (fs : string -> option string)
    (prog inFile : string) (rest lines : list string) :
  inFile <> EmptyString ->
  fs inFile = Some (text_of_lines lines) ->
  forallb line_ok lines = true ->
  main sscanf3 fs (prog :: inFile :: rest)
    = Some (pipeline sscanf3 (map with_newline lines)).
Proof.
  intros Hne Hfs Hok.
  rewrite (main_pipeline sscanf3 fs (prog :: inFile :: rest) inFile
             (text_of_lines lines) eq_refl Hne Hfs).
  rewrite fgets_records_lines by exact Hok. reflexivity.
Qed.

(** The run on the text of a trajectory of frames of one shape whose
    lines fit the buffer. *)
Lemma main_on_uniform_text
    {REAL : Type} {RT : RealType REAL} {RL : RealLaws RT}
    (sscanf3 : string -> coord REAL) (fs : string -> option string)
    (prog inFile : string) (rest : list string) (n : nat) (tr : trajectory) :
  inFile <> EmptyString ->
  fs inFile = Some (text_of_lines (render tr)) ->
  forallb line_ok (render tr) = true ->
  traj_ok tr = true -> uniform n tr = true -> tr <> [] ->
  (Z.of_nat (List.length tr) < 2 ^ 63)%Z ->
  main sscanf3 fs (prog :: inFile :: rest)
    = Some (mkOutcome 0 [Out_score (trajectory_score sscanf3 tr)] []).
Proof.
  intros Hname Hfs Hlines Hok Hu Hne Hb.
  rewrite (main_on_trajectory_text sscanf3 fs prog inFile rest tr
             Hname Hfs Hlines).
  rewrite main_opened_pipeline.
  rewrite (pipeline_uniform sscanf3 n (with_newlines tr)).
  - rewrite trajectory_score_with_newlines by exact Hlines. reflexivity.
  - rewrite traj_ok_with_newlines. exact Hok.
  - rewrite uniform_with_newlines. exact Hu.
  - destruct tr; [congruence|discriminate].
  - unfold with_newlines. rewrite length_map. exact Hb.
Qed.

(** * More on binary64 *)

(** ** The square of a difference *)

Lemma binary_round_aux_abs (s : bool) (m e : Z) (l : location) :
  sf_abs (binary_round_aux prec emax s m e l)
  = sf_abs (binary_round_aux prec emax false m e l).
Proof.
  unfold binary_round_aux.
  destruct (shr_fexp prec emax m e l) as [mrs' e'].
  destruct (shr_fexp prec emax _ e' loc_Exact) as [mrs'' e''].
  destruct (shr_m mrs''); [reflexivity| |reflexivity].
  destruct (Z.leb e'' (emax - prec)); reflexivity.
Qed.

Lemma binary_normalize_abs_opp (m e : Z) :
  sf_abs (binary_normalize prec emax (- m) e false)
  = sf_abs (binary_normalize prec emax m e false).
Proof.
  destruct m as [|p|p]; simpl; [reflexivity| |]; unfold binary_round;
    destruct (shl_align p e (fexp prec emax (Z.pos (digits2_pos p) + e)))
      as [mz ez];
    [apply binary_round_aux_abs|symmetry; apply binary_round_aux_abs].
Qed.

Lemma SFsub_abs_sym (a b : spec_float) :
  sf_abs (SFsub prec emax a b) = sf_abs (SFsub prec emax b a).
Proof.
  destruct a as [sa|sa| |sa ma ea]; destruct b as [sb|sb| |sb mb eb];
    try reflexivity; try (destruct sa, sb; reflexivity).
  cbn [SFsub]. rewrite (Z.min_comm eb ea).
  rewrite <- binary_normalize_abs_opp. f_equal. f_equal. lia.
Qed.

Lemma SFmul_square_abs (a : spec_float) :
  SFmul prec emax a a = SFmul prec emax (sf_abs a) (sf_abs a).
Proof.
  destruct a as [s|s| |s m e]; cbn [sf_abs SFmul]; try reflexivity;
    destruct s; reflexivity.
Qed.

Lemma float_square_sym (a b : float) :
  ((a - b) * (a - b))%float = ((b - a) * (b - a))%float.
Proof.
  apply Prim2SF_inj.
  rewrite !FloatAxioms.mul_spec, !FloatAxioms.sub_spec.
  unfold SF64mul, SF64sub.
  rewrite SFmul_square_abs, SFsub_abs_sym, <- SFmul_square_abs. reflexivity.
Qed.

Lemma float_sqdev_sym (a b : coord float) : sqdev a b = sqdev b a.
Proof.
  unfold sqdev. cbn [r_add r_sub r_mul float_RealType].
  rewrite (float_square_sym (x a)), (float_square_sym (y a)),
          (float_square_sym (z a)).
  reflexivity.
Qed.

Lemma R_sqdev_sym (a b : coord R) :
  sqdev (RT := R_RealType) a b = sqdev b a.
Proof. unfold sqdev. cbn [r_add r_sub r_mul R_RealType]. ring. Qed.

Lemma RMSFrame_loop_sym {REAL : Type} {RT : RealType REAL} :
  (forall a b : coord REAL, sqdev a b = sqdev b a) ->
  forall (p q : FRAME REAL) (rmsd : REAL) (nCoor : Z),
    RMSFrame_loop p q rmsd nCoor = RMSFrame_loop q p rmsd nCoor.
Proof.
  intros Hs. induction p as [|a p IH]; intros [|b q] rmsd nCoor;
    try reflexivity.
  cbn [RMSFrame_loop]. rewrite (Hs a b). apply IH.
Qed.

(** ** Sums of RMSDs *)

Lemma float_RMSFrame_amount (frame1 frame2 : FRAME float) :
  List.length frame1 = List.length frame2 ->
  (1 <= Z.of_nat (List.length frame1) < 2 ^ 31)%Z ->
  number_frame frame1 = true -> finite_frame frame2 = true ->
  sf_amount (Prim2SF (RMSFrame frame1 frame2)).
Proof.
  intros Hlen Hn H1 H2. unfold RMSFrame.
  rewrite RMSFrame_loop_same_length by (try lia; assumption).
  cbn [r_sqrt r_div r_of_Z r_zero float_RealType].
  rewrite FloatAxioms.sqrt_spec. apply SFsqrt_amount.
  rewrite FloatAxioms.div_spec.
  destruct (Z2double_finite (0 + Z.of_nat (List.length frame1)))
    as (m & e & Hz); [lia|].
  rewrite Hz. apply SFdiv_amount.
  apply float_sum_sqdev_amount; try assumption. exact I.
Qed.

Lemma finite_number_frame (frame : FRAME float) :
  finite_frame frame = true -> number_frame frame = true.
Proof.
  unfold finite_frame, number_frame. rewrite !forallb_forall.
  intros H c Hc. specialize (H c Hc).
  apply andb_prop in H. destruct H as [H Hz].
  apply andb_prop in H. destruct H as [Hx Hy].
  assert (Hn : forall v, finite_double v = true -> not_nan v = true).
  { intros v. unfold finite_double, not_nan.
    destruct (Prim2SF v); intros E; try reflexivity; discriminate E. }
  rewrite (Hn _ Hx), (Hn _ Hy), (Hn _ Hz). reflexivity.
Qed.

Lemma float_rmsd_sum_amount (ref : FRAME float) (frames : list (FRAME float)) :
  (1 <= Z.of_nat (List.length ref) < 2 ^ 31)%Z ->
  number_frame ref = true ->
  Forall (fun f => List.length f = List.length ref) frames ->
  forallb finite_frame frames = true ->
  sf_amount (Prim2SF (rmsd_sum ref frames)).
Proof.
  intros Hn Href Hlen Hfin. unfold rmsd_sum.
  assert (H0 : sf_amount (Prim2SF (@r_zero float float_RealType))) by exact I.
  revert H0. generalize (@r_zero float float_RealType).
  induction frames as [|f frames IH]; intros acc Hacc; [exact Hacc|].
  cbn [fold_left]. cbn [forallb] in Hfin. apply andb_prop in Hfin.
  destruct Hfin as [Hf Hfin].
  apply IH.
  - apply Forall_inv_tail in Hlen. exact Hlen.
  - exact Hfin.
  - cbn [r_add float_RealType]. rewrite FloatAxioms.add_spec.
    apply SFadd_amount; [exact Hacc|].
    apply float_RMSFrame_amount; try assumption.
    apply Forall_inv in Hlen. symmetry. exact Hlen.
Qed.

(** ** Clear sign bits *)

Lemma binary_round_aux_clear (m e : Z) (l : location) :
  (0 <= m)%Z -> sf_clear (binary_round_aux prec emax false m e l).
Proof.
  intros Hm. pose proof (binary_round_aux_number false m e l Hm) as H.
  destruct (binary_round_aux prec emax false m e l); simpl; auto.
Qed.

Lemma binary_normalize_clear (m e : Z) :
  (0 <= m)%Z -> sf_clear (binary_normalize prec emax m e false).
Proof.
  intros Hm. destruct m as [|p|p]; simpl; [reflexivity| |lia].
  unfold binary_round.
  destruct (shl_align p e (fexp prec emax (Z.pos (digits2_pos p) + e)))
    as [mz ez].
  apply binary_round_aux_clear. lia.
Qed.

Lemma SFadd_clear (a b : spec_float) :
  sf_clear a -> sf_amount b -> sf_clear (SFadd prec emax a b).
Proof.
  destruct a as [sa|sa| |sa ma ea]; destruct b as [sb|sb| |sb mb eb];
    simpl; intros Ha Hb; subst; try contradiction; try reflexivity.
  - destruct sb; reflexivity.
  - apply binary_normalize_clear. simpl. lia.
Qed.

Lemma SFdiv_clear (a : spec_float) (m : positive) (e : Z) :
  sf_clear a -> sf_clear (SFdiv prec emax a (S754_finite false m e)).
Proof.
  destruct a as [sa|sa| |sa ma ea]; simpl; intros Ha; subst;
    try contradiction; try reflexivity.
  unfold SFdiv_core_binary.
  set (m' := match (ea - e - _)%Z with
             | 0%Z => Z.pos ma | Z.pos _ => _ | Z.neg _ => 0%Z end).
  assert (Hm' : (0 <= m')%Z).
  { subst m'. destruct (ea - e - _)%Z; try lia.
    apply Z.shiftl_nonneg. lia. }
  pose proof (Z.div_pos m' (Z.pos m) Hm' ltac:(lia)) as Hq.
  unfold Z.div in Hq.
  destruct (Z.div_eucl m' (Z.pos m)) as [q r].
  apply binary_round_aux_clear. exact Hq.
Qed.

Lemma SFsqrt_clear (a : spec_float) :
  sf_clear a -> sf_clear (SFsqrt prec emax a).
Proof.
  destruct a as [sa|sa| |sa ma ea]; simpl; intros Ha; subst;
    try contradiction; try reflexivity.
  unfold SFsqrt_core_binary.
  set (m' := match (ea - 2 * _)%Z with
             | 0%Z => Z.pos ma | Z.pos _ => _ | Z.neg _ => 0%Z end).
  pose proof (Z.sqrt_nonneg m') as Hq.
  rewrite <- Z.sqrtrem_sqrt in Hq.
  destruct (Z.sqrtrem m') as [q r]. cbn [fst] in Hq.
  apply binary_round_aux_clear. exact Hq.
Qed.

Lemma float_sum_sqdev_clear (p : FRAME float) :
  forall (q : FRAME float) (acc : float),
    number_frame p = true -> finite_frame q = true ->
    sf_clear (Prim2SF acc) ->
    sf_clear (Prim2SF (fold_left sqdev_step (combine p q) acc)).
Proof.
  induction p as [|a p IH]; intros [|b q] acc Hp Hq Hacc;
    cbn [combine fold_left]; try exact Hacc.
  cbn [number_frame finite_frame forallb] in Hp, Hq.
  apply andb_prop in Hp. destruct Hp as [Ha Hp].
  apply andb_prop in Hq. destruct Hq as [Hb Hq].
  apply IH; try assumption.
  unfold sqdev_step. cbn [fst snd r_add float_RealType].
  rewrite FloatAxioms.add_spec.
  apply SFadd_clear; [exact Hacc|apply float_sqdev_amount; assumption].
Qed.

(** The RMSD of finite frames has a clear sign bit: it is [+0], a
    positive number or [+inf]. *)
Lemma float_RMSFrame_clear (frame1 frame2 : FRAME float) :
  List.length frame1 = List.length frame2 ->
  (1 <= Z.of_nat (List.length frame1) < 2 ^ 31)%Z ->
  number_frame frame1 = true -> finite_frame frame2 = true ->
  sf_clear (Prim2SF (RMSFrame frame1 frame2)).
Proof.
  intros Hlen Hn H1 H2. unfold RMSFrame.
  rewrite RMSFrame_loop_same_length by (try lia; assumption).
  cbn [r_sqrt r_div r_of_Z r_zero float_RealType].
  rewrite FloatAxioms.sqrt_spec. apply SFsqrt_clear.
  rewrite FloatAxioms.div_spec.
  destruct (Z2double_finite (0 + Z.of_nat (List.length frame1)))
    as (m & e & Hz); [lia|].
  rewrite Hz. apply SFdiv_clear.
  apply float_sum_sqdev_clear; try assumption. reflexivity.
Qed.

Lemma float_add_zero_l (v : float) :
  sf_clear (Prim2SF v) -> (0 + v)%float = v.
Proof.
  intros Hv. apply Prim2SF_inj. rewrite FloatAxioms.add_spec, Prim2SF_zero.
  destruct (Prim2SF v) as [s|s| |s m e]; simpl in Hv; try contradiction;
    subst; reflexivity.
Qed.

Lemma float_add_zero_r (v : float) :
  sf_clear (Prim2SF v) -> (v + 0)%float = v.
Proof.
  intros Hv. apply Prim2SF_inj. rewrite FloatAxioms.add_spec, Prim2SF_zero.
  destruct (Prim2SF v) as [s|s| |s m e]; simpl in Hv; try contradiction;
    subst; reflexivity.
Qed.

Lemma float_RMSFrame_sym (frame1 frame2 : FRAME float) :
  RMSFrame frame1 frame2 = RMSFrame frame2 frame1.
Proof. unfold RMSFrame. apply RMSFrame_loop_sym. exact float_sqdev_sym. Qed.

(** ** A NaN among the coordinates *)

Lemma float_square_nan (a b : float) :
  not_nan b = false -> Prim2SF ((a - b) * (a - b))%float = S754_nan.
Proof.
  unfold not_nan. intros Hb.
  rewrite FloatAxioms.mul_spec, FloatAxioms.sub_spec.
  destruct (Prim2SF b); try discriminate.
  unfold SF64sub, SF64mul. destruct (Prim2SF a); reflexivity.
Qed.

Lemma float_add_nan_l (a b : float) :
  Prim2SF a = S754_nan -> Prim2SF (a + b)%float = S754_nan.
Proof.
  intros Ha. rewrite FloatAxioms.add_spec, Ha. reflexivity.
Qed.

Lemma float_add_nan_r (a b : float) :
  Prim2SF b = S754_nan -> Prim2SF (a + b)%float = S754_nan.
Proof.
  intros Hb. rewrite FloatAxioms.add_spec, Hb.
  unfold SF64add. destruct (Prim2SF a); reflexivity.
Qed.

Lemma float_sqdev_nan (a b : coord float) :
  not_nan (x b) && not_nan (y b) && not_nan (z b) = false ->
  Prim2SF (sqdev a b) = S754_nan.
Proof.
  intros Hb. unfold sqdev. cbn [r_add r_sub r_mul float_RealType].
  destruct (not_nan (x b)) eqn:Hx; [destruct (not_nan (y b)) eqn:Hy|].
  - cbn [andb] in Hb. apply float_add_nan_r. apply float_square_nan. exact Hb.
  - apply float_add_nan_l, float_add_nan_r. apply float_square_nan. exact Hy.
  - apply float_add_nan_l, float_add_nan_l. apply float_square_nan. exact Hx.
Qed.

Lemma float_sum_sqdev_nan (p : FRAME float) :
  forall (q : FRAME float) (acc : float),
    List.length p = List.length q ->
    Prim2SF acc = S754_nan \/ number_frame q = false ->
    Prim2SF (fold_left sqdev_step (combine p q) acc) = S754_nan.
Proof.
  induction p as [|a p IH]; intros [|b q] acc Hlen Hn; try discriminate.
  - destruct Hn as [Hn|Hn]; [exact Hn|discriminate Hn].
  - cbn [combine fold_left]. apply IH; [simpl in Hlen; congruence|].
    unfold sqdev_step. cbn [fst snd r_add float_RealType].
    destruct Hn as [Hn|Hn]; [left; apply float_add_nan_l; exact Hn|].
    cbn [number_frame forallb] in Hn.
    destruct (not_nan (x b) && not_nan (y b) && not_nan (z b)) eqn:Hb.
    + right. exact Hn.
    + left. apply float_add_nan_r. apply float_sqdev_nan. exact Hb.
Qed.

Lemma float_RMSFrame_nan (frame1 frame2 : FRAME float) :
  List.length frame1 = List.length frame2 ->
  (Z.of_nat (List.length frame1) < 2 ^ 31)%Z ->
  number_frame frame2 = false ->
  Prim2SF (RMSFrame frame1 frame2) = S754_nan.
Proof.
  intros Hlen Hb Hn. unfold RMSFrame.
  rewrite RMSFrame_loop_same_length by (try lia; assumption).
  cbn [r_sqrt r_div float_RealType].
  rewrite FloatAxioms.sqrt_spec, FloatAxioms.div_spec.
  rewrite (float_sum_sqdev_nan frame1 frame2 r_zero Hlen (or_intror Hn)).
  reflexivity.
Qed.

Lemma float_rmsd_sum_nan (ref : FRAME float) (frames : list (FRAME float)) :
  forall acc : float,
    Prim2SF acc = S754_nan
    \/ (exists f, In f frames /\ Prim2SF (RMSFrame ref f) = S754_nan) ->
    Prim2SF (fold_left (fun a f => a + RMSFrame ref f)%REAL frames acc)
      = S754_nan.
Proof.
  induction frames as [|f frames IH]; intros acc Hn.
  - destruct Hn as [Hn|(f & [] & _)]. exact Hn.
  - cbn [fold_left]. apply IH. cbn [r_add float_RealType].
    destruct Hn as [Hn|(g & [<-|Hg] & Hr)].
    + left. apply float_add_nan_l. exact Hn.
    + left. apply float_add_nan_r. exact Hr.
    + right. exists g. split; assumption.
Qed.

(** * Binary64: the first two frames exchanged *)

(** ** The first two terms of a sum *)

Lemma SFadd_comm (a b : spec_float) :
  SFadd prec emax a b = SFadd prec emax b a.
Proof.
  destruct a as [sa|sa| |sa ma ea]; destruct b as [sb|sb| |sb mb eb];
    try reflexivity; try (destruct sa, sb; reflexivity).
  cbn [SFadd]. rewrite (Z.min_comm eb ea). f_equal. apply Z.add_comm.
Qed.

(** Starting from zero, the first two terms of a sum can be added in
    either order. *)
Lemma float_first_two_terms (u v : float) :
  ((0 + u) + v)%float = ((0 + v) + u)%float.
Proof.
  apply Prim2SF_inj. rewrite !FloatAxioms.add_spec, Prim2SF_zero.
  unfold SF64add.
  destruct (Prim2SF u) as [su|su| |su mu eu];
    destruct (Prim2SF v) as [sv|sv| |sv mv ev];
    try reflexivity; try (destruct su, sv; reflexivity);
    try (destruct su; reflexivity); try (destruct sv; reflexivity).
  change (SFadd prec emax (S754_zero false) (S754_finite su mu eu))
    with (S754_finite su mu eu).
  change (SFadd prec emax (S754_zero false) (S754_finite sv mv ev))
    with (S754_finite sv mv ev).
  apply SFadd_comm.
Qed.

Lemma float_add_coord_first_two (frameCount : Z) (a b : coord float) :
  add_coord frameCount (add_coord frameCount zero_coord a) b
  = add_coord frameCount (add_coord frameCount zero_coord b) a.
Proof.
  unfold add_coord. cbn [x y z zero_coord r_add r_div r_zero float_RealType].
  f_equal; apply float_first_two_terms.
Qed.

Lemma float_AddFrame_first_two (frameCount : Z) (a : FRAME float) :
  forall b : FRAME float,
    List.length a = List.length b ->
    fst (AddFrame (fst (AddFrame (map (fun _ => zero_coord) a) a frameCount))
                  b frameCount)
    = fst (AddFrame (fst (AddFrame (map (fun _ => zero_coord) b) b frameCount))
                    a frameCount).
Proof.
  induction a as [|ca a IH]; intros [|cb b] Hlen; try discriminate;
    [reflexivity|].
  specialize (IH b ltac:(simpl in Hlen; congruence)).
  cbn [map AddFrame] in *.
  destruct (AddFrame (map (fun _ => zero_coord) a) a frameCount) as [ra oka].
  destruct (AddFrame (map (fun _ => zero_coord) b) b frameCount) as [rb okb].
  cbn [fst AddFrame] in *.
  destruct (AddFrame ra b frameCount) as [rab okab].
  destruct (AddFrame rb a frameCount) as [rba okba].
  cbn [fst] in *. rewrite IH. f_equal.
  apply (float_add_coord_first_two frameCount ca cb).
Qed.

Lemma float_mean_first_two (frameCount : Z) (a b : FRAME float)
    (rest : list (FRAME float)) :
  List.length a = List.length b ->
  mean_of frameCount (b :: a :: rest)
          (map (fun _ => zero_coord) (hd [] (b :: a :: rest)))
  = mean_of frameCount (a :: b :: rest)
            (map (fun _ => zero_coord) (hd [] (a :: b :: rest))).
Proof.
  intros Hlen. unfold mean_of. cbn [hd fold_left].
  rewrite (float_AddFrame_first_two frameCount a b Hlen). reflexivity.
Qed.

Lemma float_rmsd_sum_first_two (ref a b : FRAME float)
    (rest : list (FRAME float)) :
  rmsd_sum ref (b :: a :: rest) = rmsd_sum ref (a :: b :: rest).
Proof.
  unfold rmsd_sum. cbn [fold_left r_add r_zero float_RealType].
  rewrite (float_first_two_terms (RMSFrame ref b) (RMSFrame ref a)).
  reflexivity.
Qed.

(** ** The frame kept when one frame only is nearest *)

Section OneNearest.

Context {REAL : Type} {RT : RealType REAL}.

Lemma one_nearest_unique (ref : FRAME REAL) (frames : list (FRAME REAL))
    (f g : FRAME REAL) :
  one_nearest ref frames = true ->
  In f frames -> In g frames ->
  (forall h, In h frames -> (RMSFrame ref h <? RMSFrame ref f)%REAL = false) ->
  (forall h, In h frames -> (RMSFrame ref h <? RMSFrame ref g)%REAL = false) ->
  f = g.
Proof.
  unfold one_nearest. intros H1 Hf Hg Hmf Hmg.
  apply Nat.eqb_eq in H1.
  set (near := fun f0 => forallb (fun h => negb (RMSFrame ref h <? RMSFrame ref f0)%REAL)
                                frames) in *.
  assert (Hin : forall k, In k frames ->
            (forall h, In h frames ->
               (RMSFrame ref h <? RMSFrame ref k)%REAL = false) ->
            In k (filter near frames)).
  { intros k Hk Hmk. apply filter_In. split; [exact Hk|].
    unfold near. apply forallb_forall. intros h Hh.
    rewrite (Hmk h Hh). reflexivity. }
  pose proof (Hin f Hf Hmf) as Hf'. pose proof (Hin g Hg Hmg) as Hg'.
  destruct (filter near frames) as [|k [|k' l]]; try discriminate H1.
  destruct Hf' as [<-|[]]. destruct Hg' as [<-|[]]. reflexivity.
Qed.

Lemma keep_closest_nearest (ref : FRAME REAL) (frames : list (FRAME REAL))
    (best : FRAME REAL) :
  orders (map (RMSFrame ref) (best :: frames)) ->
  forall f, In f (best :: frames) ->
    (RMSFrame ref f <? RMSFrame ref (keep_closest ref frames best))%REAL
    = false.
Proof.
  intros Hord.
  destruct (keep_closest_first_minimum ref frames [] [] best)
    as (before & after & _ & _ & H3).
  - exact Hord.
  - intros f [].
  - intros f [<-|[]]. destruct Hord as (Hirr & _). apply Hirr.
    left. reflexivity.
  - exact H3.
Qed.

End OneNearest.

Lemma float_closest_first_two (ref a b : FRAME float)
    (rest : list (FRAME float)) :
  (1 <= Z.of_nat (List.length ref) < 2 ^ 31)%Z ->
  number_frame ref = true ->
  Forall (fun f => List.length f = List.length ref) (a :: b :: rest) ->
  forallb finite_frame (a :: b :: rest) = true ->
  one_nearest ref (a :: b :: rest) = true ->
  keep_closest ref (a :: rest) b = keep_closest ref (b :: rest) a.
Proof.
  intros Hn Href Hlen Hfin H1.
  assert (Hlen' : Forall (fun f => List.length f = List.length ref)
                         (b :: a :: rest)).
  { inversion Hlen as [|? ? Ha Hl]; subst.
    inversion Hl as [|? ? Hb Hr]; subst. repeat constructor; assumption. }
  assert (Hfin' : forallb finite_frame (b :: a :: rest) = true).
  { cbn [forallb] in *. rewrite andb_assoc, (andb_comm (finite_frame b)),
      <- andb_assoc. exact Hfin. }
  pose proof (float_RMSFrame_orders ref (a :: b :: rest) Hn Href Hlen Hfin)
    as Hord.
  pose proof (float_RMSFrame_orders ref (b :: a :: rest) Hn Href Hlen' Hfin')
    as Hord'.
  assert (Hswap : forall f, In f (a :: b :: rest) <-> In f (b :: a :: rest))
    by (intros f; simpl; tauto).
  apply (one_nearest_unique ref (a :: b :: rest)); [exact H1| | | |].
  - apply Hswap. apply keep_closest_In.
  - apply keep_closest_In.
  - intros h Hh. apply (keep_closest_nearest ref (a :: rest) b Hord').
    apply Hswap. exact Hh.
  - intros h Hh. apply (keep_closest_nearest ref (b :: rest) a Hord).
    exact Hh.
Qed.


(** * The claims *)

(** C1. On the two-frame input ([>f1] with atoms (0,0,0), (2,0,0) and
    [>f2] with atoms (0,0,0), (0,0,0)) the count is 2, the mean frame is
    [(0,0,0), (1,0,0)], the frame kept as nearest to the mean is f1, and
    the run exits with status 0 having written nothing but the score,
    which [%.4f] prints as 0.7071. *)
Theorem scenario_two_frames :
  fst (CountFrames scenario_world) = 2%Z /\
  option_map fst (CalculateMeanCoords sscanf3_decimal scenario_world 2)
    = Some [c3 0 0 0; c3 1 0 0] /\
  option_map fst
    (FindClosestToMean sscanf3_decimal scenario_world [c3 0 0 0; c3 1 0 0] None)
    = Some [c3 0 0 0; c3 2 0 0] /\
  exists score : float,
    main sscanf3_decimal (one_file "traj" scenario_text) ["flexcalc"; "traj"]
      = Some (mkOutcome 0 [Out_score score] []) /\
    printf_4f score = text_of_lines ["0.7071"].
Proof.
  split; [vm_compute; reflexivity|].
  split; [vm_compute; reflexivity|].
  split; [vm_compute; reflexivity|].
  eexists. split; vm_compute; reflexivity.
Qed.

(** C2. For frames of equal length n (1 <= n, and n within [int]),
    [RMSFrame] returns the square root of the sum over the atoms of
    the squared Euclidean distance between corresponding triples,
    (x1-x2)^2 + (y1-y2)^2 + (z1-z2)^2, accumulated from zero in list
    order and divided by n; that value does not compare below zero.
    For frames of different lengths it returns -1.0, which does compare
    below zero: the test [< 0.0] of the callers tells a mismatch from
    every RMSD, a zero one included. *)
Theorem RMSFrame_value_or_signal
    {REAL : Type} {RT : RealType REAL} {RL : RealLaws RT}
    (frame1 frame2 : FRAME REAL) :
  (List.length frame1 = List.length frame2 ->
   1 <= List.length frame1 ->
   (Z.of_nat (List.length frame1) < 2 ^ 31)%Z ->
   RMSFrame frame1 frame2
     = r_sqrt
         (fold_left
            (fun (acc : REAL) (pq : coord REAL * coord REAL) =>
               acc + ((x (fst pq) - x (snd pq)) * (x (fst pq) - x (snd pq))
                      + (y (fst pq) - y (snd pq)) * (y (fst pq) - y (snd pq))
                      + (z (fst pq) - z (snd pq)) * (z (fst pq) - z (snd pq))))
            (combine frame1 frame2) r_zero
          / r_of_Z (Z.of_nat (List.length frame1)))%REAL /\
   (RMSFrame frame1 frame2 <? r_zero)%REAL = false) /\
  (List.length frame1 <> List.length frame2 ->
   RMSFrame frame1 frame2 = r_mone /\
   (RMSFrame frame1 frame2 <? r_zero)%REAL = true).
Proof.
  split.
  - intros Hlen _ Hb. split.
    + rewrite RMSFrame_formula by assumption.
      unfold rmsd_formula, sum_sqdev, sqdev_step, sqdev. reflexivity.
    + apply RMSFrame_not_negative; assumption.
  - apply RMSFrame_mismatch_negative.
Qed.

Lemma RMSFrame_value_or_signal_witness :
  (RMSFrame [c3 1 2 3; c3 2 0 0] [c3 4 6 3; c3 2 0 0]
     = PrimFloat.sqrt ((0 + ((1 - 4) * (1 - 4) + (2 - 6) * (2 - 6) + (3 - 3) * (3 - 3))
                + ((2 - 2) * (2 - 2) + (0 - 0) * (0 - 0) + (0 - 0) * (0 - 0)))
             / 2)%float /\
   (RMSFrame [c3 1 2 3; c3 2 0 0] [c3 4 6 3; c3 2 0 0] <? r_zero)%REAL
     = false) /\
  (RMSFrame [c3 0 0 0; c3 2 0 0] [c3 0 0 0] = r_mone /\
   (RMSFrame [c3 0 0 0; c3 2 0 0] [c3 0 0 0] <? r_zero)%REAL = true).
Proof.
  split.
  - exact (proj1 (RMSFrame_value_or_signal
                    [c3 1 2 3; c3 2 0 0] [c3 4 6 3; c3 2 0 0])
                 eq_refl ltac:(simpl; lia) ltac:(simpl; lia)).
  - apply (proj2 (RMSFrame_value_or_signal
                    [c3 0 0 0; c3 2 0 0] [c3 0 0 0]));
      simpl; lia.
Defined.

(** C3. On a trajectory of N >= 1 frames of one shape the mean pass,
    called with the frame count N, returns a frame of that shape in
    which every coordinate of every atom is the running mean of the
    code: starting from the zeroed seed, each frame's coordinate divided
    by N is added in turn.  In exact arithmetic that running mean is the
    arithmetic mean, the sum of the values divided by N. *)
Theorem mean_pass_running_mean :
  (forall (REAL : Type) (RT : RealType REAL) (sscanf3 : string -> coord REAL)
          (n : nat) (tr : trajectory) (w : world),
      traj_ok tr = true -> uniform n tr = true -> tr <> [] ->
      rewound w -> f_records (w_in w) = render tr ->
      (Z.of_nat (List.length tr) < 2 ^ 64)%Z ->
      let N := Z.of_nat (List.length tr) in
      let frames := frames_of sscanf3 tr in
      fst (CountFrames w) = N /\
      exists meanFrame w',
        CalculateMeanCoords sscanf3 w N = Some (meanFrame, w') /\
        List.length meanFrame = n /\
        w_stderr w' = w_stderr w /\
        forall i, i < n ->
          nth i meanFrame zero_coord =
          mkCoord (running_mean N (column x i frames))
                  (running_mean N (column y i frames))
                  (running_mean N (column z i frames))) /\
  (forall (N : Z) (vals : list R),
      running_mean (RT := R_RealType) N vals = (Rsum vals / IZR N)%R).
Proof.
  split; [|exact R_running_mean].
  intros REAL RT sscanf3 n tr w Hok Hu Hne Hr Hrec Hb N frames.
  split.
  - unfold CountFrames. cbn [fst].
    rewrite Hr, Hrec. apply CountFrames_render; assumption.
  - destruct (CalculateMeanCoords_spec sscanf3 w N Hr)
      as (w' & He & [Hf Hs] & _).
    rewrite Hrec in He, Hs.
    rewrite (mean_fold_render sscanf3 n tr N Hok Hu Hne) in He, Hs.
    cbn [fst snd] in He, Hs.
    destruct (uniform_shape sscanf3 n tr Hok Hu Hne) as (Hn & Hhd & _).
    assert (Hall : Forall (fun f => List.length f
                     = List.length (map (fun _ : coord REAL => zero_coord)
                                        (hd [] (frames_of sscanf3 tr))))
                          (frames_of sscanf3 tr)).
    { rewrite length_map, Hhd. apply frames_of_shape. exact Hu. }
    eexists. exists w'. split; [exact He|].
    split; [|split].
    + rewrite mean_of_length by exact Hall. rewrite length_map. exact Hhd.
    + rewrite Hs. apply app_nil_r.
    + intros i Hi. rewrite mean_of_nth; [|exact Hall|rewrite length_map; lia].
      rewrite nth_zero_seed. reflexivity.
Qed.

Lemma mean_pass_running_mean_witness :
  fst (CountFrames
         (initial_world (mkFILE (render three_frames) (render three_frames))))
    = 3%Z /\
  exists meanFrame w',
    CalculateMeanCoords sscanf3_decimal
      (initial_world (mkFILE (render three_frames) (render three_frames))) 3
      = Some (meanFrame, w') /\
    List.length meanFrame = 2 /\
    w_stderr w' = [] /\
    forall i, i < 2 ->
      nth i meanFrame zero_coord =
      mkCoord
        (running_mean 3 (column x i (frames_of sscanf3_decimal three_frames)))
        (running_mean 3 (column y i (frames_of sscanf3_decimal three_frames)))
        (running_mean 3 (column z i (frames_of sscanf3_decimal three_frames))).
Proof.
  apply (proj1 mean_pass_running_mean float float_RealType sscanf3_decimal 2
           three_frames
           (initial_world (mkFILE (render three_frames) (render three_frames))));
    [reflexivity|reflexivity|discriminate|reflexivity|reflexivity
    |simpl; lia].
Defined.

(** C4. On a trajectory of frames of the shape of the mean frame, with
    the RMSDs to the mean frame ordered by [<], the selection pass
    returns the frame that a scan replacing its candidate only on a
    strictly smaller RMSD keeps.  No frame is strictly closer to the
    mean than the frame returned and every frame before it is strictly
    farther: among the frames at the minimum it is the first one read.
    Nothing is written to [stderr].  The RMSDs are ordered by [<] in
    binary64 when the frames have finite coordinates, the mean frame
    holds no NaN and the atom count is within [int]; over the reals they
    always are. *)
Theorem selection_keeps_first_minimum :
  (forall (REAL : Type) (RT : RealType REAL) (RL : RealLaws RT)
          (sscanf3 : string -> coord REAL)
          (n : nat) (tr : trajectory) (meanFrame : FRAME REAL) (header : hdr)
          (w : world),
      traj_ok tr = true -> uniform n tr = true -> tr <> [] ->
      List.length meanFrame = n ->
      rewound w -> f_records (w_in w) = render tr ->
      orders (map (RMSFrame meanFrame) (frames_of sscanf3 tr)) ->
      exists closestFrame w' before after,
        FindClosestToMean sscanf3 w meanFrame header
          = Some (closestFrame, w') /\
        closestFrame = keep_closest meanFrame (tl (frames_of sscanf3 tr))
                         (hd [] (frames_of sscanf3 tr)) /\
        frames_of sscanf3 tr = before ++ closestFrame :: after /\
        (forall f, In f before ->
           (RMSFrame meanFrame closestFrame <? RMSFrame meanFrame f)%REAL
           = true) /\
        (forall f, In f (frames_of sscanf3 tr) ->
           (RMSFrame meanFrame f <? RMSFrame meanFrame closestFrame)%REAL
           = false) /\
        w_stderr w' = w_stderr w) /\
  (forall (sscanf3 : string -> coord float)
          (n : nat) (tr : trajectory) (meanFrame : FRAME float),
      uniform n tr = true ->
      List.length meanFrame = n -> (1 <= Z.of_nat n < 2 ^ 31)%Z ->
      number_frame meanFrame = true ->
      forallb finite_frame (frames_of sscanf3 tr) = true ->
      orders (RT := float_RealType)
             (map (RMSFrame meanFrame) (frames_of sscanf3 tr))) /\
  (forall (sscanf3 : string -> coord R) (tr : trajectory)
          (meanFrame : FRAME R),
      orders (RT := R_RealType)
             (map (RMSFrame meanFrame) (frames_of sscanf3 tr))).
Proof.
  split; [|split].
  - intros REAL RT RL sscanf3 n tr meanFrame header w
           Hok Hu Hne Hm Hr Hrec Hord.
    destruct (FindClosestToMean_spec sscanf3 w meanFrame header Hr)
      as (w' & He & [Hf Hs] & _).
    rewrite Hrec in He, Hs.
    rewrite (closest_fold_render sscanf3 n tr header meanFrame Hok Hu Hne Hm)
      in He, Hs.
    cbn [fst snd] in He, Hs.
    destruct (uniform_shape sscanf3 n tr Hok Hu Hne) as (_ & _ & Hcons).
    destruct (frames_of sscanf3 tr) as [|f0 frames]; [discriminate Hcons|].
    cbn [hd tl] in *.
    destruct (keep_closest_first_minimum meanFrame frames [] [] f0)
      as (before & after & H1 & H2 & H3).
    + exact Hord.
    + intros f [].
    + intros f [Hf'|[]]. subst f.
      destruct Hord as (Hirr & _). apply Hirr.
      apply in_map. left. reflexivity.
    + cbn [app] in H1, H3.
      exists (keep_closest meanFrame frames f0), w', before, after.
      split; [exact He|]. split; [reflexivity|].
      split; [exact H1|]. split; [exact H2|]. split; [exact H3|].
      rewrite Hs. apply app_nil_r.
  - intros sscanf3 n tr meanFrame Hu Hm Hn Hnum Hfin.
    apply float_RMSFrame_orders; try assumption.
    + rewrite Hm. exact Hn.
    + rewrite Hm. apply frames_of_shape. exact Hu.
  - intros sscanf3 tr meanFrame. apply R_orders.
Qed.

Lemma selection_keeps_first_minimum_witness :
  exists closestFrame w' before after,
    FindClosestToMean sscanf3_decimal
      (initial_world (mkFILE (render tie_frames) (render tie_frames)))
      [c3 0 0 0] None = Some (closestFrame, w') /\
    closestFrame
      = keep_closest [c3 0 0 0] (tl (frames_of sscanf3_decimal tie_frames))
          (hd [] (frames_of sscanf3_decimal tie_frames)) /\
    frames_of sscanf3_decimal tie_frames = before ++ closestFrame :: after /\
    (forall f, In f before ->
       (RMSFrame [c3 0 0 0] closestFrame <? RMSFrame [c3 0 0 0] f)%REAL = true) /\
    (forall f, In f (frames_of sscanf3_decimal tie_frames) ->
       (RMSFrame [c3 0 0 0] f <? RMSFrame [c3 0 0 0] closestFrame)%REAL = false) /\
    w_stderr w' = [].
Proof.
  apply (proj1 selection_keeps_first_minimum float float_RealType
           float_RealLaws sscanf3_decimal 1 tie_frames [c3 0 0 0] None
           (initial_world (mkFILE (render tie_frames) (render tie_frames))));
    [reflexivity|reflexivity|discriminate|reflexivity|reflexivity|reflexivity|].
  apply (proj1 (proj2 selection_keeps_first_minimum) sscanf3_decimal 1
           tie_frames [c3 0 0 0]);
    [reflexivity|reflexivity|simpl; lia|reflexivity|reflexivity].
Defined.

(** C5. A frame without coordinate lines disagrees with the first
    frame in its coordinate count, yet the run on this file ends with
    status 0, writes nothing to [stderr] and prints a score: the empty
    frame and the frame after it are not read. *)
Theorem empty_frame_not_reported :
  main sscanf3_decimal
       (one_file "traj" (text_of_lines [">f1"; "1 2 3"; ">f2"; ">f3"; "7 8 9"]))
       ["flexcalc"; "traj"]
    = Some (mkOutcome 0 [Out_score 0%float] []) /\
  printf_4f 0%float = text_of_lines ["0.0000"].
Proof. split; vm_compute; reflexivity. Qed.

(** C6. Without an argument the program opens nothing, prints nothing,
    the usage text included, and returns 0. *)
Theorem no_argument_no_usage
    {REAL : Type} {RT : RealType REAL} (sscanf3 : string -> coord REAL)
    (fs : string -> option string) :
  main sscanf3 fs [PROGNAME] = Some (mkOutcome 0 [] []).
Proof. reflexivity. Qed.

(** C7, as stated, fails for a line longer than the line buffer: the
    file below is one line of 516 characters that begins with a
    coordinate triple and has [>] in column 511.  It has no header
    line, yet [fgets] delivers the line in two records, the second of
    which begins with [>]: [CountFrames] returns 1 and the run exits
    with status 0 and prints a score. *)
Lemma long_line_counts_as_header :
  let line := ("1 2 3" ++ string_of_list_ascii (repeat " "%char 505)
               ++ ">abcde")%string in
  let text := text_of_lines [line] in
  file_lines text = [line] /\
  count_headers (file_lines text) = 0 /\
  count_headers (fgets_records text) = 1 /\
  main sscanf3_decimal (one_file "traj" text) ["flexcalc"; "traj"]
    = Some (mkOutcome 0 [Out_score 0%float] []) /\
  printf_4f 0%float = text_of_lines ["0.0000"].
Proof.
  cbv zeta. split; [vm_compute; reflexivity|].
  split; [vm_compute; reflexivity|].
  split; [vm_compute; reflexivity|].
  split; vm_compute; reflexivity.
Qed.

(** C7 (amended).  When no line of the file begins with the header
    marker and every line is short enough for the line buffer (fewer
    than 510 characters), the run of [flexcalc inFile], with a file
    name that fits [inFile], ends with status 1, nothing on [stdout],
    and on [stderr] the one line of the empty-trajectory error. *)
Theorem no_header_line_no_frames
    {REAL : Type} {RT : RealType REAL} (sscanf3 : string -> coord REAL)
    (fs : string -> option string) (prog inFile text : string)
    (rest : list string) :
  inFile <> EmptyString -> String.length inFile < MAXFNM ->
  fs inFile = Some text ->
  forallb line_ok (file_lines text) = true ->
  count_headers (file_lines text) = 0 ->
  main sscanf3 fs (prog :: inFile :: rest)
    = Some (mkOutcome 1 [] [mkMsg "No frames in trajectory" (Some EmptyString)]) /\
  message_text (mkMsg "No frames in trajectory" (Some EmptyString))
    = Some (text_of_lines ["flexcalc error: No frames in trajectory"]).
Proof.
  intros Hne Hlen Hfs Hlines Hc. split; [|reflexivity].
  rewrite (main_pipeline sscanf3 fs (prog :: inFile :: rest) inFile text)
    by (try reflexivity; assumption).
  unfold pipeline, pipeline_on.
  rewrite CountFrames_loop_count by lia.
  rewrite count_headers_file_lines by exact Hlines.
  rewrite Hc. reflexivity.
Qed.

Lemma no_header_line_no_frames_witness :
  main sscanf3_decimal (one_file "traj" (text_of_lines ["1 2 3"; "4 5 6"]))
       ["flexcalc"; "traj"]
    = Some (mkOutcome 1 [] [mkMsg "No frames in trajectory" (Some EmptyString)]) /\
  message_text (mkMsg "No frames in trajectory" (Some EmptyString))
    = Some (text_of_lines ["flexcalc error: No frames in trajectory"]).
Proof.
  apply (no_header_line_no_frames sscanf3_decimal
           (one_file "traj" (text_of_lines ["1 2 3"; "4 5 6"]))
           "flexcalc" "traj" (text_of_lines ["1 2 3"; "4 5 6"]) []);
    [discriminate|vm_compute; lia|reflexivity|reflexivity|reflexivity].
Defined.

(** C8, as stated, fails when coordinate lines and no header precede
    the two adjacent headers: the lines before the first header are
    returned as the first frame, the pending header is the second one,
    and the frame after it is read and delivered to the passes. *)
Lemma adjacent_headers_after_leading_coordinates :
  let recs := fgets_records (text_of_lines ["1 2 3"; ">f1"; ">f2"; "4 5 6"]) in
  let cut := fgets_records (text_of_lines ["1 2 3"; ">f1"]) in
  is_header (nth 1 recs EmptyString) = true /\
  is_header (nth 2 recs EmptyString) = true /\
  map snd (read_frames sscanf3_decimal recs) = [[c3 1 2 3]; [c3 4 5 6]] /\
  map snd (read_frames sscanf3_decimal cut) = [[c3 1 2 3]] /\
  read_frames sscanf3_decimal recs <> read_frames sscanf3_decimal cut.
Proof.
  cbv zeta.
  split; [reflexivity|]. split; [reflexivity|].
  split; [vm_compute; reflexivity|]. split; [vm_compute; reflexivity|].
  intros H. apply (f_equal (@List.length _)) in H. vm_compute in H.
  discriminate H.
Qed.

(** C8 (amended).  Let the lines of the file all fit the line buffer,
    and let a header line [h1] be directly followed by a header line
    [h2].  When the lines before [h1] are N >= 1 frames of one shape,
    each a header line and coordinate lines of three decimal numbers,
    [ReadFrame] returns [NULL] for the frame of [h1]; the passes read
    the frames before [h1] and no more; [CountFrames] counts every
    header line, [h1], [h2] and those after them included; and the run
    exits with status 0, silent on [stderr], printing the RMSD sum over
    the frames before [h1] divided by the count of all header lines.
    When [h1] is the first line of the file nothing is silent: the run
    exits with status 1 and the message that the mean coordinates could
    not be calculated. *)
Theorem adjacent_header_lines_end_the_passes
    {REAL : Type} {RT : RealType REAL} {RL : RealLaws RT}
    (sscanf3 : string -> coord REAL) (fs : string -> option string)
    (prog inFile : string) (rest : list string)
    (h1 h2 : string) (post : list string) :
  inFile <> EmptyString -> String.length inFile < MAXFNM ->
  is_header h1 = true -> is_header h2 = true ->
  (forall (n : nat) (tr : trajectory),
      let lines := render tr ++ h1 :: h2 :: post in
      let frameCount := Z.of_nat (List.length tr + 2 + count_headers post) in
      let frames := frames_of sscanf3 tr in
      let meanFrame :=
        mean_of frameCount frames (map (fun _ => zero_coord) (hd [] frames)) in
      let closestFrame := keep_closest meanFrame (tl frames) (hd [] frames) in
      fs inFile = Some (text_of_lines lines) ->
      forallb line_ok lines = true ->
      traj_ok tr = true -> uniform n tr = true -> tr <> [] ->
      forallb three_decimals (flat_map snd tr) = true ->
      (frameCount < 2 ^ 63)%Z ->
      file_lines (text_of_lines lines) = lines /\
      (forall w header,
          f_unread (w_in w) = map with_newline (h2 :: post) ->
          w_firstEntry w = false ->
          fst (fst (ReadFrame sscanf3 w header)) = []) /\
      map snd (read_frames sscanf3 (fgets_records (text_of_lines lines)))
        = frames /\
      CountFrames_loop (fgets_records (text_of_lines lines)) 0 = frameCount /\
      main sscanf3 fs (prog :: inFile :: rest)
        = Some (mkOutcome 0
                  [Out_score (rmsd_sum closestFrame frames
                              / r_of_Z frameCount)%REAL] [])) /\
  (let lines := h1 :: h2 :: post in
   fs inFile = Some (text_of_lines lines) ->
   forallb line_ok lines = true ->
   (Z.of_nat (2 + count_headers post) < 2 ^ 64)%Z ->
   file_lines (text_of_lines lines) = lines /\
   main sscanf3 fs (prog :: inFile :: rest)
     = Some (mkOutcome 1 []
               [mkMsg "Unable to calculate mean coordinates"
                      (Some EmptyString)])).
Proof.
  intros Hname Hlen H1 H2. split.
  - intros n tr lines frameCount frames meanFrame closestFrame
           Hfs Hlines Hok Hu Hne H3 Hb.
    assert (Hrecs : fgets_records (text_of_lines lines)
                    = render (with_newlines tr)
                      ++ with_newline h1 :: with_newline h2
                         :: map with_newline post).
    { rewrite fgets_records_lines by exact Hlines. unfold lines.
      rewrite map_app, render_with_newlines. reflexivity. }
    assert (Hlt : forallb line_ok (render tr) = true).
    { unfold lines in Hlines. rewrite forallb_app in Hlines.
      apply andb_prop in Hlines. tauto. }
    assert (Hok' : traj_ok (with_newlines tr) = true)
      by (rewrite traj_ok_with_newlines; exact Hok).
    assert (Hu' : uniform n (with_newlines tr) = true)
      by (rewrite uniform_with_newlines; exact Hu).
    assert (Hne' : with_newlines tr <> [])
      by (destruct tr; [congruence|discriminate]).
    assert (Hread : read_frames sscanf3 (fgets_records (text_of_lines lines))
                    = read_frames sscanf3 (render (with_newlines tr))).
    { rewrite Hrecs. apply read_frames_render_then_headers;
        try assumption; rewrite is_header_with_newline; assumption. }
    assert (Hcount : CountFrames_loop (fgets_records (text_of_lines lines)) 0
                     = frameCount).
    { rewrite CountFrames_loop_count by lia.
      rewrite fgets_records_lines by exact Hlines.
      rewrite count_headers_with_newline. unfold lines.
      change (h1 :: h2 :: post) with ([h1; h2] ++ post).
      rewrite !count_headers_app, count_headers_render by exact Hok.
      assert (Hc : count_headers [h1; h2] = 2)
        by (unfold count_headers; cbn [filter]; rewrite H1, H2; reflexivity).
      rewrite Hc, Z.add_0_l. unfold ulong_wrap.
      rewrite Z.mod_small; unfold frameCount in *; lia. }
    split; [apply file_lines_text_of_lines; exact Hlines|].
    split.
    { intros w header Hun Hfe.
      apply (ReadFrame_empty_frame sscanf3 w header (with_newline h2)
               (map with_newline post)); try assumption.
      rewrite is_header_with_newline. exact H2. }
    split.
    { rewrite Hread, read_frames_render_frames by exact Hok'.
      apply frames_of_with_newlines. exact Hlt. }
    split; [exact Hcount|].
    rewrite (main_pipeline sscanf3 fs (prog :: inFile :: rest) inFile
               (text_of_lines lines) eq_refl Hname Hfs).
    f_equal. unfold pipeline. rewrite Hcount, Hread.
    rewrite (pipeline_on_uniform sscanf3 n (with_newlines tr) frameCount)
      by (try assumption; unfold frameCount in *; lia).
    rewrite frames_of_with_newlines by exact Hlt. reflexivity.
  - intros lines Hfs Hlines Hb.
    split; [apply file_lines_text_of_lines; exact Hlines|].
    rewrite (main_on_lines sscanf3 fs prog inFile rest lines Hname Hfs Hlines).
    f_equal. unfold pipeline, lines. cbn [map].
    rewrite read_frames_empty_first
      by (try (right; cbn [hd]); rewrite is_header_with_newline; assumption).
    rewrite CountFrames_loop_count by lia.
    change (with_newline h1 :: with_newline h2 :: map with_newline post)
      with (map with_newline (h1 :: h2 :: post)).
    rewrite count_headers_with_newline.
    assert (Hc : count_headers (h1 :: h2 :: post) = 2 + count_headers post)
      by (unfold count_headers; cbn [filter]; rewrite H1, H2; reflexivity).
    rewrite Hc, Z.add_0_l. unfold ulong_wrap. rewrite Z.mod_small by lia.
    unfold pipeline_on.
    replace (Z.of_nat (2 + count_headers post) <? 1)%Z with false
      by (symmetry; apply Z.ltb_ge; lia).
    reflexivity.
Qed.

Lemma adjacent_header_lines_end_the_passes_witness :
  let text := text_of_lines [">f1"; "1 2 3"; ">f2"; ">f3"; "7 8 9"] in
  map snd (read_frames sscanf3_decimal (fgets_records text)) = [[c3 1 2 3]] /\
  CountFrames_loop (fgets_records text) 0 = 3%Z /\
  main sscanf3_decimal (one_file "traj" text) ["flexcalc"; "traj"]
    = Some (mkOutcome 0 [Out_score (0 / 3)%float] []) /\
  main sscanf3_decimal (one_file "traj" (text_of_lines [">f2"; ">f3"; "7 8 9"]))
       ["flexcalc"; "traj"]
    = Some (mkOutcome 1 []
              [mkMsg "Unable to calculate mean coordinates"
                     (Some EmptyString)]).
Proof.
  cbv zeta.
  pose proof (adjacent_header_lines_end_the_passes sscanf3_decimal
                (one_file "traj"
                   (text_of_lines [">f1"; "1 2 3"; ">f2"; ">f3"; "7 8 9"]))
                "flexcalc" "traj" [] ">f2" ">f3" ["7 8 9"]
                ltac:(discriminate) ltac:(vm_compute; lia) eq_refl eq_refl)
    as [Ha _].
  pose proof (adjacent_header_lines_end_the_passes sscanf3_decimal
                (one_file "traj" (text_of_lines [">f2"; ">f3"; "7 8 9"]))
                "flexcalc" "traj" [] ">f2" ">f3" ["7 8 9"]
                ltac:(discriminate) ltac:(vm_compute; lia) eq_refl eq_refl)
    as [_ Hb].
  destruct (Ha 1 [(">f1", ["1 2 3"])] eq_refl eq_refl eq_refl eq_refl
              ltac:(discriminate) eq_refl ltac:(vm_compute; reflexivity))
    as (_ & _ & Hr & Hc & Hm).
  destruct (Hb eq_refl eq_refl ltac:(vm_compute; reflexivity)) as (_ & Hm').
  split; [exact Hr|]. split; [exact Hc|]. split; [exact Hm|exact Hm'].
Defined.

(** C9, as stated, fails at binary64: for six identical frames with the
    atom (0.1, 0, 0) the mean frame the code computes differs from the
    frame in its x coordinate, and the RMSD of the frame to the mean
    frame is not zero. *)
Lemma identical_frames_mean_rounded :
  let frame := parse_coords sscanf3_decimal ["0.1 0 0"] in
  all_frames_are sscanf3_decimal frame six_frames /\
  exists meanFrame,
    option_map fst
      (CalculateMeanCoords sscanf3_decimal
         (initial_world (mkFILE (render six_frames) (render six_frames))) 6)
      = Some meanFrame /\
    meanFrame <> frame /\
    PrimFloat.eqb (x (nth 0 meanFrame zero_coord)) (x (nth 0 frame zero_coord))
      = false /\
    PrimFloat.eqb (RMSFrame meanFrame frame) 0%float = false.
Proof.
  cbv zeta. split.
  - unfold all_frames_are, six_frames. simpl. repeat constructor.
  - eexists. split; [vm_compute; reflexivity|].
    split; [|split; vm_compute; reflexivity].
    intros H.
    apply (f_equal (fun f : FRAME float =>
                      PrimFloat.eqb (x (nth 0 f zero_coord))
                        (x (nth 0 (parse_coords sscanf3_decimal ["0.1 0 0"])
                                zero_coord)))) in H.
    vm_compute in H. discriminate H.
Qed.

(** C9 (amended).  For every trajectory of N >= 1 identical frames
    whose coordinates are finite numbers (the atom count within [int],
    N below 2^63), at binary64 the frame kept as nearest to the mean is
    that frame, its RMSD to itself is 0, and the run prints the score 0,
    which [%.4f] shows as 0.0000.  In exact arithmetic, moreover, the
    mean frame equals the frame and the nearest frame has RMSD 0 to the
    mean. *)
Theorem identical_frames_score_zero :
  (forall (sscanf3 : string -> coord float) (frame : FRAME float)
          (tr : trajectory),
      traj_ok tr = true -> tr <> [] ->
      all_frames_are sscanf3 frame tr ->
      finite_frame frame = true ->
      (Z.of_nat (List.length frame) < 2 ^ 31)%Z ->
      (Z.of_nat (List.length tr) < 2 ^ 63)%Z ->
      trajectory_closest sscanf3 tr = frame /\
      RMSFrame frame frame = 0%float /\
      main_opened sscanf3 (mkFILE (render tr) (render tr))
        = Some (mkOutcome 0 [Out_score 0%float] []) /\
      printf_4f 0%float = text_of_lines ["0.0000"]) /\
  (forall (sscanf3 : string -> coord R) (frame : FRAME R) (tr : trajectory),
      traj_ok tr = true -> tr <> [] ->
      all_frames_are sscanf3 frame tr ->
      (Z.of_nat (List.length tr) < 2 ^ 63)%Z ->
      trajectory_mean sscanf3 tr = frame /\
      trajectory_closest sscanf3 tr = frame /\
      RMSFrame (trajectory_mean sscanf3 tr) (trajectory_closest sscanf3 tr)
        = 0%R /\
      main_opened sscanf3 (mkFILE (render tr) (render tr))
        = Some (mkOutcome 0 [Out_score 0%R] [])).
Proof.
  split.
  - intros sscanf3 frame tr Hok Hne Hall Hfin Hb HN.
    pose proof (identical_uniform sscanf3 frame tr Hall) as Hu.
    destruct (uniform_shape sscanf3 _ tr Hok Hu Hne) as (Hn & _ & _).
    split; [apply identical_closest; assumption|].
    split; [apply float_RMSFrame_self; assumption|].
    split; [|vm_compute; reflexivity].
    rewrite main_opened_pipeline.
    rewrite (pipeline_uniform sscanf3 _ tr Hok Hu Hne HN).
    rewrite (float_identical_score sscanf3 frame tr) by assumption.
    reflexivity.
  - intros sscanf3 frame tr Hok Hne Hall HN.
    pose proof (identical_uniform sscanf3 frame tr Hall) as Hu.
    pose proof (R_identical_mean sscanf3 frame tr Hall Hne) as Hm.
    pose proof (identical_closest sscanf3 frame tr Hall Hne) as Hc.
    split; [exact Hm|]. split; [exact Hc|].
    split; [rewrite Hm, Hc; apply R_RMSFrame_self|].
    rewrite main_opened_pipeline.
    rewrite (pipeline_uniform sscanf3 _ tr Hok Hu Hne HN).
    rewrite (R_identical_score sscanf3 frame tr) by assumption.
    reflexivity.
Qed.

Lemma identical_frames_score_zero_witness :
  (trajectory_closest sscanf3_decimal six_frames
     = parse_coords sscanf3_decimal ["0.1 0 0"] /\
   RMSFrame (parse_coords sscanf3_decimal ["0.1 0 0"])
            (parse_coords sscanf3_decimal ["0.1 0 0"]) = 0%float /\
   main_opened sscanf3_decimal
     (mkFILE (render six_frames) (render six_frames))
     = Some (mkOutcome 0 [Out_score 0%float] []) /\
   printf_4f 0%float = text_of_lines ["0.0000"]) /\
  (trajectory_mean (fun _ => mkCoord 1%R 2%R 3%R) six_frames
     = [mkCoord 1%R 2%R 3%R] /\
   trajectory_closest (fun _ => mkCoord 1%R 2%R 3%R) six_frames
     = [mkCoord 1%R 2%R 3%R] /\
   RMSFrame (trajectory_mean (fun _ => mkCoord 1%R 2%R 3%R) six_frames)
            (trajectory_closest (fun _ => mkCoord 1%R 2%R 3%R) six_frames)
     = 0%R /\
   main_opened (fun _ => mkCoord 1%R 2%R 3%R)
     (mkFILE (render six_frames) (render six_frames))
     = Some (mkOutcome 0 [Out_score 0%R] [])).
Proof.
  split.
  - apply (proj1 identical_frames_score_zero sscanf3_decimal
             (parse_coords sscanf3_decimal ["0.1 0 0"]) six_frames);
      [reflexivity|discriminate|repeat constructor|reflexivity
      |simpl; lia|simpl; lia].
  - apply (proj2 identical_frames_score_zero (fun _ => mkCoord 1%R 2%R 3%R)
             [mkCoord 1%R 2%R 3%R] six_frames);
      [reflexivity|discriminate|repeat constructor|simpl; lia].
Defined.

(** C10, as stated, fails: the two files hold the same frames in a
    different order and have the same mean frame, yet the runs print
    different scores, because of two frames equally near to the mean
    the one read first is kept. *)
Lemma reordering_changes_score :
  Permutation order_ab order_ba /\
  trajectory_mean sscanf3_decimal order_ab
    = trajectory_mean sscanf3_decimal order_ba /\
  exists score_ab score_ba : float,
    main_opened sscanf3_decimal (mkFILE (render order_ab) (render order_ab))
      = Some (mkOutcome 0 [Out_score score_ab] []) /\
    main_opened sscanf3_decimal (mkFILE (render order_ba) (render order_ba))
      = Some (mkOutcome 0 [Out_score score_ba] []) /\
    printf_4f score_ab = text_of_lines ["1.7071"] /\
    printf_4f score_ba = text_of_lines ["1.8512"] /\
    PrimFloat.eqb score_ab score_ba = false.
Proof.
  split; [apply perm_swap|].
  split; [vm_compute; reflexivity|].
  eexists. eexists.
  split; [vm_compute; reflexivity|].
  split; [vm_compute; reflexivity|].
  split; [vm_compute; reflexivity|].
  split; vm_compute; reflexivity.
Qed.

(** At binary64 the condition of a single nearest frame does not
    carry the score over to every reordering.  The four frames below
    have two frames equally near to the mean in exact arithmetic; with
    the rounding of the mean in the first order one of them is strictly
    nearest, and the run on the second order keeps the other one and
    prints another score. *)
Lemma reordering_changes_rounding :
  let tr := [(">b", ["0.3 1.3 0.7"]); (">c", ["-2.7 0.3 0.7"]);
             (">a", ["1.3 0.3 0.7"]); (">d", ["2.3 -0.7 0.7"])] in
  let tr' := [(">a", ["1.3 0.3 0.7"]); (">c", ["-2.7 0.3 0.7"]);
              (">b", ["0.3 1.3 0.7"]); (">d", ["2.3 -0.7 0.7"])] in
  Permutation tr tr' /\
  forallb finite_frame (frames_of sscanf3_decimal tr) = true /\
  number_frame (trajectory_mean sscanf3_decimal tr) = true /\
  one_nearest (trajectory_mean sscanf3_decimal tr)
              (frames_of sscanf3_decimal tr) = true /\
  main_opened sscanf3_decimal (mkFILE (render tr) (render tr))
    = Some (mkOutcome 0 [Out_score (trajectory_score sscanf3_decimal tr)] []) /\
  main_opened sscanf3_decimal (mkFILE (render tr') (render tr'))
    = Some (mkOutcome 0 [Out_score (trajectory_score sscanf3_decimal tr')] []) /\
  printf_4f (trajectory_score sscanf3_decimal tr) = text_of_lines ["1.8512"] /\
  printf_4f (trajectory_score sscanf3_decimal tr') = text_of_lines ["1.7071"].
Proof.
  cbv zeta. split.
  - apply (perm_trans
             (l' := [(">c", ["-2.7 0.3 0.7"]); (">b", ["0.3 1.3 0.7"]);
                     (">a", ["1.3 0.3 0.7"]); (">d", ["2.3 -0.7 0.7"])])).
    + apply perm_swap.
    + apply (perm_trans
               (l' := [(">c", ["-2.7 0.3 0.7"]); (">a", ["1.3 0.3 0.7"]);
                       (">b", ["0.3 1.3 0.7"]); (">d", ["2.3 -0.7 0.7"])])).
      * apply perm_skip. apply perm_swap.
      * apply perm_swap.
  - split; [vm_compute; reflexivity|]. split; [vm_compute; reflexivity|].
    split; [vm_compute; reflexivity|]. split; [vm_compute; reflexivity|].
    split; [vm_compute; reflexivity|]. split; vm_compute; reflexivity.
Qed.

(** C10 (amended).  For a trajectory of frames of one shape (atom
    count within [int], fewer than 2^63 frames):
    in binary64, the arithmetic of the code, exchanging the first two
    frames of the file leaves the mean frame as it is, bit for bit; and
    when the coordinates are finite, the mean frame holds no NaN and
    exactly one frame has no frame strictly nearer to the mean, the
    frame kept, the score and the whole run are the same as well;
    in exact arithmetic the same holds for every reordering of the
    frames: the mean frame is the same, and when at most one frame is
    nearest to the mean frame, so are the frame kept, the score and the
    whole run. *)
Theorem reordering_keeps_the_result :
  (forall (sscanf3 : string -> coord float) (n : nat)
          (f1 f2 : string * list string) (rest : trajectory),
      traj_ok (f1 :: f2 :: rest) = true ->
      uniform n (f1 :: f2 :: rest) = true ->
      (Z.of_nat n < 2 ^ 31)%Z ->
      (Z.of_nat (List.length (f1 :: f2 :: rest)) < 2 ^ 63)%Z ->
      trajectory_mean sscanf3 (f2 :: f1 :: rest)
        = trajectory_mean sscanf3 (f1 :: f2 :: rest) /\
      (forallb finite_frame (frames_of sscanf3 (f1 :: f2 :: rest)) = true ->
       number_frame (trajectory_mean sscanf3 (f1 :: f2 :: rest)) = true ->
       one_nearest (trajectory_mean sscanf3 (f1 :: f2 :: rest))
                   (frames_of sscanf3 (f1 :: f2 :: rest)) = true ->
       trajectory_closest sscanf3 (f2 :: f1 :: rest)
         = trajectory_closest sscanf3 (f1 :: f2 :: rest) /\
       main_opened sscanf3
         (mkFILE (render (f1 :: f2 :: rest)) (render (f1 :: f2 :: rest)))
         = Some (mkOutcome 0
                   [Out_score (trajectory_score sscanf3 (f1 :: f2 :: rest))]
                   []) /\
       main_opened sscanf3
         (mkFILE (render (f2 :: f1 :: rest)) (render (f2 :: f1 :: rest)))
         = main_opened sscanf3
             (mkFILE (render (f1 :: f2 :: rest))
                     (render (f1 :: f2 :: rest))))) /\
  (forall (sscanf3 : string -> coord R) (n : nat) (tr tr' : trajectory),
      Permutation tr tr' ->
      traj_ok tr = true -> uniform n tr = true -> tr <> [] ->
      (Z.of_nat (List.length tr) < 2 ^ 63)%Z ->
      trajectory_mean sscanf3 tr' = trajectory_mean sscanf3 tr /\
      (nearest_unique (trajectory_mean sscanf3 tr) (frames_of sscanf3 tr) ->
       trajectory_closest sscanf3 tr' = trajectory_closest sscanf3 tr /\
       main_opened sscanf3 (mkFILE (render tr) (render tr))
         = Some (mkOutcome 0 [Out_score (trajectory_score sscanf3 tr)] []) /\
       main_opened sscanf3 (mkFILE (render tr') (render tr'))
         = main_opened sscanf3 (mkFILE (render tr) (render tr)))).
Proof.
  split.
  - intros sscanf3 n f1 f2 rest Hok Hu Hn HN.
    set (tr := f1 :: f2 :: rest) in *. set (tr' := f2 :: f1 :: rest).
    assert (Hne : tr <> []) by discriminate.
    assert (Hne' : tr' <> []) by discriminate.
    assert (Hok' : traj_ok tr' = true).
    { unfold traj_ok, tr, tr' in *. cbn [forallb] in *.
      rewrite andb_assoc, (andb_comm (frame_ok f2)), <- andb_assoc.
      exact Hok. }
    assert (Hu' : uniform n tr' = true).
    { unfold uniform, tr, tr' in *. cbn [forallb] in *.
      rewrite andb_assoc, (andb_comm (Nat.eqb _ n) (Nat.eqb _ n)),
        <- andb_assoc. exact Hu. }
    pose proof (frames_of_shape sscanf3 n tr Hu) as Hshape.
    destruct (uniform_shape sscanf3 n tr Hok Hu Hne) as (Hn1 & _ & _).
    pose proof (trajectory_mean_length sscanf3 n tr Hok Hu Hne) as Hml.
    set (a := parse_coords sscanf3 (snd f1)) in *.
    set (b := parse_coords sscanf3 (snd f2)) in *.
    set (frames := frames_of sscanf3 rest) in *.
    assert (Hfr : frames_of sscanf3 tr = a :: b :: frames) by reflexivity.
    assert (Hfr' : frames_of sscanf3 tr' = b :: a :: frames) by reflexivity.
    rewrite Hfr in Hshape.
    assert (Hab : List.length a = List.length b).
    { inversion Hshape as [|? ? Ha Hl]; subst.
      inversion Hl as [|? ? Hb Hr]; subst. congruence. }
    assert (Hmean : trajectory_mean sscanf3 tr' = trajectory_mean sscanf3 tr).
    { unfold trajectory_mean. cbv zeta. rewrite Hfr, Hfr'.
      change (List.length tr') with (List.length tr).
      apply float_mean_first_two. exact Hab. }
    split; [exact Hmean|].
    intros Hfin Hnum H1.
    assert (Hclosest : trajectory_closest sscanf3 tr'
                       = trajectory_closest sscanf3 tr).
    { unfold trajectory_closest. cbv zeta. rewrite Hmean, Hfr, Hfr'.
      cbn [hd tl]. rewrite Hfr in Hfin, H1.
      apply float_closest_first_two; try assumption.
      - rewrite Hml. lia.
      - rewrite Hml. exact Hshape. }
    assert (Hscore : trajectory_score sscanf3 tr'
                     = trajectory_score sscanf3 tr).
    { unfold trajectory_score. rewrite Hclosest, Hfr, Hfr'.
      rewrite float_rmsd_sum_first_two. reflexivity. }
    split; [exact Hclosest|].
    rewrite !main_opened_pipeline.
    rewrite (pipeline_uniform sscanf3 n tr Hok Hu Hne HN).
    rewrite (pipeline_uniform sscanf3 n tr' Hok' Hu' Hne' HN).
    rewrite Hscore. split; reflexivity.
  - intros sscanf3 n tr tr' Hp Hok Hu Hne HN.
    split; [apply (R_mean_Permutation sscanf3 n); assumption|].
    intros Huniq.
    assert (Hok' : traj_ok tr' = true)
      by (unfold traj_ok; rewrite <- (forallb_Permutation _ tr tr' Hp);
          exact Hok).
    assert (Hu' : uniform n tr' = true)
      by (unfold uniform; rewrite <- (forallb_Permutation _ tr tr' Hp);
          exact Hu).
    pose proof (Permutation_nonempty tr tr' Hp Hne) as Hne'.
    assert (HN' : (Z.of_nat (List.length tr') < 2 ^ 63)%Z)
      by (rewrite <- (Permutation_length Hp); exact HN).
    split; [apply (R_closest_Permutation sscanf3 n); assumption|].
    rewrite !main_opened_pipeline.
    rewrite (pipeline_uniform sscanf3 n tr Hok Hu Hne HN).
    rewrite (pipeline_uniform sscanf3 n tr' Hok' Hu' Hne' HN').
    rewrite (R_score_Permutation sscanf3 n tr tr' Hp Hok Hu Hne Huniq).
    split; reflexivity.
Qed.

Lemma R_RMSFrame_axis (a b : R) :
  RMSFrame (RT := R_RealType) [mkCoord a 0%R 0%R] [mkCoord b 0%R 0%R]
    = Rabs (a - b).
Proof.
  unfold RMSFrame. cbn [RMSFrame_loop]. unfold sqdev. cbn [x y z].
  change (int_wrap (0 + 1)) with 1%Z. simpl.
  replace ((0 + ((a - b) * (a - b) + (0 - 0) * (0 - 0) + (0 - 0) * (0 - 0))) / 1)%R
    with (Rsqr (a - b)) by (unfold Rsqr; field).
  apply sqrt_Rsqr_abs.
Qed.

Lemma axis_frames_mean :
  trajectory_mean scan_axis axis_frames = [mkCoord 2%R 0%R 0%R].
Proof.
  unfold trajectory_mean, axis_frames, mean_of. simpl. f_equal. f_equal; lra.
Qed.

Lemma axis_frames_nearest_unique :
  nearest_unique (trajectory_mean scan_axis axis_frames)
                 (frames_of scan_axis axis_frames).
Proof.
  rewrite axis_frames_mean. unfold nearest_unique.
  assert (Hfr : frames_of scan_axis axis_frames
                = [[mkCoord 0 0 0]; [mkCoord 1 0 0]; [mkCoord 5 0 0]]%R)
    by reflexivity.
  rewrite Hfr. intros f g Hf Hg Hmf Hmg.
  assert (HB : In [mkCoord 1%R 0%R 0%R]
                  [[mkCoord 0 0 0]; [mkCoord 1 0 0]; [mkCoord 5 0 0]]%R)
    by (right; left; reflexivity).
  specialize (Hmf _ HB). specialize (Hmg _ HB).
  simpl in Hf, Hg.
  destruct Hf as [<-|[<-|[<-|[]]]]; destruct Hg as [<-|[<-|[<-|[]]]];
    try reflexivity;
    exfalso; rewrite !R_RMSFrame_axis in *; simpl in *;
    apply Rltb_false in Hmf, Hmg; unfold Rabs in *;
    repeat match goal with
           | H : context [Rcase_abs ?v] |- _ => destruct (Rcase_abs v)
           end; lra.
Qed.

Lemma reordering_keeps_the_result_witness :
  (let tr := [(">a", ["1 2 3"; "4 5 6"]); (">b", ["3 2 1"; "6 5 4"]);
              (">c", ["2 2 2"; "5 5 5"])] in
   let tr' := [(">b", ["3 2 1"; "6 5 4"]); (">a", ["1 2 3"; "4 5 6"]);
               (">c", ["2 2 2"; "5 5 5"])] in
   trajectory_mean sscanf3_decimal tr' = trajectory_mean sscanf3_decimal tr /\
   trajectory_closest sscanf3_decimal tr'
     = trajectory_closest sscanf3_decimal tr /\
   main_opened sscanf3_decimal (mkFILE (render tr) (render tr))
     = Some (mkOutcome 0 [Out_score (trajectory_score sscanf3_decimal tr)]
                       []) /\
   main_opened sscanf3_decimal (mkFILE (render tr') (render tr'))
     = main_opened sscanf3_decimal (mkFILE (render tr) (render tr))) /\
  (trajectory_mean scan_axis axis_frames_reordered
     = trajectory_mean scan_axis axis_frames /\
   trajectory_closest scan_axis axis_frames_reordered
     = trajectory_closest scan_axis axis_frames /\
   main_opened scan_axis
     (mkFILE (render axis_frames_reordered) (render axis_frames_reordered))
     = main_opened scan_axis (mkFILE (render axis_frames) (render axis_frames))).
Proof.
  cbv zeta. split.
  - destruct (proj1 reordering_keeps_the_result sscanf3_decimal 2
                (">a", ["1 2 3"; "4 5 6"]) (">b", ["3 2 1"; "6 5 4"])
                [(">c", ["2 2 2"; "5 5 5"])])
      as [Hm Hrest];
      [reflexivity|reflexivity|simpl; lia|simpl; lia|].
    split; [exact Hm|].
    apply Hrest; reflexivity.
  - destruct (proj2 reordering_keeps_the_result scan_axis 1 axis_frames
                axis_frames_reordered) as [Hm Hrest].
    + apply Permutation_sym.
      apply (Permutation_cons_append [(">a", ["0"]); (">b", ["1"])]
               (">c", ["5"])).
    + reflexivity.
    + reflexivity.
    + discriminate.
    + simpl. lia.
    + destruct (Hrest axis_frames_nearest_unique) as (Hc & _ & Hr).
      split; [exact Hm|]. split; [exact Hc|exact Hr].
Defined.

(** * Further properties of the code *)

(** ** The run as a whole *)

(** X1. On a file that holds a trajectory of N >= 1 frames with the
    same number of coordinate lines each, every line short enough for
    the line buffer and every coordinate line three decimal numbers,
    the run of [flexcalc inFile], with a file name that fits [inFile],
    exits with status 0, writes nothing to [stderr] and prints one
    value: the sum, in file order, of the RMSDs of the frames to the
    frame kept as nearest to the running mean, divided by N. *)
Theorem main_prints_the_score
    {REAL : Type} {RT : RealType REAL} {RL : RealLaws RT}
    (sscanf3 : string -> coord REAL) (fs : string -> option string)
    (prog inFile : string) (rest : list string) (n : nat) (tr : trajectory) :
  inFile <> EmptyString -> String.length inFile < MAXFNM ->
  fs inFile = Some (text_of_lines (render tr)) ->
  forallb line_ok (render tr) = true ->
  forallb three_decimals (flat_map snd tr) = true ->
  traj_ok tr = true -> uniform n tr = true -> tr <> [] ->
  (Z.of_nat (List.length tr) < 2 ^ 63)%Z ->
  main sscanf3 fs (prog :: inFile :: rest)
    = Some (mkOutcome 0 [Out_score (trajectory_score sscanf3 tr)] []).
Proof.
  intros Hname _ Hfs Hlines _ Hok Hu Hne Hb.
  apply (main_on_uniform_text sscanf3 fs prog inFile rest n tr); assumption.
Qed.

Lemma main_prints_the_score_witness :
  main sscanf3_decimal
       (one_file "traj" (text_of_lines (render three_frames)))
       ["flexcalc"; "traj"]
    = Some (mkOutcome 0
              [Out_score (trajectory_score sscanf3_decimal three_frames)] []).
Proof.
  apply (main_prints_the_score sscanf3_decimal
           (one_file "traj" (text_of_lines (render three_frames)))
           "flexcalc" "traj" [] 2 three_frames);
    [discriminate|vm_compute; lia|reflexivity|reflexivity|reflexivity
    |reflexivity|reflexivity|discriminate|simpl; lia].
Defined.





(** X4. When the file begins with a header record that the end of the
    file or another header record follows at once, the first frame has
    no coordinates: the program exits with status 1 and the one
    message that the mean coordinates could not be calculated, whatever
    the rest of the file holds. *)
Theorem empty_first_frame_stops_the_run
    {REAL : Type} {RT : RealType REAL} (sscanf3 : string -> coord REAL)
    (h : string) (post : list string) :
  is_header h = true ->
  post = [] \/ is_header (hd EmptyString post) = true ->
  (Z.of_nat (count_headers (h :: post)) < 2 ^ 64)%Z ->
  main_opened sscanf3 (mkFILE (h :: post) (h :: post))
    = Some (mkOutcome 1 []
              [mkMsg "Unable to calculate mean coordinates"
                     (Some EmptyString)]).
Proof.
  intros Hh Hp Hb. rewrite main_opened_pipeline. unfold pipeline.
  rewrite read_frames_empty_first by assumption.
  rewrite CountFrames_loop_count by lia. unfold ulong_wrap.
  rewrite Z.add_0_l, Z.mod_small by lia.
  unfold pipeline_on.
  assert (Hc : 1 <= count_headers (h :: post)).
  { unfold count_headers. cbn [filter]. rewrite Hh. simpl. lia. }
  replace (Z.of_nat (count_headers (h :: post)) <? 1)%Z with false
    by (symmetry; apply Z.ltb_ge; lia).
  reflexivity.
Qed.

Lemma empty_first_frame_stops_the_run_witness :
  main_opened sscanf3_decimal
    (mkFILE (fgets_records (text_of_lines [">a"; ">b"; "1 2 3"]))
            (fgets_records (text_of_lines [">a"; ">b"; "1 2 3"])))
    = Some (mkOutcome 1 []
              [mkMsg "Unable to calculate mean coordinates"
                     (Some EmptyString)]).
Proof.
  apply (empty_first_frame_stops_the_run sscanf3_decimal
           (text_of_lines [">a"])
           (fgets_records (text_of_lines [">b"; "1 2 3"])));
    [reflexivity|right; reflexivity|vm_compute; reflexivity].
Defined.

(** ** Reading the file *)



(** X6. Records that precede the first header record are not skipped:
    their triples are put in front of the first frame, which thereby
    has more atoms than its coordinate lines; the other frames and the
    header count are not affected. *)
Theorem leading_lines_join_the_first_frame
    {REAL : Type} {RT : RealType REAL} (sscanf3 : string -> coord REAL)
    (pre : list string) (h : string) (cs : list string) (tr : trajectory) :
  forallb (fun c => negb (is_header c)) pre = true ->
  traj_ok ((h, cs) :: tr) = true ->
  map snd (read_frames sscanf3 (pre ++ render ((h, cs) :: tr)))
    = (parse_coords sscanf3 pre ++ parse_coords sscanf3 cs)
      :: frames_of sscanf3 tr /\
  count_headers (pre ++ render ((h, cs) :: tr)) = S (List.length tr).
Proof.
  intros Hpre Hok. split.
  - rewrite read_frames_scan.
    rewrite scan_frames_coords by exact Hpre.
    cbn [app render flat_map fst snd].
    cbn [traj_ok forallb] in Hok. apply andb_prop in Hok.
    destruct Hok as [Hf Hok]. unfold frame_ok in Hf. cbn [fst snd] in Hf.
    apply andb_prop in Hf. destruct Hf as [Hf Hcs].
    apply andb_prop in Hf. destruct Hf as [Hh Hlen].
    cbn [scan_frames]. rewrite is_header_TERMINATE, Hh. cbn [negb].
    rewrite scan_frames_coords by exact Hcs.
    fold (render tr).
    rewrite scan_frames_later.
    + cbn [map snd]. f_equal.
      rewrite map_snd_combine_length; [reflexivity|].
      unfold frames_of. rewrite !length_map. reflexivity.
    + exact Hok.
    + intros E. apply app_eq_nil in E. destruct E as [_ E].
      apply (parse_coords_nonempty sscanf3 cs Hlen). exact E.
  - rewrite count_headers_app, count_headers_coords by exact Hpre.
    rewrite count_headers_render by exact Hok. reflexivity.
Qed.

Lemma leading_lines_join_the_first_frame_witness :
  map snd (read_frames sscanf3_decimal
             (["9 9 9"] ++ render [(">a", ["1 2 3"]); (">b", ["4 5 6"])]))
    = (parse_coords sscanf3_decimal ["9 9 9"]
       ++ parse_coords sscanf3_decimal ["1 2 3"])
      :: frames_of sscanf3_decimal [(">b", ["4 5 6"])] /\
  count_headers (["9 9 9"] ++ render [(">a", ["1 2 3"]); (">b", ["4 5 6"])])
    = 2.
Proof.
  apply (leading_lines_join_the_first_frame sscanf3_decimal
           ["9 9 9"] ">a" ["1 2 3"] [(">b", ["4 5 6"])]);
    reflexivity.
Defined.

(** X7. When the file has a header record at all, the passes never
    read more frames than [CountFrames] counted header records: the
    divisor of the mean and of the score is at least the number of
    frames added up. *)
Theorem passes_read_no_more_than_counted
    {REAL : Type} {RT : RealType REAL} (sscanf3 : string -> coord REAL)
    (recs : list string) :
  1 <= count_headers recs ->
  List.length (read_frames sscanf3 recs) <= count_headers recs.
Proof.
  intros H. rewrite read_frames_scan.
  pose proof (scan_frames_count sscanf3 recs true None []) as Hc.
  cbv iota in Hc. lia.
Qed.

Lemma passes_read_no_more_than_counted_witness :
  List.length (read_frames sscanf3_decimal [">a"; ">b"; "1 2 3"; ">c"])
    <= count_headers [">a"; ">b"; "1 2 3"; ">c"].
Proof.
  apply (passes_read_no_more_than_counted sscanf3_decimal
           [">a"; ">b"; "1 2 3"; ">c"]).
  vm_compute. lia.
Defined.

(** X8. The records [fgets] delivers with the line buffer of the code
    partition the text of the file: joined again they are the text;
    each holds between 1 and [MAXBUFF-2] characters; and a newline
    occurs in a record only as its last character. *)
Theorem fgets_records_partition (text : string) :
  fold_right String.append EmptyString (fgets_records text) = text /\
  Forall (fun r => 1 <= String.length r <= MAXBUFF - 2 /\
                   (r = TERMINATE r \/ r = with_newline (TERMINATE r)))
         (fgets_records text).
Proof.
  apply (fgets_records_aux_partition text (MAXBUFF - 2) EmptyString);
    [reflexivity|reflexivity|unfold MAXBUFF; lia].
Qed.

(** X9. A line of more than [MAXBUFF-2] characters is not read whole:
    its first [MAXBUFF-2] characters are one record and what follows
    them is read as records of its own, so that a [>] in column
    [MAXBUFF-1] of a long line counts as one more frame. *)
Theorem long_line_is_cut (a rest : string) :
  has_newline a = false -> String.length a = MAXBUFF - 2 ->
  fgets_records (a ++ rest) = a :: fgets_records rest /\
  TERMINATE a = a /\
  count_headers (fgets_records (a ++ rest))
    = (if is_header a then 1 else 0) + count_headers (fgets_records rest).
Proof.
  intros Ha Hlen.
  assert (H : fgets_records (a ++ rest) = a :: fgets_records rest).
  { unfold fgets_records.
    rewrite fgets_records_aux_full by (try assumption; unfold MAXBUFF; lia).
    reflexivity. }
  split; [exact H|]. split; [apply TERMINATE_no_newline; exact Ha|].
  rewrite H. unfold count_headers. cbn [filter].
  destruct (is_header a); reflexivity.
Qed.

Lemma long_line_is_cut_witness :
  let a := String ">"%char (string_of_list_ascii (repeat "x"%char 509)) in
  let rest := text_of_lines [">tail"; "1 2 3"] in
  fgets_records (a ++ rest) = a :: fgets_records rest /\
  TERMINATE a = a /\
  count_headers (fgets_records (a ++ rest))
    = (if is_header a then 1 else 0) + count_headers (fgets_records rest).
Proof.
  apply (long_line_is_cut
           (String ">"%char (string_of_list_ascii (repeat "x"%char 509)))
           (text_of_lines [">tail"; "1 2 3"]));
    vm_compute; reflexivity.
Defined.

(** ** The passes and their helpers *)

(** X11. Called with a frame whose atom count differs from that of the
    frames in the file, [FindClosestToMean] returns [NULL] and
    [CalculateMeanRMSD] returns -1.0, each after one mismatch message.
    The message of [FindClosestToMean] carries the header array of its
    caller, not the header of the frame it has read; that of
    [CalculateMeanRMSD] carries its own header array, which is not yet
    written when the first frame is the one that does not match. *)
Theorem later_passes_signal_a_mismatch
    {REAL : Type} {RT : RealType REAL} {RL : RealLaws RT}
    (sscanf3 : string -> coord REAL) (n : nat) (tr : trajectory)
    (w : world) (frame : FRAME REAL) (header : hdr) (frameCount : Z) :
  traj_ok tr = true -> uniform n tr = true -> tr <> [] ->
  rewound w -> f_records (w_in w) = render tr ->
  List.length frame <> n ->
  (exists w',
     FindClosestToMean sscanf3 w frame header = Some ([], w') /\
     w_stderr w' = w_stderr w ++ [mkMsg MSG_ATOMMISMATCH header]) /\
  (exists w',
     CalculateMeanRMSD sscanf3 w frame frameCount = Some (r_mone, w') /\
     w_stderr w' = w_stderr w ++ [mkMsg MSG_ATOMMISMATCH None]).
Proof.
  intros Hok Hu Hne Hr Hrec Hlen.
  destruct (uniform_shape sscanf3 n tr Hok Hu Hne) as (_ & Hhd & Hcons).
  assert (Hfr : exists f0 rest,
            read_frames sscanf3 (render tr) = (None, f0) :: rest /\
            List.length f0 = n).
  { rewrite read_frames_render by exact Hok.
    destruct tr as [|[h cs] tr']; [congruence|].
    cbn [headers_seen frames_of map combine hd snd] in *.
    eexists. eexists. split; [reflexivity|exact Hhd]. }
  destruct Hfr as (f0 & rest & Hfr & Hf0).
  assert (Hneg : (RMSFrame frame f0 <? r_zero)%REAL = true).
  { apply RMSFrame_mismatch_negative. congruence. }
  split.
  - destruct (FindClosestToMean_spec sscanf3 w frame header Hr)
      as (w' & He & [_ Hs] & _).
    rewrite Hrec, Hfr in He, Hs. cbn [closest_fold] in He, Hs.
    rewrite Hneg in He, Hs. exists w'. split; [exact He|exact Hs].
  - destruct (CalculateMeanRMSD_spec sscanf3 w frame frameCount Hr)
      as (w' & He & [_ Hs]).
    rewrite Hrec, Hfr in He, Hs. cbn [rmsd_fold] in He, Hs.
    rewrite Hneg in He, Hs. exists w'. split; [exact He|exact Hs].
Qed.

Lemma later_passes_signal_a_mismatch_witness :
  let w := initial_world (mkFILE (render three_frames) (render three_frames)) in
  (exists w',
     FindClosestToMean sscanf3_decimal w [c3 0 0 0] (Some ">x")
       = Some ([], w') /\
     w_stderr w' = w_stderr w ++ [mkMsg MSG_ATOMMISMATCH (Some ">x")]) /\
  (exists w',
     CalculateMeanRMSD sscanf3_decimal w [c3 0 0 0] 3 = Some (r_mone, w') /\
     w_stderr w' = w_stderr w ++ [mkMsg MSG_ATOMMISMATCH None]).
Proof.
  apply (later_passes_signal_a_mismatch sscanf3_decimal 2 three_frames
           (initial_world (mkFILE (render three_frames) (render three_frames)))
           [c3 0 0 0] (Some ">x") 3);
    [reflexivity|reflexivity|discriminate|reflexivity|reflexivity
    |discriminate].
Defined.

(** X12. [AddFrame] never changes the number of nodes of the mean
    frame; it returns [TRUE] exactly when both lists have the same
    length; and it has by then added the frame's coordinates, each
    divided by the count, to the nodes both lists have in common, also
    when it returns [FALSE]. *)
Theorem AddFrame_updates_common_prefix
    {REAL : Type} {RT : RealType REAL} (meanFrame : FRAME REAL) :
  forall (frame : FRAME REAL) (frameCount : Z),
    List.length (fst (AddFrame meanFrame frame frameCount))
      = List.length meanFrame /\
    snd (AddFrame meanFrame frame frameCount)
      = Nat.eqb (List.length meanFrame) (List.length frame) /\
    forall i,
      nth i (fst (AddFrame meanFrame frame frameCount)) zero_coord
      = if Nat.ltb i (Nat.min (List.length meanFrame) (List.length frame))
        then add_coord frameCount (nth i meanFrame zero_coord)
                       (nth i frame zero_coord)
        else nth i meanFrame zero_coord.
Proof.
  induction meanFrame as [|f meanFrame IH]; intros [|g frame] frameCount.
  - split; [reflexivity|]. split; [reflexivity|]. intros [|i]; reflexivity.
  - split; [reflexivity|]. split; [reflexivity|]. intros [|i]; reflexivity.
  - split; [reflexivity|]. split; [reflexivity|]. intros [|i]; reflexivity.
  - cbn [AddFrame]. specialize (IH frame frameCount).
    destruct (AddFrame meanFrame frame frameCount) as [rest ok].
    cbn [fst snd] in *. destruct IH as (Hl & Hok & Hnth).
    split; [cbn [List.length]; rewrite Hl; reflexivity|].
    split; [exact Hok|].
    intros [|i]; [reflexivity|].
    cbn [nth List.length Nat.min]. rewrite Hnth.
    reflexivity.
Qed.

(** X14. What [PrintFrame] writes for a header that begins with [>]
    and a frame that is not empty is a trajectory file of one frame:
    read back, it has one header record and gives the frame again,
    provided each printed line fits the line buffer, does not begin
    with [>] and scans back to the triple it was printed from. *)
Theorem PrintFrame_output_reads_back
    {REAL : Type} {RT : RealType REAL}
    (printf_3f : REAL -> string) (sscanf3 : string -> coord REAL)
    (h : string) (frame : FRAME REAL) :
  is_header h = true -> line_ok h = true -> frame <> [] ->
  (forall c, In c frame ->
     line_ok (PrintFrame_coords printf_3f c) = true /\
     is_header (PrintFrame_coords printf_3f c) = false /\
     sscanf3 (PrintFrame_coords printf_3f c) = c) ->
  exists text,
    PrintFrame printf_3f (Some h) frame = Some text /\
    count_headers (fgets_records text) = 1 /\
    read_frames sscanf3 (fgets_records text) = [(None, frame)].
Proof.
  intros Hh Hhl Hne Hc.
  eexists. split; [reflexivity|].
  set (lines := map (PrintFrame_coords printf_3f) frame).
  assert (Hlines : forallb line_ok lines = true).
  { apply forallb_forall. intros l Hl. apply in_map_iff in Hl.
    destruct Hl as (c & <- & Hin). apply (Hc c Hin). }
  assert (Hnh : forallb (fun c => negb (is_header c))
                        (map with_newline lines) = true).
  { apply forallb_forall. intros l Hl. apply in_map_iff in Hl.
    destruct Hl as (l0 & <- & Hl0). apply in_map_iff in Hl0.
    destruct Hl0 as (c & <- & Hin). rewrite is_header_with_newline.
    destruct (Hc c Hin) as (_ & E & _). rewrite E. reflexivity. }
  rewrite fgets_records_lines by (cbn [forallb]; rewrite Hhl; exact Hlines).
  replace (map with_newline (h :: lines))
    with (render [(with_newline h, map with_newline lines)])
    by (cbn [render flat_map fst snd map]; rewrite app_nil_r; reflexivity).
  assert (Hok : traj_ok [(with_newline h, map with_newline lines)] = true).
  { unfold traj_ok, frame_ok. cbn [forallb fst snd].
    rewrite is_header_with_newline, Hh, Hnh.
    unfold lines. rewrite !length_map.
    destruct frame; [congruence|reflexivity]. }
  split.
  - rewrite count_headers_render by exact Hok. reflexivity.
  - rewrite read_frames_render by exact Hok.
    cbn [headers_seen frames_of map combine snd]. f_equal. f_equal.
    rewrite parse_coords_with_newline by exact Hlines.
    unfold parse_coords, lines. rewrite map_map.
    rewrite <- (map_id frame) at 2. apply map_ext_in. intros c Hin.
    destruct (Hc c Hin) as (Hl & _ & E).
    rewrite TERMINATE_no_newline by (apply line_ok_no_newline; exact Hl).
    exact E.
Qed.

Lemma PrintFrame_output_reads_back_witness :
  exists text,
    PrintFrame printf_3f_double (Some ">1")
               [c3 1.5 2.25 0.125; c3 (-3) 0 50]
      = Some text /\
    count_headers (fgets_records text) = 1 /\
    read_frames sscanf3_decimal (fgets_records text)
      = [(None, [c3 1.5 2.25 0.125; c3 (-3) 0 50])].
Proof.
  apply (PrintFrame_output_reads_back printf_3f_double sscanf3_decimal ">1"
           [c3 1.5 2.25 0.125; c3 (-3) 0 50]);
    [reflexivity|reflexivity|discriminate|].
  intros c [<-|[<-|[]]]; vm_compute; repeat split.
Defined.

(** ** The arithmetic of the score *)

(** X15. [RMSFrame] is symmetric in its two frames, in binary64 as in
    exact arithmetic, whatever the coordinates and the lengths. *)
Theorem RMSFrame_symmetric :
  (forall frame1 frame2 : FRAME float,
      RMSFrame frame1 frame2 = RMSFrame frame2 frame1) /\
  (forall frame1 frame2 : FRAME R,
      RMSFrame (RT := R_RealType) frame1 frame2 = RMSFrame frame2 frame1).
Proof.
  split; intros frame1 frame2; unfold RMSFrame; apply RMSFrame_loop_sym.
  - exact float_sqdev_sym.
  - exact R_sqdev_sym.
Qed.

(** X16. In binary64, on a trajectory of frames of one shape whose
    coordinates are all finite (atom count within [int], fewer than
    2^53 frames), the run prints a score that is a number and does not
    compare below zero: it is never a NaN. *)
Theorem finite_trajectory_scores_a_number (sscanf3 : string -> coord float)
    (n : nat) (tr : trajectory) :
  traj_ok tr = true -> uniform n tr = true -> tr <> [] ->
  (Z.of_nat n < 2 ^ 31)%Z ->
  (Z.of_nat (List.length tr) < 2 ^ 53)%Z ->
  forallb finite_frame (frames_of sscanf3 tr) = true ->
  main_opened sscanf3 (mkFILE (render tr) (render tr))
    = Some (mkOutcome 0 [Out_score (trajectory_score sscanf3 tr)] []) /\
  not_nan (trajectory_score sscanf3 tr) = true /\
  PrimFloat.ltb (trajectory_score sscanf3 tr) 0%float = false.
Proof.
  intros Hok Hu Hne Hn HN Hfin.
  split.
  { rewrite main_opened_pipeline.
    rewrite (pipeline_uniform sscanf3 n tr Hok Hu Hne) by lia. reflexivity. }
  assert (Ha : sf_amount (Prim2SF (trajectory_score sscanf3 tr))).
  { unfold trajectory_score. cbn [r_div r_of_Z float_RealType].
    rewrite FloatAxioms.div_spec.
    destruct (Z2double_finite (Z.of_nat (List.length tr))) as (m & e & Hz).
    { assert (1 <= List.length tr)
        by (destruct tr; [congruence|cbn [List.length]; lia]).
      lia. }
    rewrite Hz. apply SFdiv_amount.
    pose proof (trajectory_closest_length sscanf3 n tr Hok Hu Hne) as Hcl.
    pose proof (trajectory_closest_In sscanf3 tr Hne) as Hin.
    destruct (uniform_shape sscanf3 n tr Hok Hu Hne) as (Hn1 & _ & _).
    apply float_rmsd_sum_amount.
    - rewrite Hcl. lia.
    - apply finite_number_frame. rewrite forallb_forall in Hfin.
      apply Hfin. exact Hin.
    - rewrite Hcl. apply frames_of_shape. exact Hu.
    - exact Hfin. }
  split.
  - apply not_nan_number, sf_amount_number. exact Ha.
  - apply ltb_zero_not_negative.
    destruct (Prim2SF (trajectory_score sscanf3 tr)); simpl in *; auto.
Qed.

Lemma finite_trajectory_scores_a_number_witness :
  main_opened sscanf3_decimal
    (mkFILE (render three_frames) (render three_frames))
    = Some (mkOutcome 0
              [Out_score (trajectory_score sscanf3_decimal three_frames)] []) /\
  not_nan (trajectory_score sscanf3_decimal three_frames) = true /\
  PrimFloat.ltb (trajectory_score sscanf3_decimal three_frames) 0%float
    = false.
Proof.
  apply (finite_trajectory_scores_a_number sscanf3_decimal 2 three_frames);
    [reflexivity|reflexivity|discriminate|simpl; lia|simpl; lia|reflexivity].
Defined.

(** X17. In binary64, for a trajectory of two frames of one shape
    with finite coordinates, the score printed is the RMSD between the
    two frames divided by 2, whichever of the two is kept as nearest to
    the mean. *)
Theorem two_frames_score_half_their_RMSD (sscanf3 : string -> coord float)
    (n : nat) (h1 h2 : string) (cs1 cs2 : list string) :
  let tr := [(h1, cs1); (h2, cs2)] in
  let frame1 := parse_coords sscanf3 cs1 in
  let frame2 := parse_coords sscanf3 cs2 in
  traj_ok tr = true -> uniform n tr = true ->
  (Z.of_nat n < 2 ^ 31)%Z ->
  finite_frame frame1 = true -> finite_frame frame2 = true ->
  main_opened sscanf3 (mkFILE (render tr) (render tr))
    = Some (mkOutcome 0 [Out_score (RMSFrame frame1 frame2 / 2)%float] []).
Proof.
  intros tr frame1 frame2 Hok Hu Hb Hf1 Hf2.
  assert (Hne : tr <> []) by discriminate.
  rewrite main_opened_pipeline.
  rewrite (pipeline_uniform sscanf3 n tr Hok Hu Hne) by (simpl; lia).
  do 3 f_equal.
  destruct (uniform_shape sscanf3 n tr Hok Hu Hne) as (Hn1 & _ & _).
  pose proof (frames_of_shape sscanf3 n tr Hu) as Hshape.
  change (frames_of sscanf3 tr) with [frame1; frame2] in Hshape.
  assert (Hl1 : List.length frame1 = n)
    by (apply Forall_inv in Hshape; exact Hshape).
  assert (Hl2 : List.length frame2 = n)
    by (apply Forall_inv_tail, Forall_inv in Hshape; exact Hshape).
  assert (Hself : forall f, List.length f = n -> finite_frame f = true ->
                            RMSFrame f f = 0%float).
  { intros f Hl Hf. apply float_RMSFrame_self; [exact Hf|lia|lia]. }
  assert (Hclear : sf_clear (Prim2SF (RMSFrame frame1 frame2))).
  { apply float_RMSFrame_clear; try assumption; try lia.
    apply finite_number_frame. exact Hf1. }
  unfold trajectory_score.
  change (frames_of sscanf3 tr) with [frame1; frame2].
  change (Z.of_nat (List.length tr)) with 2%Z.
  change (r_of_Z 2) with 2%float.
  cbn [r_div float_RealType]. f_equal.
  pose proof (trajectory_closest_In sscanf3 tr Hne) as Hin.
  change (frames_of sscanf3 tr) with [frame1; frame2] in Hin.
  unfold rmsd_sum. cbn [fold_left r_add r_zero float_RealType].
  destruct Hin as [<-|[<-|[]]].
  - rewrite (Hself frame1 Hl1 Hf1).
    change (0 + 0)%float with 0%float.
    rewrite (float_add_zero_l _ Hclear). reflexivity.
  - rewrite (Hself frame2 Hl2 Hf2).
    rewrite (float_RMSFrame_sym frame2 frame1).
    rewrite (float_add_zero_l _ Hclear), (float_add_zero_r _ Hclear).
    reflexivity.
Qed.

Lemma two_frames_score_half_their_RMSD_witness :
  main_opened sscanf3_decimal
    (mkFILE (render [(">f1", ["0 0 0"; "2 0 0"]); (">f2", ["0 0 0"; "0 0 0"])])
            (render [(">f1", ["0 0 0"; "2 0 0"]); (">f2", ["0 0 0"; "0 0 0"])]))
    = Some (mkOutcome 0
              [Out_score
                 (RMSFrame (parse_coords sscanf3_decimal ["0 0 0"; "2 0 0"])
                           (parse_coords sscanf3_decimal ["0 0 0"; "0 0 0"])
                  / 2)%float] []).
Proof.
  apply (two_frames_score_half_their_RMSD sscanf3_decimal 2 ">f1" ">f2"
           ["0 0 0"; "2 0 0"] ["0 0 0"; "0 0 0"]);
    [reflexivity|reflexivity|simpl; lia|reflexivity|reflexivity].
Defined.

(** X22. In binary64 a NaN among the coordinates is not detected: on a
    trajectory of frames of one shape of which some frame holds a NaN,
    the run still exits with status 0 and writes nothing to [stderr],
    and the score it prints is a NaN. *)
Theorem nan_coordinate_gives_nan_score (sscanf3 : string -> coord float)
    (n : nat) (tr : trajectory) :
  traj_ok tr = true -> uniform n tr = true -> tr <> [] ->
  (Z.of_nat n < 2 ^ 31)%Z ->
  (Z.of_nat (List.length tr) < 2 ^ 63)%Z ->
  forallb number_frame (frames_of sscanf3 tr) = false ->
  exists score,
    main_opened sscanf3 (mkFILE (render tr) (render tr))
      = Some (mkOutcome 0 [Out_score score] []) /\
    not_nan score = false.
Proof.
  intros Hok Hu Hne Hb HN Hnan.
  exists (trajectory_score sscanf3 tr).
  split.
  { rewrite main_opened_pipeline.
    rewrite (pipeline_uniform sscanf3 n tr Hok Hu Hne HN). reflexivity. }
  assert (Hs : Prim2SF (trajectory_score sscanf3 tr) = S754_nan).
  { unfold trajectory_score. cbn [r_div float_RealType].
    rewrite FloatAxioms.div_spec.
    pose proof (trajectory_closest_length sscanf3 n tr Hok Hu Hne) as Hcl.
    pose proof (frames_of_shape sscanf3 n tr Hu) as Hshape.
    rewrite Forall_forall in Hshape.
    assert (Hex : exists f, In f (frames_of sscanf3 tr)
                            /\ number_frame f = false).
    { clear - Hnan. induction (frames_of sscanf3 tr) as [|f l IH];
        [discriminate|].
      cbn [forallb] in Hnan. destruct (number_frame f) eqn:Hf.
      - destruct (IH Hnan) as (g & Hg & Hn). exists g. split;
          [right; exact Hg|exact Hn].
      - exists f. split; [left; reflexivity|exact Hf]. }
    destruct Hex as (f & Hf & Hfn).
    unfold rmsd_sum.
    rewrite (float_rmsd_sum_nan (trajectory_closest sscanf3 tr)
               (frames_of sscanf3 tr) r_zero); [reflexivity|].
    right. exists f. split; [exact Hf|].
    apply float_RMSFrame_nan; [|rewrite Hcl; exact Hb|exact Hfn].
    rewrite Hcl. symmetry. apply Hshape. exact Hf. }
  unfold not_nan. rewrite Hs. reflexivity.
Qed.

Lemma nan_coordinate_gives_nan_score_witness :
  exists score,
    main_opened sscanf3_nan
      (mkFILE (render [(">a", ["1 2 3"]); (">b", ["nan nan nan"])])
              (render [(">a", ["1 2 3"]); (">b", ["nan nan nan"])]))
      = Some (mkOutcome 0 [Out_score score] []) /\
    not_nan score = false.
Proof.
  apply (nan_coordinate_gives_nan_score sscanf3_nan 1
           [(">a", ["1 2 3"]); (">b", ["nan nan nan"])]);
    [reflexivity|reflexivity|discriminate|simpl; lia|simpl; lia|reflexivity].
Defined.

(** X23. On trajectories of frames of one shape the run does not
    depend on the text of the header lines: two files with the same
    coordinate lines, frame by frame, every line of either short enough
    for the line buffer and every coordinate line three decimal
    numbers, end the same way with the same score. *)
Theorem header_text_is_ignored
    {REAL : Type} {RT : RealType REAL} {RL : RealLaws RT}
    (sscanf3 : string -> coord REAL) (fs : string -> option string)
    (prog inFile inFile' : string) (rest : list string)
    (n : nat) (tr tr' : trajectory) :
  inFile <> EmptyString -> String.length inFile < MAXFNM ->
  inFile' <> EmptyString -> String.length inFile' < MAXFNM ->
  fs inFile = Some (text_of_lines (render tr)) ->
  fs inFile' = Some (text_of_lines (render tr')) ->
  forallb line_ok (render tr) = true ->
  forallb line_ok (render tr') = true ->
  forallb three_decimals (flat_map snd tr) = true ->
  traj_ok tr = true -> traj_ok tr' = true ->
  map snd tr = map snd tr' ->
  uniform n tr = true -> tr <> [] ->
  (Z.of_nat (List.length tr) < 2 ^ 63)%Z ->
  main sscanf3 fs (prog :: inFile :: rest)
    = Some (mkOutcome 0 [Out_score (trajectory_score sscanf3 tr)] []) /\
  main sscanf3 fs (prog :: inFile' :: rest)
    = main sscanf3 fs (prog :: inFile :: rest).
Proof.
  intros Hname _ Hname' _ Hfs Hfs' Hlines Hlines' _ Hok Hok' Hsame Hu Hne Hb.
  assert (Hlen : List.length tr' = List.length tr).
  { rewrite <- (length_map snd tr'), <- Hsame. apply length_map. }
  assert (Hu' : uniform n tr' = true).
  { unfold uniform in *. rewrite forallb_forall in *.
    intros f Hf.
    assert (Hin : In (snd f) (map snd tr))
      by (rewrite Hsame; apply in_map; exact Hf).
    apply in_map_iff in Hin. destruct Hin as (g & Hg & Hgin).
    rewrite <- Hg. apply Hu. exact Hgin. }
  assert (Hne' : tr' <> []).
  { intros E. rewrite E in Hlen. destruct tr; [congruence|discriminate]. }
  assert (Hfr : frames_of sscanf3 tr' = frames_of sscanf3 tr).
  { unfold frames_of.
    rewrite <- (map_map snd (parse_coords sscanf3) tr').
    rewrite <- (map_map snd (parse_coords sscanf3) tr).
    rewrite Hsame. reflexivity. }
  rewrite (main_on_uniform_text sscanf3 fs prog inFile rest n tr)
    by assumption.
  rewrite (main_on_uniform_text sscanf3 fs prog inFile' rest n tr')
    by (try assumption; rewrite Hlen; exact Hb).
  split; [reflexivity|].
  unfold trajectory_score, trajectory_closest, trajectory_mean.
  rewrite Hfr, Hlen. reflexivity.
Qed.

Lemma header_text_is_ignored_witness :
  let tr' := [(">frame 1", ["1 2 3"; "4 5 6"]);
              (">frame 2", ["3 2 1"; "6 5 4"]);
              (">", ["2 2 2"; "5 5 5"])] in
  let fs := fun name =>
    if String.eqb name "first" then Some (text_of_lines (render three_frames))
    else if String.eqb name "second" then Some (text_of_lines (render tr'))
    else None in
  main sscanf3_decimal fs ["flexcalc"; "first"]
    = Some (mkOutcome 0
              [Out_score (trajectory_score sscanf3_decimal three_frames)] []) /\
  main sscanf3_decimal fs ["flexcalc"; "second"]
    = main sscanf3_decimal fs ["flexcalc"; "first"].
Proof.
  cbv zeta.
  apply (header_text_is_ignored sscanf3_decimal
           (fun name =>
              if String.eqb name "first"
              then Some (text_of_lines (render three_frames))
              else if String.eqb name "second"
                   then Some (text_of_lines
                                (render [(">frame 1", ["1 2 3"; "4 5 6"]);
                                         (">frame 2", ["3 2 1"; "6 5 4"]);
                                         (">", ["2 2 2"; "5 5 5"])]))
                   else None)
           "flexcalc" "first" "second" [] 2 three_frames
           [(">frame 1", ["1 2 3"; "4 5 6"]);
            (">frame 2", ["3 2 1"; "6 5 4"]);
            (">", ["2 2 2"; "5 5 5"])]);
    [discriminate|vm_compute; lia|discriminate|vm_compute; lia
    |reflexivity|reflexivity|reflexivity|reflexivity|reflexivity
    |reflexivity|reflexivity|reflexivity|reflexivity|discriminate
    |simpl; lia].
Defined.
